(** * Koopman eigenfunction lifting (core/learning/koopman_eigenfunctions.py)

    A shallow embedding of the class [KoopmanEigenfunctions]: the power
    matrix and the eigenvalue vector built by [construct_linear_eigfuncs],
    the composed basis and [lift], the diffeomorphism network and the data
    pipeline of [fit_diffeomorphism_model]. *)

From Stdlib Require Import String Ascii DecimalString DecimalNat DecimalFacts.
From Stdlib Require Import List Arith ZArith Lia Bool.
From Stdlib Require Import Permutation Sorted.
From Stdlib Require PrimFloat FloatOps SpecFloat Reals Lra.
Import ListNotations.

(** ** itertools *)

Module Itertools.

Section Iterators.
Context {A : Type}.

(** [combinations_with_replacement(pool, r)]: the r-length tuples of
  elements of [pool], positions non-decreasing, in lexicographic order
  of positions. *)
Fixpoint combinations_with_replacement (r : nat) (pool : list A)
: list (list A) :=
match r with
| 0 => [[]]
| S r' =>
    (fix from (l : list A) : list (list A) :=
       match l with
       | [] => []
       | x :: xs =>
           map (cons x) (combinations_with_replacement r' l) ++ from xs
       end) pool
end.

(** Every way of taking one element out of a list, with what is left, in
  order of position. *)
Fixpoint selections (l : list A) : list (A * list A) :=
match l with
| [] => []
| x :: xs =>
    (x, xs) :: map (fun p => (fst p, x :: snd p)) (selections xs)
end.

(** [permutations(pool, r)]: the r-length arrangements of the positions of
  [pool], in lexicographic order of positions; equal values at different
  positions give repeated tuples. *)
Fixpoint permutations (r : nat) (pool : list A) : list (list A) :=
match r with
| 0 => [[]]
| S r' =>
    flat_map (fun p => map (cons (fst p)) (permutations r' (snd p)))
             (selections pool)
end.

Lemma cwr_nil r : combinations_with_replacement (S r) [] = [].
Proof. reflexivity. Qed.

Lemma cwr_cons r x xs :
combinations_with_replacement (S r) (x :: xs) =
map (cons x) (combinations_with_replacement r (x :: xs))
    ++ combinations_with_replacement (S r) xs.
Proof. reflexivity. Qed.

Lemma cwr_length r : forall pool c,
In c (combinations_with_replacement r pool) -> length c = r.
Proof.
induction r as [|r IH]; intros pool c Hc.
- destruct Hc as [<-|[]]. reflexivity.
- induction pool as [|x xs IHp]; [contradiction|].
  rewrite cwr_cons in Hc. apply in_app_or in Hc as [Hc|Hc].
  + apply in_map_iff in Hc as (c' & <- & Hc'). simpl.
    f_equal. eauto.
  + auto.
Qed.

Lemma selections_spec l : forall y ys,
In (y, ys) (selections l) <->
exists l1 l2, l = l1 ++ y :: l2 /\ ys = l1 ++ l2.
Proof.
induction l as [|x xs IH]; intros y ys; simpl.
- split; [contradiction|]. intros (l1 & l2 & E & _).
  destruct l1; discriminate.
- split.
  + intros [E|H].
    * inversion E; subst. exists [], ys. auto.
    * apply in_map_iff in H as ([z zs] & E & H). simpl in E.
      inversion E; subst. apply IH in H as (l1 & l2 & -> & ->).
      exists (x :: l1), l2. auto.
  + intros (l1 & l2 & E & ->). destruct l1 as [|a l1]; simpl in *.
    * inversion E; subst. now left.
    * inversion E; subst. right. apply in_map_iff.
      exists (y, l1 ++ l2). split; [reflexivity|].
      apply IH. eauto.
Qed.

Lemma permutations_sound r : forall pool t,
length pool = r -> In t (permutations r pool) -> Permutation pool t.
Proof.
induction r as [|r IH]; intros pool t Hlen Ht; simpl in Ht.
- destruct Ht as [<-|[]]. destruct pool; [constructor|discriminate].
- apply in_flat_map in Ht as ([y ys] & Hsel & Ht). simpl in Ht.
  apply in_map_iff in Ht as (t' & <- & Ht').
  apply selections_spec in Hsel as (l1 & l2 & -> & ->).
  rewrite length_app in Hlen. simpl in Hlen.
  apply IH in Ht'; [|rewrite length_app; lia].
  symmetry. apply Permutation_cons_app. now symmetry.
Qed.

Lemma permutations_complete r : forall pool t,
length pool = r -> Permutation pool t -> In t (permutations r pool).
Proof.
induction r as [|r IH]; intros pool t Hlen HP; simpl.
- destruct pool; [|discriminate].
  apply Permutation_nil in HP. subst. now left.
- destruct t as [|y t'].
  { apply Permutation_sym, Permutation_nil in HP. subst. discriminate. }
  assert (Hin : In y pool).
  { eapply Permutation_in; [symmetry; exact HP|now left]. }
  apply in_split in Hin as (l1 & l2 & ->).
  apply in_flat_map. exists (y, l1 ++ l2). split.
  + apply selections_spec. eauto.
  + simpl. apply in_map. apply IH.
    * rewrite length_app in *. simpl in Hlen. lia.
    * eapply Permutation_cons_inv with (a := y).
      etransitivity; [|exact HP]. apply Permutation_middle.
Qed.

End Iterators.

End Itertools.

(** ** numpy on integer rows: [unique(., axis=0)] *)

Module IntRows.

(** Rows of an integer matrix are compared lexicographically. *)
Fixpoint row_compare (a b : list nat) : comparison :=
  match a, b with
  | [], [] => Eq
  | [], _ :: _ => Lt
  | _ :: _, [] => Gt
  | x :: a', y :: b' =>
      match Nat.compare x y with
      | Eq => row_compare a' b'
      | c => c
      end
  end.

Definition row_lt (a b : list nat) : Prop := row_compare a b = Lt.

Fixpoint insert_row (r : list nat) (l : list (list nat)) : list (list nat) :=
  match l with
  | [] => [r]
  | h :: t =>
      match row_compare r h with
      | Lt => r :: l
      | Eq => l
      | Gt => h :: insert_row r t
      end
  end.

(** [unique(a, axis=0)]: the distinct rows of [a], sorted. *)
Definition unique_rows (a : list (list nat)) : list (list nat) :=
  fold_right insert_row [] a.

(** [a.reshape((a.shape[0] * a.shape[1], a.shape[2]))] on an array given as
    a list of blocks of rows. *)
Definition reshape_blocks (a : list (list (list nat))) : list (list nat) :=
  concat a.

Lemma row_compare_eq a : forall b, row_compare a b = Eq <-> a = b.
Proof.
  induction a as [|x a IH]; intros [|y b]; simpl; try (split; congruence).
  destruct (Nat.compare_spec x y) as [->|H|H].
  - rewrite IH. split; congruence.
  - split; [discriminate|]. intros E. inversion E. lia.
  - split; [discriminate|]. intros E. inversion E. lia.
Qed.

Lemma row_compare_refl a : row_compare a a = Eq.
Proof. now apply row_compare_eq. Qed.

Lemma row_compare_antisym a : forall b,
  row_compare b a = CompOpp (row_compare a b).
Proof.
  induction a as [|x a IH]; intros [|y b]; simpl; auto.
  rewrite (Nat.compare_antisym x y).
  destruct (Nat.compare x y); simpl; auto.
Qed.

Lemma row_lt_trans a : forall b c, row_lt a b -> row_lt b c -> row_lt a c.
Proof.
  unfold row_lt.
  induction a as [|x a IH]; intros [|y b] [|z c]; simpl; try congruence.
  destruct (Nat.compare_spec x y) as [->|H|H]; try discriminate.
  - destruct (Nat.compare_spec y z) as [->|H'|H']; try discriminate; auto.
    apply IH.
  - destruct (Nat.compare_spec y z) as [->|H'|H']; try discriminate;
      intros _ _.
    + apply Nat.compare_lt_iff in H. now rewrite H.
    + assert (Hxz : x < z) by lia.
      apply Nat.compare_lt_iff in Hxz. now rewrite Hxz.
Qed.

Lemma row_lt_irrefl a : ~ row_lt a a.
Proof. unfold row_lt. rewrite row_compare_refl. discriminate. Qed.

Lemma insert_row_In r l x : In x (insert_row r l) <-> x = r \/ In x l.
Proof.
  induction l as [|h t IH]; simpl.
  - intuition congruence.
  - destruct (row_compare r h) eqn:E; simpl.
    + apply row_compare_eq in E. subst. intuition congruence.
    + intuition congruence.
    + rewrite IH. intuition congruence.
Qed.

Lemma unique_rows_In a x : In x (unique_rows a) <-> In x a.
Proof.
  induction a as [|r a IH]; simpl; [tauto|].
  rewrite insert_row_In, IH. intuition congruence.
Qed.

Lemma insert_row_sorted r l :
  StronglySorted row_lt l -> StronglySorted row_lt (insert_row r l).
Proof.
  induction 1 as [|h t Hs IH Hh]; simpl.
  - repeat constructor.
  - destruct (row_compare r h) eqn:E.
    + now constructor.
    + constructor; [now constructor|]. constructor; [exact E|].
      eapply Forall_impl; [|exact Hh]. intros b. now apply row_lt_trans.
    + constructor; [exact IH|]. apply Forall_forall. intros b Hb.
      apply insert_row_In in Hb as [->|Hb].
      * unfold row_lt. rewrite row_compare_antisym, E. reflexivity.
      * rewrite Forall_forall in Hh. auto.
Qed.

Lemma unique_rows_sorted a : StronglySorted row_lt (unique_rows a).
Proof.
  induction a as [|r a IH]; simpl; [constructor|].
  now apply insert_row_sorted.
Qed.

Lemma sorted_NoDup l : StronglySorted row_lt l -> NoDup l.
Proof.
  induction 1 as [|h t Hs IH Hh]; constructor; auto.
  intros Hin. rewrite Forall_forall in Hh.
  exact (row_lt_irrefl _ (Hh _ Hin)).
Qed.

Lemma unique_rows_NoDup a : NoDup (unique_rows a).
Proof. apply sorted_NoDup, unique_rows_sorted. Qed.

(** Two strictly sorted lists with the same members are the same list. *)
Lemma sorted_ext l : forall l',
  StronglySorted row_lt l -> StronglySorted row_lt l' ->
  (forall x, In x l <-> In x l') -> l = l'.
Proof.
  induction l as [|a l IH]; intros [|b l'] Hl Hl' Hiff.
  - reflexivity.
  - exfalso. apply (proj2 (Hiff b)). now left.
  - exfalso. apply (proj1 (Hiff a)). now left.
  - inversion Hl as [|? ? Hs Ha]; subst.
    inversion Hl' as [|? ? Hs' Hb]; subst.
    rewrite Forall_forall in Ha, Hb.
    assert (a = b) as ->.
    { destruct (proj1 (Hiff a) (or_introl eq_refl)) as [E|Hin]; auto.
      destruct (proj2 (Hiff b) (or_introl eq_refl)) as [E|Hin']; auto.
      exfalso. apply (row_lt_irrefl a).
      eapply row_lt_trans; [apply Ha, Hin'|apply Hb, Hin]. }
    f_equal. apply IH; auto. intros x. split; intros Hx.
    + destruct (proj1 (Hiff x) (or_intror Hx)) as [<-|]; auto.
      exfalso. exact (row_lt_irrefl _ (Ha _ Hx)).
    + destruct (proj2 (Hiff x) (or_intror Hx)) as [<-|]; auto.
      exfalso. exact (row_lt_irrefl _ (Hb _ Hx)).
Qed.

End IntRows.

(** ** The power matrix (construct_linear_eigfuncs, lines 64-67) *)

Module Powers.
Import Itertools IntRows.

(** [p = array([ii for ii in range(self.max_power+1)])] *)
Definition p (max_power : nat) : list nat := seq 0 (max_power + 1).

(** [combinations = array(list(combinations_with_replacement(p, self.n)))] *)
Definition combinations (n max_power : nat) : list (list nat) :=
  combinations_with_replacement n (p max_power).

(** [powers = array([list(permutations(c,self.n)) for c in combinations])],
    then [unique(powers.reshape(...), axis=0)]. *)
Definition powers (n max_power : nat) : list (list nat) :=
  let powers :=
    map (fun c => permutations n c) (combinations n max_power) in
  unique_rows (reshape_blocks powers).

(** The length-[n] sequences over [pool], as the specification describes
    the rows: one power from the pool for each principal eigenfunction. *)
Fixpoint sequences (pool : list nat) (n : nat) : list (list nat) :=
  match n with
  | 0 => [[]]
  | S k => flat_map (fun x => map (cons x) (sequences pool k)) pool
  end.

(** *** Combinations with replacement of an interval *)

Lemma cwr_incl (r : nat) : forall (pool c : list nat),
  In c (combinations_with_replacement r pool) -> incl c pool.
Proof.
  induction r as [|r IH]; intros pool c Hc.
  - destruct Hc as [<-|[]]. intros x [].
  - induction pool as [|x xs IHp]; [contradiction|].
    rewrite cwr_cons in Hc. apply in_app_or in Hc as [Hc|Hc].
    + apply in_map_iff in Hc as (c' & <- & Hc').
      apply incl_cons; [now left|]. now apply IH.
    + apply incl_tl. auto.
Qed.

Lemma cwr_seq_complete (r : nat) : forall k a c,
  length c = r -> StronglySorted le c ->
  Forall (fun x => a <= x < a + k) c ->
  In c (combinations_with_replacement r (seq a k)).
Proof.
  induction r as [|r IHr]; intros k a c Hlen Hs Hr.
  - destruct c; [now left|discriminate].
  - destruct c as [|x c]; [discriminate|].
    revert a Hr. induction k as [|k IHk]; intros a Hr.
    + inversion Hr; subst. lia.
    + simpl seq. rewrite cwr_cons. apply in_or_app.
      inversion Hr as [|? ? Hx Hc]; subst.
      inversion Hs as [|? ? Hsc Hle]; subst.
      destruct (Nat.eq_dec x a) as [->|Hne].
      * left. apply in_map. apply (IHr (S k) a); auto.
      * right. apply IHk. constructor; [lia|].
        rewrite Forall_forall in *. intros y Hy.
        specialize (Hle y Hy). specialize (Hc y Hy). lia.
Qed.

Fixpoint insert_sorted (x : nat) (l : list nat) : list nat :=
  match l with
  | [] => [x]
  | y :: t => if x <=? y then x :: l else y :: insert_sorted x t
  end.

Lemma insert_sorted_perm x l : Permutation (x :: l) (insert_sorted x l).
Proof.
  induction l as [|y t IH]; simpl; [reflexivity|].
  destruct (x <=? y); [reflexivity|].
  rewrite perm_swap. now constructor.
Qed.

Lemma insert_sorted_sorted x l :
  StronglySorted le l -> StronglySorted le (insert_sorted x l).
Proof.
  induction 1 as [|y t Hs IH Hy]; simpl.
  - repeat constructor.
  - destruct (Nat.leb_spec x y).
    + constructor; [now constructor|]. constructor; [assumption|].
      eapply Forall_impl; [|exact Hy]. intros; simpl in *; lia.
    + constructor; [assumption|].
      eapply Permutation_Forall; [apply insert_sorted_perm|].
      constructor; [lia|assumption].
Qed.

Lemma sorted_arrangement (l : list nat) :
  exists c, Permutation c l /\ StronglySorted le c.
Proof.
  induction l as [|x l (c & HP & Hs)].
  - exists []. split; constructor.
  - exists (insert_sorted x c). split.
    + rewrite <- insert_sorted_perm. now constructor.
    + now apply insert_sorted_sorted.
Qed.

(** *** Rows of the power matrix *)

Lemma powers_In (n max_power : nat) (row : list nat) :
  In row (powers n max_power) <->
  length row = n /\ Forall (fun x => x <= max_power) row.
Proof.
  unfold powers, reshape_blocks, combinations, p.
  rewrite unique_rows_In, in_concat. split.
  - intros (blk & Hblk & Hrow).
    apply in_map_iff in Hblk as (c & <- & Hc).
    pose proof Hc as Hlen. apply cwr_length in Hlen.
    pose proof Hc as Hincl. apply cwr_incl in Hincl.
    apply permutations_sound in Hrow; [|exact Hlen].
    split.
    + rewrite <- Hlen. symmetry. now apply Permutation_length.
    + eapply Permutation_Forall; [exact Hrow|].
      apply Forall_forall. intros x Hx.
      apply Hincl, in_seq in Hx. lia.
  - intros [Hlen Hall].
    destruct (sorted_arrangement row) as (c & HP & Hs).
    assert (Hc : length c = n).
    { rewrite <- Hlen. now apply Permutation_length. }
    exists (permutations n c). split.
    + apply in_map_iff. exists c. split; [reflexivity|].
      apply cwr_seq_complete; auto.
      eapply Permutation_Forall; [symmetry; exact HP|].
      eapply Forall_impl; [|exact Hall]. intros; simpl in *; lia.
    + now apply permutations_complete.
Qed.

Lemma powers_sorted n max_power :
  StronglySorted row_lt (powers n max_power).
Proof. apply unique_rows_sorted. Qed.

Lemma powers_NoDup n max_power : NoDup (powers n max_power).
Proof. apply unique_rows_NoDup. Qed.

Lemma powers_row_length n max_power row :
  In row (powers n max_power) -> length row = n.
Proof. intros H. now apply powers_In in H. Qed.

(** *** The sequences over the pool *)

Lemma sequences_In pool n : forall row,
  In row (sequences pool n) <-> length row = n /\ incl row pool.
Proof.
  induction n as [|n IH]; intros row; simpl.
  - split.
    + intros [<-|[]]. split; [reflexivity|intros x []].
    + intros [H _]. destruct row; [now left|discriminate].
  - rewrite in_flat_map. split.
    + intros (x & Hx & Hrow).
      apply in_map_iff in Hrow as (t & <- & Ht).
      apply IH in Ht as [Hl Hi]. simpl. split; [congruence|].
      now apply incl_cons.
    + intros [Hl Hi]. destruct row as [|x t]; [discriminate|].
      exists x. split; [apply Hi; now left|].
      apply in_map, IH. split; [simpl in Hl; lia|].
      intros y Hy. apply Hi. now right.
Qed.

Lemma flat_map_cons_length (L : list (list nat)) (pool : list nat) :
  length (flat_map (fun x => map (cons x) L) pool) = length pool * length L.
Proof.
  induction pool as [|x xs IHp]; simpl; [reflexivity|].
  now rewrite length_app, length_map, IHp.
Qed.

Lemma sequences_length pool n :
  length (sequences pool n) = length pool ^ n.
Proof.
  induction n as [|n IH]; simpl; [reflexivity|].
  now rewrite flat_map_cons_length, IH.
Qed.

Lemma sorted_app l1 : forall l2,
  StronglySorted row_lt l1 -> StronglySorted row_lt l2 ->
  (forall a b, In a l1 -> In b l2 -> row_lt a b) ->
  StronglySorted row_lt (l1 ++ l2).
Proof.
  induction l1 as [|a l1 IH]; intros l2 H1 H2 Hc; simpl; [assumption|].
  inversion H1 as [|? ? Hs Ha]; subst.
  constructor.
  - apply IH; auto. intros; apply Hc; simpl; auto.
  - apply Forall_app. split; [assumption|].
    apply Forall_forall. intros b Hb. apply Hc; simpl; auto.
Qed.

Lemma sorted_map_cons x l :
  StronglySorted row_lt l -> StronglySorted row_lt (map (cons x) l).
Proof.
  induction 1 as [|a t Hs IH Ha]; simpl; constructor; auto.
  apply Forall_map. eapply Forall_impl; [|exact Ha].
  intros b Hb. unfold row_lt in *. simpl.
  now rewrite Nat.compare_refl.
Qed.

Lemma flat_map_cons_sorted (L : list (list nat)) (pool : list nat) :
  StronglySorted lt pool -> StronglySorted row_lt L ->
  StronglySorted row_lt (flat_map (fun x => map (cons x) L) pool).
Proof.
  intros Hpool HL.
  induction Hpool as [|x xs Hs IHp Hx]; simpl; [constructor|].
  apply sorted_app; auto using sorted_map_cons.
  intros a b Ha Hb.
  apply in_map_iff in Ha as (a' & <- & _).
  apply in_flat_map in Hb as (y & Hy & Hb).
  apply in_map_iff in Hb as (b' & <- & _).
  rewrite Forall_forall in Hx. specialize (Hx y Hy).
  unfold row_lt. simpl.
  apply Nat.compare_lt_iff in Hx. now rewrite Hx.
Qed.

Lemma sequences_sorted pool n :
  StronglySorted lt pool -> StronglySorted row_lt (sequences pool n).
Proof.
  intros Hpool. induction n as [|n IH]; simpl.
  - repeat constructor.
  - now apply flat_map_cons_sorted.
Qed.

Lemma p_sorted max_power : StronglySorted lt (p max_power).
Proof.
  unfold p. generalize (max_power + 1) as k. generalize 0 as a.
  intros a k. revert a.
  induction k as [|k IH]; intros a; simpl; constructor; auto.
  apply Forall_forall. intros y Hy. apply in_seq in Hy. lia.
Qed.

(** The power matrix is the list of all sequences, in the same order. *)
Lemma powers_sequences n max_power :
  powers n max_power = sequences (p max_power) n.
Proof.
  apply sorted_ext.
  - apply powers_sorted.
  - apply sequences_sorted, p_sorted.
  - intros row. rewrite powers_In, sequences_In.
    split; intros [Hl H]; (split; [exact Hl|]).
    + intros x Hx. rewrite Forall_forall in H. specialize (H x Hx).
      unfold p. apply in_seq. lia.
    + apply Forall_forall. intros x Hx. apply H in Hx.
      unfold p in Hx. apply in_seq in Hx. lia.
Qed.

Lemma powers_count n max_power :
  length (powers n max_power) = (max_power + 1) ^ n.
Proof.
  rewrite powers_sequences, sequences_length.
  unfold p. now rewrite length_seq.
Qed.

Example powers_2_1 : powers 2 1 = [[0; 0]; [0; 1]; [1; 0]; [1; 1]].
Proof. reflexivity. Qed.

Example powers_1_2 : powers 1 2 = [[0]; [1]; [2]].
Proof. reflexivity. Qed.

Example powers_3_1_count : length (powers 3 1) = 8.
Proof. reflexivity. Qed.

End Powers.

(** ** Python results *)

Inductive PyError : Type :=
| AttributeError | TypeError | ValueError | IndexError
| RuntimeError | AssertionError | LinAlgError | ZeroDivisionError
| FileNotFoundError.

Inductive result (A : Type) : Type :=
| Ok (a : A)
| Err (e : PyError).
Arguments Ok {A} a.
Arguments Err {A} e.

Definition rbind {A B} (c : result A) (k : A -> result B) : result B :=
  match c with
  | Ok a => k a
  | Err e => Err e
  end.

Definition is_err {A} (c : result A) : bool :=
  match c with Ok _ => false | Err _ => true end.

(** ** Scalars

    The arithmetic of array entries.  The code runs on IEEE binary64; every
    definition below is written once over this interface and is run on
    binary64 ([PrimFloat]) and on the real numbers. *)

Class Scalar (S : Type) : Type := {
  szero : S;
  sone : S;
  sadd : S -> S -> S;
  ssub : S -> S -> S;
  smul : S -> S -> S;
  sdiv : S -> S -> S;
  (** [power(x, k)] for an integer exponent [k >= 0] *)
  spower : S -> nat -> S;
  (** [max(0, x)] *)
  srelu : S -> S;
  (** [x != 0] *)
  snonzero : S -> bool;
  (** [x <= y] *)
  sleb : S -> S -> bool
}.

(** [numpy.exp] and [numpy.log]. *)
Class ExpLog (S : Type) : Type := {
  sexp : S -> S;
  slog : S -> S
}.

(** ** numpy: two-dimensional arrays *)

Module Numpy.

Record ndarray (T : Type) : Type := mk_ndarray {
  nrows : nat;
  ncols : nat;
  rows : list (list T)
}.
Arguments mk_ndarray {T} _ _ _.
Arguments nrows {T} _.
Arguments ncols {T} _.
Arguments rows {T} _.

(** The shape an array carries is the shape of its data. *)
Definition wf {T} (a : ndarray T) : Prop :=
  length (rows a) = nrows a /\
  Forall (fun r => length r = ncols a) (rows a).

Fixpoint map2 {A B C} (f : A -> B -> C) (l1 : list A) (l2 : list B)
  : list C :=
  match l1, l2 with
  | x :: t1, y :: t2 => f x y :: map2 f t1 t2
  | _, _ => []
  end.

(** The columns of [c]-column rows. *)
Fixpoint transpose_rows {T} (c : nat) (rs : list (list T)) : list (list T) :=
  match rs with
  | [] => repeat [] c
  | r :: rs' => map2 cons r (transpose_rows c rs')
  end.

(** [transpose(a)], [a.transpose()], [a.T] *)
Definition transpose {T} (a : ndarray T) : ndarray T :=
  mk_ndarray (ncols a) (nrows a) (transpose_rows (ncols a) (rows a)).

(** [a[:, ii]] *)
Definition column {T} (a : ndarray T) (ii : nat) : result (list T) :=
  match nth_error (transpose_rows (ncols a) (rows a)) ii with
  | Some c => Ok c
  | None => Err IndexError
  end.

(** [v.reshape((n, 1))] *)
Definition reshape_n1 {T} (n : nat) (v : list T) : result (ndarray T) :=
  if length v =? n then Ok (mk_ndarray n 1 (map (fun x => [x]) v))
  else Err ValueError.

(** [array([v0, v1, ...])] of one-dimensional arrays: one row each;
    [array([])] is the empty array. *)
Definition array_of_rows {T} (l : list (list T)) : ndarray T :=
  mk_ndarray (length l)
             (match l with [] => 0 | r :: _ => length r end) l.

(** Broadcasting of two shapes along one axis. *)
Definition broadcast_dim (a b : nat) : option nat :=
  if a =? b then Some a
  else if a =? 1 then Some b
  else if b =? 1 then Some a
  else None.

Definition stretch {X} (dim target : nat) (l : list X) : list X :=
  if dim =? target then l
  else match l with
       | [x] => repeat x target
       | _ => l
       end.

Definition broadcast_to {T} (r c : nat) (a : ndarray T) : ndarray T :=
  mk_ndarray r c
    (map (stretch (ncols a) c) (stretch (nrows a) r (rows a))).

(** An elementwise binary ufunc. *)
Definition broadcast2 {A B C} (f : A -> B -> C)
    (a : ndarray A) (b : ndarray B) : result (ndarray C) :=
  match broadcast_dim (nrows a) (nrows b),
        broadcast_dim (ncols a) (ncols b) with
  | Some r, Some c =>
      Ok (mk_ndarray r c
            (map2 (map2 f) (rows (broadcast_to r c a))
                            (rows (broadcast_to r c b))))
  | _, _ => Err ValueError
  end.

(** [concatenate((a, b, ...), axis=1)] *)
Definition hstack2 {T} (a b : ndarray T) : result (ndarray T) :=
  if nrows a =? nrows b
  then Ok (mk_ndarray (nrows a) (ncols a + ncols b)
             (map2 (@app T) (rows a) (rows b)))
  else Err ValueError.

Definition concatenate_axis1 {T} (l : list (ndarray T))
  : result (ndarray T) :=
  match l with
  | [] => Err ValueError
  | a :: t => fold_left (fun acc b => rbind acc (fun x => hstack2 x b))
                        t (Ok a)
  end.

Section Arithmetic.
Context {S : Type} {scalar : Scalar S}.

Definition sum_list (l : list S) : S :=
  match l with
  | [] => szero
  | x :: t => fold_left sadd t x
  end.

Definition prod_list (l : list S) : S :=
  match l with
  | [] => sone
  | x :: t => fold_left smul t x
  end.

(** [dot(a, b)] of two matrices *)
Definition dot (a b : ndarray S) : result (ndarray S) :=
  if ncols a =? nrows b
  then Ok (mk_ndarray (nrows a) (ncols b)
             (map (fun r =>
                     map (fun c => sum_list (map2 smul r c))
                         (transpose_rows (ncols b) (rows b)))
                  (rows a)))
  else Err ValueError.

(** [prod(a, axis=0)] *)
Definition prod_axis0 (a : ndarray S) : list S :=
  map prod_list (transpose_rows (ncols a) (rows a)).

(** [divide(a, b)] *)
Definition divide (a b : ndarray S) : result (ndarray S) :=
  broadcast2 sdiv a b.

(** [power(a, k)] with an integer array of exponents *)
Definition power (a : ndarray S) (k : ndarray nat) : result (ndarray S) :=
  broadcast2 spower a k.

(** [a - b] on one-dimensional arrays of one length *)
Definition sub1 (a b : list S) : result (list S) :=
  if length a =? length b then Ok (map2 ssub a b) else Err ValueError.

(** [a - b] on two-dimensional arrays *)
Definition subtract (a b : ndarray S) : result (ndarray S) :=
  broadcast2 ssub a b.

(** [ones((n, 1))] *)
Definition ones_n1 (n : nat) : ndarray S :=
  mk_ndarray n 1 (repeat [sone] n).

End Arithmetic.

(** *** Shapes *)

Lemma map2_length {A B C} (f : A -> B -> C) l1 : forall l2,
  length (map2 f l1 l2) = Nat.min (length l1) (length l2).
Proof.
  induction l1 as [|x t IH]; intros [|y t2]; simpl; auto.
Qed.

Lemma transpose_rows_length {T} c (rs : list (list T)) :
  Forall (fun r => length r = c) rs ->
  length (transpose_rows c rs) = c.
Proof.
  induction 1 as [|r rs Hr Hrs IH]; simpl.
  - apply repeat_length.
  - rewrite map2_length, IH, Hr. apply Nat.min_id.
Qed.

Lemma transpose_rows_row_length {T} c (rs : list (list T)) :
  Forall (fun r => length r = c) rs ->
  Forall (fun col => length col = length rs) (transpose_rows c rs).
Proof.
  induction 1 as [|r rs Hr Hrs IH]; simpl.
  - apply Forall_forall. intros x Hx. apply repeat_spec in Hx. now subst.
  - clear Hr Hrs. revert r.
    induction IH as [|col cols Hc Hcs IHc]; intros [|x r]; simpl;
      constructor; simpl; auto.
Qed.

Lemma transpose_wf {T} (a : ndarray T) : wf a -> wf (transpose a).
Proof.
  intros [Hn Hc]. split; simpl.
  - now apply transpose_rows_length.
  - rewrite <- Hn. now apply transpose_rows_row_length.
Qed.

Lemma map2_cons_transpose {T} (r : list T) : forall cols n,
  length r = length cols ->
  Forall (fun col => length col = n) cols ->
  transpose_rows (Datatypes.S n) (map2 cons r cols) =
  r :: transpose_rows n cols.
Proof.
  induction r as [|x r IH]; intros [|col cols] n Hlen Hall;
    try discriminate; simpl.
  - reflexivity.
  - inversion Hall as [|? ? Hcol Hcols]; subst.
    rewrite IH; [reflexivity| simpl in Hlen; lia | assumption].
Qed.

Lemma transpose_rows_nil {T} n :
  transpose_rows n (repeat (@nil T) 0) = repeat [] n.
Proof. reflexivity. Qed.

Lemma transpose_rows_repeat_nil {T} c :
  transpose_rows 0 (repeat (@nil T) c) = [].
Proof. destruct c; reflexivity. Qed.

(** Transposing twice gives the rows back. *)
Lemma transpose_rows_involutive {T} c (rs : list (list T)) :
  Forall (fun r => length r = c) rs ->
  transpose_rows (length rs) (transpose_rows c rs) = rs.
Proof.
  induction 1 as [|r rs Hr Hrs IH]; simpl.
  - apply transpose_rows_repeat_nil.
  - rewrite map2_cons_transpose.
    + now rewrite IH.
    + now rewrite transpose_rows_length.
    + now apply transpose_rows_row_length.
Qed.

Lemma transpose_involutive {T} (a : ndarray T) :
  wf a -> transpose (transpose a) = a.
Proof.
  intros [Hn Hc]. destruct a as [n c rs]. simpl in *.
  unfold transpose. simpl. f_equal.
  subst n. now apply transpose_rows_involutive.
Qed.

(** *** Column vectors, broadcasting and reductions *)

(** The (n, 1) array holding [c]. *)
Definition col_array {T} (c : list T) : ndarray T :=
  mk_ndarray (length c) 1 (map (fun x => [x]) c).

Lemma col_array_wf {T} (c : list T) : wf (col_array c).
Proof.
  split; simpl.
  - apply length_map.
  - apply Forall_map, Forall_forall. reflexivity.
Qed.

Lemma reshape_n1_col {T} (n : nat) (v : list T) :
  length v = n -> reshape_n1 n v = Ok (col_array v).
Proof.
  intros Hn. unfold reshape_n1, col_array.
  rewrite Hn, Nat.eqb_refl. reflexivity.
Qed.

Lemma transpose_rows_one {T} (rs : list (list T)) :
  Forall (fun r => length r = 1) rs ->
  transpose_rows 1 rs = [concat rs].
Proof.
  induction 1 as [|r rs Hr Hrs IH]; simpl; [reflexivity|].
  rewrite IH. destruct r as [|x [|y r]]; try discriminate. reflexivity.
Qed.

Lemma concat_singletons {T} (c : list T) :
  concat (map (fun x => [x]) c) = c.
Proof. induction c as [|x c IH]; simpl; congruence. Qed.

Lemma singletons_concat {T} (rs : list (list T)) :
  Forall (fun r => length r = 1) rs ->
  map (fun x => [x]) (concat rs) = rs.
Proof.
  induction 1 as [|r rs Hr Hrs IH]; simpl; [reflexivity|].
  destruct r as [|x [|y r]]; try discriminate. simpl. now rewrite IH.
Qed.

(** An array with one column is the column array of its entries. *)
Lemma one_column {T} (a : ndarray T) :
  wf a -> ncols a = 1 -> a = col_array (concat (rows a)).
Proof.
  intros [Hn Hc] H1. destruct a as [n c rs]. simpl in *. subst c.
  unfold col_array.
  assert (Hlen : length (concat rs) = n).
  { rewrite <- Hn. clear Hn.
    induction Hc as [|r rs Hr Hrs IH]; simpl; [reflexivity|].
    rewrite length_app, IH, Hr. reflexivity. }
  rewrite Hlen, singletons_concat by assumption. reflexivity.
Qed.

Lemma column_of_col_array {T} (c : list T) :
  column (col_array c) 0 = Ok c.
Proof.
  unfold column, col_array. simpl.
  rewrite transpose_rows_one.
  - simpl. now rewrite concat_singletons.
  - apply Forall_map, Forall_forall. reflexivity.
Qed.

Lemma map2_repeat_l {A B C} (f : A -> B -> C) (x : A) (l : list B) :
  map2 f (repeat x (length l)) l = map (f x) l.
Proof. induction l as [|y l IH]; simpl; congruence. Qed.

Lemma map2_map_l {A A' B C} (f : A' -> B -> C) (g : A -> A') l1 : forall l2,
  map2 f (map g l1) l2 = map2 (fun x y => f (g x) y) l1 l2.
Proof. induction l1 as [|x l1 IH]; intros [|y l2]; simpl; congruence. Qed.

Lemma map2_ext_in {A B C} (f g : A -> B -> C) l1 : forall l2,
  (forall x y, In x l1 -> In y l2 -> f x y = g x y) ->
  map2 f l1 l2 = map2 g l1 l2.
Proof.
  induction l1 as [|x l1 IH]; intros [|y l2] Hfg; simpl; auto.
  f_equal; [apply Hfg; now left|].
  apply IH. intros; apply Hfg; now right.
Qed.

Lemma map_id_ext {A} (f : A -> A) (l : list A) :
  (forall x, In x l -> f x = x) -> map f l = l.
Proof.
  induction l as [|x l IH]; intros Hf; simpl; [reflexivity|].
  rewrite Hf by now left. f_equal. apply IH. intros; apply Hf; now right.
Qed.

Lemma broadcast_dim_refl n : broadcast_dim n n = Some n.
Proof. unfold broadcast_dim. now rewrite Nat.eqb_refl. Qed.

Lemma broadcast_dim_one_l n : broadcast_dim 1 n = Some n.
Proof.
  unfold broadcast_dim. destruct (Nat.eqb_spec 1 n); [now subst|reflexivity].
Qed.

Lemma stretch_same {X} n (l : list X) : stretch n n l = l.
Proof. unfold stretch. now rewrite Nat.eqb_refl. Qed.

Lemma stretch_one {X} n (x : X) : stretch 1 n [x] = repeat x n.
Proof.
  unfold stretch. destruct (Nat.eqb_spec 1 n); [now subst|reflexivity].
Qed.

(** Two arrays of one shape: the ufunc runs entry by entry. *)
Lemma broadcast2_same_shape {A B C} (f : A -> B -> C)
    (a : ndarray A) (b : ndarray B) :
  nrows a = nrows b -> ncols a = ncols b ->
  broadcast2 f a b =
  Ok (mk_ndarray (nrows a) (ncols a) (map2 (map2 f) (rows a) (rows b))).
Proof.
  intros Hr Hc. unfold broadcast2, broadcast_to.
  rewrite <- Hr, <- Hc, !broadcast_dim_refl. simpl.
  rewrite !stretch_same.
  rewrite !map_id_ext by (intros; apply stretch_same).
  reflexivity.
Qed.

Lemma transpose_rows_map2 {A B C} (f : A -> B -> C) (L : nat)
    (c : list A) : forall (rs : list (list B)),
  length c = length rs ->
  transpose_rows L (map2 (fun x b => map (f x) b) c rs) =
  map (fun row => map2 f c row) (transpose_rows L rs).
Proof.
  induction c as [|x c IH]; intros [|b rs] Hlen; try discriminate; simpl.
  - induction L as [|L IHL]; simpl; congruence.
  - rewrite IH by (simpl in Hlen; lia).
    generalize (transpose_rows L rs) as cols. clear Hlen IH.
    induction b as [|y b IHb]; intros [|col cols]; simpl; auto.
    now rewrite IHb.
Qed.

Section Reductions.
Context {S : Type} {scalar : Scalar S}.

(** A column raised to the transposed integer matrix, then multiplied down
    the columns: one product per row of the integer matrix. *)
Lemma prod_power_column (c : list S) (pw : list (list nat)) :
  Forall (fun row => length row = length c) pw ->
  rbind (power (col_array c)
               (transpose (mk_ndarray (length pw) (length c) pw)))
        (fun a => Ok (prod_axis0 a)) =
  Ok (map (fun row => prod_list (map2 spower c row)) pw).
Proof.
  intros Hpw. unfold power, broadcast2, transpose, col_array. simpl.
  rewrite broadcast_dim_refl, broadcast_dim_one_l. simpl.
  unfold prod_axis0, broadcast_to. simpl.
  rewrite !stretch_same, map_map.
  rewrite (map_ext _ (fun x => repeat x (length pw)))
    by (intros; apply stretch_one).
  rewrite (map_id_ext (stretch (length pw) (length pw)))
    by (intros; apply stretch_same).
  pose proof (transpose_rows_length _ _ Hpw) as HB.
  pose proof (transpose_rows_row_length _ _ Hpw) as HBr.
  rewrite map2_map_l.
  rewrite (map2_ext_in _ (fun x b => map (spower x) b)).
  - rewrite transpose_rows_map2 by (now rewrite HB).
    rewrite transpose_rows_involutive by assumption.
    now rewrite map_map.
  - intros x b _ Hb. rewrite Forall_forall in HBr.
    rewrite <- (HBr b Hb). apply map2_repeat_l.
Qed.

(** A matrix times a column. *)
Lemma dot_column (a : ndarray S) (c : list S) :
  length (rows a) = nrows a -> ncols a = length c ->
  dot a (col_array c) =
  Ok (col_array (map (fun r => sum_list (map2 smul r c)) (rows a))).
Proof.
  intros Hn Hc. unfold dot, col_array. simpl. rewrite <- Hn.
  rewrite Hc, Nat.eqb_refl.
  rewrite transpose_rows_one
    by (apply Forall_map, Forall_forall; reflexivity).
  rewrite concat_singletons, !length_map, map_map. simpl.
  reflexivity.
Qed.

End Reductions.

End Numpy.

(** ** torch: the generator, modules and [nn.Sequential] *)

Module Torch.
Import Numpy.

(** What the code draws from torch's default generator.  The streams
    themselves are torch's; the code only fixes where they start. *)
Class TorchRandom (S : Type) : Type := {
  Generator : Type;
  manual_seed : nat -> Generator;
  (** [nn.Linear.reset_parameters]: a weight of shape (out, in), a bias *)
  linear_reset_parameters :
    Generator -> nat -> nat -> (ndarray S * list S) * Generator;
  (** [nn.Dropout] in training mode *)
  dropout_train : Generator -> S -> ndarray S -> ndarray S * Generator;
  (** [nn.init.xavier_normal_] *)
  xavier_normal_ : Generator -> ndarray S -> ndarray S * Generator;
  (** [torch.randperm] *)
  randperm : Generator -> nat -> list nat * Generator
}.

Inductive dtype : Type := Float32 | Float64.

Definition dtype_eqb (a b : dtype) : bool :=
  match a, b with
  | Float32, Float32 | Float64, Float64 => true
  | _, _ => false
  end.

(** [str(n)] *)
Definition str (n : nat) : string := NilZero.string_of_uint (Nat.to_uint n).

Section Modules.
Context {S : Type} {scalar : Scalar S} {random : TorchRandom S}.

Inductive Layer : Type :=
| Linear (in_features out_features : nat)
         (weight : ndarray S) (bias : list S)
| ReLU
| Dropout (p : S).

Record Sequential : Type := mk_Sequential {
  modules : list (string * Layer);
  training : bool;
  param_dtype : dtype
}.

Record Tensor : Type := mk_Tensor {
  tensor_dtype : dtype;
  tensor_data : ndarray S
}.

(** [from_numpy(a)] of a float64 array, and [t.detach().numpy()] *)
Definition from_numpy (a : ndarray S) : Tensor := mk_Tensor Float64 a.
Definition numpy (t : Tensor) : ndarray S := tensor_data t.

(** [nn.Linear(in_features, out_features)] *)
Definition nn_Linear (g : Generator) (in_features out_features : nat)
  : Layer * Generator :=
  let r := linear_reset_parameters g in_features out_features in
  (Linear in_features out_features (fst (fst r)) (snd (fst r)), snd r).

(** [nn.Dropout(p)]: a ValueError for [p < 0] or [p > 1], and for nothing
    else (a NaN is let through) *)
Definition nn_Dropout (p : S) : result Layer :=
  if (sleb p szero && negb (sleb szero p))
     || (sleb sone p && negb (sleb p sone))
  then Err ValueError
  else Ok (Dropout p).

(** [nn.Sequential(m0, m1, ...)]: the modules are named "0", "1", ...;
    a new module is in training mode and holds float32 parameters. *)
Definition nn_Sequential (ms : list Layer) : Sequential :=
  mk_Sequential (combine (map str (seq 0 (length ms))) ms) true Float32.

Fixpoint set_module (name : string) (m : Layer)
    (ms : list (string * Layer)) : list (string * Layer) :=
  match ms with
  | [] => [(name, m)]
  | (k, v) :: t =>
      if String.eqb k name then (k, m) :: t
      else (k, v) :: set_module name m t
  end.

Definition add_module (name : string) (m : Layer) (s : Sequential)
  : Sequential :=
  mk_Sequential (set_module name m (modules s))
                (training s) (param_dtype s).

Definition double (s : Sequential) : Sequential :=
  mk_Sequential (modules s) (training s) Float64.

Definition eval (s : Sequential) : Sequential :=
  mk_Sequential (modules s) false (param_dtype s).

Definition train (s : Sequential) : Sequential :=
  mk_Sequential (modules s) true (param_dtype s).

(** [F.linear(x, weight, bias)]: each row of [x] against each row of
    the weight, plus the bias. *)
Definition linear_rows (w : ndarray S) (b : list S) (x : ndarray S)
  : list (list S) :=
  map (fun r =>
         map2 sadd
           (map (fun wrow => sum_list (map2 smul r wrow)) (rows w)) b)
      (rows x).

Definition apply_layer (mode : bool) (dt : dtype) (g : Generator)
    (m : Layer) (x : Tensor) : result Tensor * Generator :=
  match m with
  | Linear i o w b =>
      if dtype_eqb dt (tensor_dtype x) && (ncols (tensor_data x) =? i)
      then (Ok (mk_Tensor dt
                  (mk_ndarray (nrows (tensor_data x)) o
                              (linear_rows w b (tensor_data x)))), g)
      else (Err RuntimeError, g)
  | ReLU =>
      (Ok (mk_Tensor (tensor_dtype x)
             (mk_ndarray (nrows (tensor_data x)) (ncols (tensor_data x))
                         (map (map srelu) (rows (tensor_data x))))), g)
  | Dropout p =>
      if mode
      then let r := dropout_train g p (tensor_data x) in
           (Ok (mk_Tensor (tensor_dtype x) (fst r)), snd r)
      else (Ok x, g)
  end.

Fixpoint apply_layers (mode : bool) (dt : dtype) (g : Generator)
    (ms : list (string * Layer)) (x : Tensor)
  : result Tensor * Generator :=
  match ms with
  | [] => (Ok x, g)
  | (_, m) :: t =>
      let r := apply_layer mode dt g m x in
      match fst r with
      | Ok y => apply_layers mode dt (snd r) t y
      | Err e => (Err e, snd r)
      end
  end.

(** [model(x)] *)
Definition call (s : Sequential) (g : Generator) (x : Tensor)
  : result Tensor * Generator :=
  apply_layers (training s) (param_dtype s) g (modules s) x.

End Modules.

Arguments Layer S : clear implicits.
Arguments Sequential S : clear implicits.
Arguments Tensor S : clear implicits.

(** *** Architecture and evaluation-mode calls *)

Section ModuleFacts.
Context {S : Type} {scalar : Scalar S} {random : TorchRandom S}.

(** A module without its parameters. *)
Inductive LayerKind : Type :=
| KLinear (in_features out_features : nat)
| KReLU
| KDropout (p : S).

Definition kind_of (m : Layer S) : LayerKind :=
  match m with
  | Linear i o _ _ => KLinear i o
  | ReLU => KReLU
  | Dropout p => KDropout p
  end.

Definition architecture (s : Sequential S) : list (string * LayerKind) :=
  map (fun kv => (fst kv, kind_of (snd kv))) (modules s).

(** The width that leaves the last module when a [d]-wide input fits every
    linear layer on its way. *)
Fixpoint dims_chain (d : nat) (ks : list (string * LayerKind)) : option nat :=
  match ks with
  | [] => Some d
  | (_, KLinear i o) :: t => if d =? i then dims_chain o t else None
  | (_, KReLU) :: t => dims_chain d t
  | (_, KDropout _) :: t => dims_chain d t
  end.

Lemma apply_layers_eval (dt : dtype) (g : Generator) :
  forall (ms : list (string * Layer S)) (x : Tensor S) (d d' : nat),
  dims_chain d (map (fun kv => (fst kv, kind_of (snd kv))) ms) = Some d' ->
  ncols (tensor_data x) = d ->
  tensor_dtype x = dt ->
  exists y,
    apply_layers false dt g ms x = (Ok y, g) /\
    ncols (tensor_data y) = d' /\
    nrows (tensor_data y) = nrows (tensor_data x) /\
    tensor_dtype y = dt.
Proof.
  induction ms as [|[name m] ms IH]; intros x d d' Hchain Hd Hdt; simpl in *.
  - inversion Hchain; subst. eauto.
  - destruct m as [i o w b| |p]; simpl in *.
    + destruct (Nat.eqb_spec d i) as [->|]; [|discriminate].
      rewrite Hdt, Hd, Nat.eqb_refl.
      replace (dtype_eqb dt dt) with true by (now destruct dt).
      simpl.
      edestruct IH as (y & Hy & Hc & Hr & Ht); [exact Hchain| | |].
      3: { exists y. split; [exact Hy|]. simpl in Hr. auto. }
      all: reflexivity.
    + edestruct IH as (y & Hy & Hc & Hr & Ht); [exact Hchain| | |].
      3: { exists y. split; [exact Hy|]. simpl in Hr. auto. }
      all: simpl; auto.
    + edestruct IH as (y & Hy & Hc & Hr & Ht); [exact Hchain| | |].
      3: { exists y. split; [exact Hy|]. auto. }
      all: auto.
Qed.

(** In evaluation mode a call draws nothing from the generator, and it
    succeeds as soon as the widths fit. *)
Lemma call_eval (s : Sequential S) (g : Generator) (x : Tensor S) (d' : nat) :
  training s = false ->
  dims_chain (ncols (tensor_data x)) (architecture s) = Some d' ->
  tensor_dtype x = param_dtype s ->
  exists y, call s g x = (Ok y, g) /\
            ncols (tensor_data y) = d' /\
            nrows (tensor_data y) = nrows (tensor_data x).
Proof.
  intros Hmode Hchain Hdt. unfold call. rewrite Hmode.
  destruct (apply_layers_eval _ g (modules s) x _ _ Hchain eq_refl Hdt)
    as (y & Hy & Hc & Hr & _).
  eauto.
Qed.

Lemma set_module_fresh (name : string) (m : Layer S) :
  forall ms : list (string * Layer S),
  (forall kv, In kv ms -> fst kv <> name) ->
  set_module name m ms = ms ++ [(name, m)].
Proof.
  induction ms as [|[k v] ms IH]; intros Hfresh; simpl; [reflexivity|].
  destruct (String.eqb_spec k name) as [->|Hne].
  - exfalso. apply (Hfresh (name, v)); [now left|reflexivity].
  - f_equal. apply IH. intros kv Hkv. apply Hfresh. now right.
Qed.

End ModuleFacts.

Lemma to_uint_nonnil (n : nat) : Nat.to_uint n <> Decimal.Nil.
Proof.
  rewrite <- (DecimalNat.Unsigned.of_to n) at 1.
  rewrite DecimalNat.Unsigned.to_of. apply DecimalFacts.unorm_nonnil.
Qed.

(** [str] gives different numbers different names. *)
Lemma str_inj (a b : nat) : str a = str b -> a = b.
Proof.
  unfold str. intros E.
  apply (f_equal NilZero.uint_of_string) in E.
  rewrite !NilZero.usu in E by apply to_uint_nonnil.
  inversion E. now apply DecimalNat.Unsigned.to_uint_inj.
Qed.

End Torch.

(** ** numpy.linalg *)

(** [linalg.eig(a)] of a square matrix: the eigenvalues and the matrix of
    eigenvectors, as complex numbers (real part, imaginary part).  The
    decomposition is LAPACK's. *)
Class Linalg (S : Type) : Type := {
  eig : Numpy.ndarray S -> list (S * S) * Numpy.ndarray (S * S);
  (** an N x N matrix has N eigenvalues and an N x N array of eigenvectors *)
  eig_shape : forall a,
    Numpy.nrows a = Numpy.ncols a ->
    length (fst (eig a)) = Numpy.nrows a /\
    Numpy.wf (snd (eig a)) /\
    Numpy.nrows (snd (eig a)) = Numpy.nrows a /\
    Numpy.ncols (snd (eig a)) = Numpy.nrows a
}.

(** ** class KoopmanEigenfunctions *)

Module Koopman.
Import Numpy Torch.

(** An exception instance, as [Warning("...")] constructs one. *)
Inductive PyException : Type :=
| Warning (msg : string).

Section KoopmanEigenfunctions.
Context {S : Type} {scalar : Scalar S} {explog : ExpLog S}
        {random : TorchRandom S} {linalg : Linalg S}.

(** The lambdas the object stores, each with what it captured. *)
Record EigfuncLin : Type := mk_EigfuncLin {
  closure_w : ndarray S;
  closure_powers : ndarray nat
}.

Record ScaleFunc : Type := mk_ScaleFunc {
  closure_scale_factor : ndarray S
}.

(** [lambda q, t: self.eigfunc_lin(self.scale_func(self.diffeomorphism(q, t)))]
    captures [self] only. *)
Inductive BasisFunc : Type := BasisLambda.

Record KoopmanEigenfunctions : Type := mk_KoopmanEigenfunctions {
  self_n : nat;
  self_max_power : nat;
  self_A_cl : ndarray S;
  (** [A_cl] is a torch tensor once [build_diffeomorphism_model] ran *)
  self_A_cl_is_tensor : bool;
  self_BK : ndarray S;
  self_Nlift : option nat;
  self_Lambda : option (list S);
  self_basis : option BasisFunc;
  self_eigfunc_lin : option EigfuncLin;
  self_scale_func : option ScaleFunc;
  self_diffeomorphism_model : option (Sequential S)
}.

(** [__init__(self, n, max_power, A_cl, BK)] *)
Definition init (n max_power : nat) (A_cl BK : ndarray S)
  : KoopmanEigenfunctions :=
  mk_KoopmanEigenfunctions n max_power A_cl false BK
    None None None None None None.

(** What a method can read and change: the object, torch's default
    generator, whether CUDA is there, and the warnings shown so far.
    [warnings_shown] holds the messages the code of the class passes to
    [warnings.warn]; the floating-point RuntimeWarnings numpy itself may
    show (a division by zero, an overflow) are no part of it. *)
Record World : Type := mk_World {
  self : KoopmanEigenfunctions;
  default_generator : Generator;
  cuda_is_available : bool;
  warnings_shown : list string
}.

(** *** Methods run in a state monad with exceptions *)

Definition M (A : Type) : Type := World -> result A * World.

Definition ret {A} (a : A) : M A := fun s => (Ok a, s).

Definition bind {A B} (c : M A) (k : A -> M B) : M B :=
  fun s =>
    let r := c s in
    match fst r with
    | Ok a => k a (snd r)
    | Err e => (Err e, snd r)
    end.

Definition raise {A} (e : PyError) : M A := fun s => (Err e, s).

Definition lift_result {A} (c : result A) : M A := fun s => (c, s).

Definition get_self : M KoopmanEigenfunctions :=
  fun s => (Ok (self s), s).

Definition put_self (k : KoopmanEigenfunctions) : M unit :=
  fun s => (Ok tt,
            mk_World k (default_generator s) (cuda_is_available s)
                     (warnings_shown s)).

Definition modify_self (f : KoopmanEigenfunctions -> KoopmanEigenfunctions)
  : M unit :=
  fun s => (Ok tt,
            mk_World (f (self s)) (default_generator s)
                     (cuda_is_available s) (warnings_shown s)).

(** Running a computation that draws from the default generator. *)
Definition with_generator {A} (f : Generator -> A * Generator) : M A :=
  fun s =>
    let r := f (default_generator s) in
    (Ok (fst r),
     mk_World (self s) (snd r) (cuda_is_available s) (warnings_shown s)).

Definition with_generator_result {A}
    (f : Generator -> result A * Generator) : M A :=
  fun s =>
    let r := f (default_generator s) in
    (fst r,
     mk_World (self s) (snd r) (cuda_is_available s) (warnings_shown s)).

(** [warnings.warn(msg)], the one way a message gets into
    [warnings_shown].  No method of the class calls it: line 60 builds a
    [Warning] object and drops it. *)
Definition warn (msg : string) : M unit :=
  fun s => (Ok tt,
            mk_World (self s) (default_generator s) (cuda_is_available s)
                     (warnings_shown s ++ [msg])).

Notation "x <- c ;; k" := (bind c (fun x => k))
  (at level 61, c at next level, right associativity).
Notation "c ;;; k" := (bind c (fun _ => k))
  (at level 61, right associativity).

(** Attribute assignments [self.x = v]. *)
Definition set_A_cl_tensor (k : KoopmanEigenfunctions) :=
  mk_KoopmanEigenfunctions (self_n k) (self_max_power k) (self_A_cl k)
    true (self_BK k) (self_Nlift k) (self_Lambda k) (self_basis k)
    (self_eigfunc_lin k) (self_scale_func k)
    (self_diffeomorphism_model k).

Definition set_Nlift (v : nat) (k : KoopmanEigenfunctions) :=
  mk_KoopmanEigenfunctions (self_n k) (self_max_power k) (self_A_cl k)
    (self_A_cl_is_tensor k) (self_BK k) (Some v) (self_Lambda k)
    (self_basis k) (self_eigfunc_lin k) (self_scale_func k)
    (self_diffeomorphism_model k).

Definition set_Lambda (v : list S) (k : KoopmanEigenfunctions) :=
  mk_KoopmanEigenfunctions (self_n k) (self_max_power k) (self_A_cl k)
    (self_A_cl_is_tensor k) (self_BK k) (self_Nlift k) (Some v)
    (self_basis k) (self_eigfunc_lin k) (self_scale_func k)
    (self_diffeomorphism_model k).

Definition set_basis (v : BasisFunc) (k : KoopmanEigenfunctions) :=
  mk_KoopmanEigenfunctions (self_n k) (self_max_power k) (self_A_cl k)
    (self_A_cl_is_tensor k) (self_BK k) (self_Nlift k) (self_Lambda k)
    (Some v) (self_eigfunc_lin k) (self_scale_func k)
    (self_diffeomorphism_model k).

Definition set_eigfunc_lin (v : EigfuncLin) (k : KoopmanEigenfunctions) :=
  mk_KoopmanEigenfunctions (self_n k) (self_max_power k) (self_A_cl k)
    (self_A_cl_is_tensor k) (self_BK k) (self_Nlift k) (self_Lambda k)
    (self_basis k) (Some v) (self_scale_func k)
    (self_diffeomorphism_model k).

Definition set_scale_func (v : ScaleFunc) (k : KoopmanEigenfunctions) :=
  mk_KoopmanEigenfunctions (self_n k) (self_max_power k) (self_A_cl k)
    (self_A_cl_is_tensor k) (self_BK k) (self_Nlift k) (self_Lambda k)
    (self_basis k) (self_eigfunc_lin k) (Some v)
    (self_diffeomorphism_model k).

Definition set_diffeomorphism_model (v : Sequential S)
    (k : KoopmanEigenfunctions) :=
  mk_KoopmanEigenfunctions (self_n k) (self_max_power k) (self_A_cl k)
    (self_A_cl_is_tensor k) (self_BK k) (self_Nlift k) (self_Lambda k)
    (self_basis k) (self_eigfunc_lin k) (self_scale_func k) (Some v).

(** *** construct_linear_eigfuncs *)

(** [iscomplex(z)]: the imaginary part is not zero *)
Definition iscomplex (z : S * S) : bool := snonzero (snd z).

(** [any(iscomplex(a))] on a vector and on a matrix *)
Definition any_iscomplex (l : list (S * S)) : bool := existsb iscomplex l.
Definition any_iscomplex2 (a : ndarray (S * S)) : bool :=
  existsb any_iscomplex (rows a).

(** [real(a)] *)
Definition real (l : list (S * S)) : list S := map fst l.
Definition real2 (a : ndarray (S * S)) : ndarray S :=
  mk_ndarray (nrows a) (ncols a) (map real (rows a)).

(** An array [linalg.eig] returned with no imaginary part anywhere is an
    array of real numbers already. *)
Definition as_real (l : list (S * S)) : list S := map fst l.
Definition as_real2 (a : ndarray (S * S)) : ndarray S :=
  mk_ndarray (nrows a) (ncols a) (map as_real (rows a)).

(** The integer matrix [powers], of shape (number of rows, n). *)
Definition powers_array (n max_power : nat) : ndarray nat :=
  let powers := Powers.powers n max_power in
  mk_ndarray (length powers) n powers.

(** [linfunc = lambda q: dot(transpose(w), q)] *)
Definition linfunc (w : ndarray S) (q : ndarray S) : result (ndarray S) :=
  dot (transpose w) q.

(** [eigfunc_lin = lambda q: prod(power(linfunc(q), transpose(powers)), axis=0)] *)
Definition eigfunc_lin (f : EigfuncLin) (q : ndarray S)
  : result (list S) :=
  rbind (linfunc (closure_w f) q) (fun lq =>
  rbind (power lq (transpose (closure_powers f))) (fun pw =>
  Ok (prod_axis0 pw))).

(** [log(prod(power(exp(lambd).reshape((n,1)), transpose(powers)), axis=0))] *)
Definition eigenvalues_of_powers (n : nat) (lambd : list S)
    (powers : ndarray nat) : result (list S) :=
  rbind (reshape_n1 n (map sexp lambd)) (fun e =>
  rbind (power e (transpose powers)) (fun pw =>
  Ok (map slog (prod_axis0 pw)))).

Definition construct_linear_eigfuncs : M EigfuncLin :=
  k <- get_self ;;
  let A := self_A_cl k in
  if negb (nrows A =? ncols A) then raise LinAlgError else
  let lambd := fst (eig A) in
  let v := snd (eig A) in
  let w := snd (eig (transpose A)) in
  let truncated :=
    if any_iscomplex lambd || any_iscomplex2 w
    then
      let _ := Warning "Complex eigenvalues and/or eigenvalues. Complex part supressed." in
      (real lambd, real2 w)
    else (as_real lambd, as_real2 w) in
  let lambd := fst truncated in
  let w := snd truncated in
  let powers := powers_array (self_n k) (self_max_power k) in
  let f := mk_EigfuncLin w powers in
  shape <- lift_result (eigfunc_lin f (ones_n1 (self_n k))) ;;
  modify_self (set_Nlift (length shape)) ;;;
  Lambda <- lift_result (eigenvalues_of_powers (self_n k) lambd powers) ;;
  modify_self (set_Lambda Lambda) ;;;
  ret f.

(** *** construct_scaling_function *)

(** [(ub - lb).reshape((n, 1))]; [None - None] is a TypeError. *)
Definition construct_scaling_function (ub lb : option (list S))
  : M ScaleFunc :=
  k <- get_self ;;
  match ub, lb with
  | Some ub, Some lb =>
      d <- lift_result
             (subtract (mk_ndarray 1 (length ub) [ub])
                       (mk_ndarray 1 (length lb) [lb])) ;;
      scale_factor <- lift_result (reshape_n1 (self_n k) (concat (rows d))) ;;
      ret (mk_ScaleFunc scale_factor)
  | _, _ => raise TypeError
  end.

(** [scale_func = lambda q: divide(q, scale_factor)] *)
Definition scale_func (f : ScaleFunc) (q : ndarray S)
  : result (ndarray S) :=
  divide q (closure_scale_factor f).

(** *** diffeomorphism *)

Definition diffeomorphism (q q_d : ndarray S) : M (ndarray S) :=
  let q := transpose q in
  let q_d := transpose q_d in
  k <- get_self ;;
  match self_diffeomorphism_model k with
  | None => raise AttributeError
  | Some model =>
      modify_self (set_diffeomorphism_model (eval model)) ;;;
      input <- lift_result (concatenate_axis1 [q; q_d]) ;;
      k <- get_self ;;
      match self_diffeomorphism_model k with
      | None => raise TypeError
      | Some model =>
          out <- with_generator_result
                   (fun g => call model g (from_numpy input)) ;;
          let diff_pred := numpy out in
          ret (transpose q)
      end
  end.

(** *** build_diffeomorphism_model *)

(** The body of [for ii in range(n_hidden_layers)]; [add_module] changes
    the network the object holds in place, so each module is on the object
    as soon as it is added. *)
Definition add_hidden_block (n_hidden_layers H : nat) (dropout_prob : S)
    (ii : nat) (model : Sequential S) : M (Sequential S) :=
  dense <- with_generator (fun g => nn_Linear g H H) ;;
  let model := add_module ("dense_" ++ str (ii + 1)) dense model in
  modify_self (set_diffeomorphism_model model) ;;;
  let model := add_module ("relu_" ++ str (ii + 1)) ReLU model in
  modify_self (set_diffeomorphism_model model) ;;;
  if ii <? n_hidden_layers - 1
  then
    drop <- lift_result (nn_Dropout dropout_prob) ;;
    let model := add_module ("dropout_" ++ str (ii + 1)) drop model in
    modify_self (set_diffeomorphism_model model) ;;;
    ret model
  else ret model.

Fixpoint for_each {A} (l : list nat) (body : nat -> A -> M A) (a : A)
  : M A :=
  match l with
  | [] => ret a
  | ii :: t => a' <- body ii a ;; for_each t body a'
  end.

Definition build_diffeomorphism_model
    (n_hidden_layers layer_width batch_size : nat) (dropout_prob : S)
  : M unit :=
  k <- get_self ;;
  let N := batch_size in
  let d_h_in := 2 * self_n k in
  let H := layer_width in
  let d_h_out := self_n k in
  first <- with_generator (fun g => nn_Linear g d_h_in H) ;;
  let model := nn_Sequential [first; ReLU] in
  modify_self (set_diffeomorphism_model model) ;;;
  model <- for_each (seq 0 n_hidden_layers)
             (add_hidden_block n_hidden_layers H dropout_prob) model ;;
  output <- with_generator (fun g => nn_Linear g H d_h_out) ;;
  let model := add_module "output" output model in
  modify_self (set_diffeomorphism_model model) ;;;
  modify_self (set_diffeomorphism_model (double model)) ;;;
  k <- get_self ;;
  if self_A_cl_is_tensor k then raise TypeError
  else modify_self set_A_cl_tensor.

(** *** construct_basis, the composed basis and lift *)

Definition construct_basis (ub lb : option (list S)) : M unit :=
  f <- construct_linear_eigfuncs ;;
  modify_self (set_eigfunc_lin f) ;;;
  s <- construct_scaling_function ub lb ;;
  modify_self (set_scale_func s) ;;;
  modify_self (set_basis BasisLambda).

(** A call of the stored lambda [self.basis(q, t)]. *)
Definition basis (q t : ndarray S) : M (list S) :=
  k <- get_self ;;
  match self_basis k with
  | None => raise TypeError
  | Some BasisLambda =>
      d <- diffeomorphism q t ;;
      k <- get_self ;;
      match self_scale_func k, self_eigfunc_lin k with
      | Some s, Some f =>
          scaled <- lift_result (scale_func s d) ;;
          lift_result (eigfunc_lin f scaled)
      | _, _ => raise TypeError
      end
  end.

(** One element of the list comprehension of [lift]. *)
Definition lift_sample (q q_d : ndarray S) (ii : nat) : M (list S) :=
  k <- get_self ;;
  qi <- lift_result (rbind (column q ii) (reshape_n1 (self_n k))) ;;
  qdi <- lift_result (rbind (column q_d ii) (reshape_n1 (self_n k))) ;;
  basis qi qdi.

Fixpoint comprehension {A} (l : list nat) (f : nat -> M A) : M (list A) :=
  match l with
  | [] => ret []
  | ii :: t => a <- f ii ;; r <- comprehension t f ;; ret (a :: r)
  end.

Definition lift (q q_d : ndarray S) : M (ndarray S) :=
  l <- comprehension (seq 0 (ncols q)) (lift_sample q q_d) ;;
  ret (array_of_rows l).

End KoopmanEigenfunctions.

(** *** Running methods *)

Section MethodFacts.
Context {S : Type} {scalar : Scalar S} {random : TorchRandom S}.

Lemma bind_ok {A B} (c : M A) (k : A -> M B) s a s' :
  c s = (Ok a, s') -> bind c k s = k a s'.
Proof. intros E. unfold bind. now rewrite E. Qed.

Lemma bind_err {A B} (c : M A) (k : A -> M B) s e s' :
  c s = (Err e, s') -> bind c k s = (Err e, s').
Proof. intros E. unfold bind. now rewrite E. Qed.

(** A loop that keeps an invariant runs to its end. *)
Lemma for_each_invariant {A} (I : nat -> A -> World -> Prop)
    (body : nat -> A -> M A) :
  forall k a x s,
  I a x s ->
  (forall j x s, a <= j < a + k -> I j x s ->
     exists x' s', body j x s = (Ok x', s') /\ I (j + 1) x' s') ->
  exists x' s', for_each (seq a k) body x s = (Ok x', s') /\ I (a + k) x' s'.
Proof.
  induction k as [|k IH]; intros a x s HI Hstep; simpl.
  - exists x, s. rewrite Nat.add_0_r. auto.
  - destruct (Hstep a x s) as (x1 & s1 & E1 & HI1); [lia|exact HI|].
    rewrite (bind_ok _ _ _ _ _ E1).
    destruct (IH (Datatypes.S a) x1 s1) as (x' & s' & E & HI').
    + now rewrite Nat.add_1_r in HI1.
    + intros j y t Hj. apply Hstep. lia.
    + exists x', s'. split; [exact E|].
      now replace (a + Datatypes.S k) with (Datatypes.S a + k) by lia.
Qed.

(** *** The architecture build_diffeomorphism_model gives *)

Definition hidden_block (n_hidden_layers H : nat) (dropout_prob : S)
    (ii : nat) : list (string * LayerKind) :=
  [(("dense_" ++ str (ii + 1))%string, KLinear H H);
   (("relu_" ++ str (ii + 1))%string, KReLU)]
  ++ (if ii <? n_hidden_layers - 1
      then [(("dropout_" ++ str (ii + 1))%string, KDropout dropout_prob)]
      else []).

Definition built_architecture (n n_hidden_layers H : nat) (dropout_prob : S)
  : list (string * LayerKind) :=
  [("0"%string, KLinear (2 * n) H); ("1"%string, KReLU)]
  ++ flat_map (hidden_block n_hidden_layers H dropout_prob)
              (seq 0 n_hidden_layers)
  ++ [("output"%string, KLinear H n)].

(** The probability [nn.Dropout] accepts. *)
Definition dropout_ok (p : S) : Prop := sleb szero p && sleb p sone = true.

(** Names the loop has used after [j] rounds. *)
Definition name_below (j : nat) (name : string) : Prop :=
  name = "0"%string \/ name = "1"%string \/
  exists i, i <= j /\
    (name = ("dense_" ++ str i)%string \/ name = ("relu_" ++ str i)%string \/
     name = ("dropout_" ++ str i)%string).

Lemma name_below_mono j j' name :
  j <= j' -> name_below j name -> name_below j' name.
Proof.
  intros Hj [H|[H|(i & Hi & H)]]; unfold name_below; auto.
  right; right. exists i. split; [lia|exact H].
Qed.

Ltac name_clash :=
  match goal with
  | H : _ = _ |- _ => simpl in H; solve [inversion H]
  end.

Lemma dense_fresh j name :
  name_below j name -> name <> ("dense_" ++ str (j + 1))%string.
Proof.
  intros [->|[->|(i & Hi & [->|[->| ->]])]] E; try name_clash.
  simpl in E. inversion E as [E']. apply str_inj in E'. lia.
Qed.

Lemma relu_fresh j name :
  name_below j name -> name <> ("relu_" ++ str (j + 1))%string.
Proof.
  intros [->|[->|(i & Hi & [->|[->| ->]])]] E; try name_clash.
  simpl in E. inversion E as [E']. apply str_inj in E'. lia.
Qed.

Lemma dropout_fresh j name :
  name_below j name -> name <> ("dropout_" ++ str (j + 1))%string.
Proof.
  intros [->|[->|(i & Hi & [->|[->| ->]])]] E; try name_clash.
  simpl in E. inversion E as [E']. apply str_inj in E'. lia.
Qed.

Lemma output_fresh j name : name_below j name -> name <> "output"%string.
Proof.
  intros [->|[->|(i & Hi & [->|[->| ->]])]] E; name_clash.
Qed.

Lemma architecture_add_module (name : string) (l : Layer S)
    (m : Sequential S) :
  (forall nm, In nm (map fst (architecture m)) -> nm <> name) ->
  architecture (add_module name l m) = architecture m ++ [(name, kind_of l)].
Proof.
  intros Hfresh. unfold architecture, add_module. simpl.
  rewrite set_module_fresh.
  - now rewrite map_app.
  - intros kv Hkv. apply Hfresh. unfold architecture.
    rewrite map_map. simpl. now apply (in_map fst).
Qed.

Lemma hidden_blocks_snoc nh H p j :
  flat_map (hidden_block nh H p) (seq 0 (j + 1)) =
  flat_map (hidden_block nh H p) (seq 0 j) ++ hidden_block nh H p j.
Proof.
  rewrite seq_app, flat_map_app. simpl. now rewrite app_nil_r.
Qed.

Lemma hidden_blocks_names nh H p j :
  Forall (name_below j)
         (map fst (flat_map (hidden_block nh H p) (seq 0 j))).
Proof.
  induction j as [|j IH]; [constructor|].
  replace (Datatypes.S j) with (j + 1) by lia.
  rewrite hidden_blocks_snoc, map_app. apply Forall_app. split.
  - eapply Forall_impl; [|exact IH].
    intros nm. apply name_below_mono. lia.
  - unfold hidden_block. rewrite map_app. apply Forall_app. split.
    + simpl. constructor; [|constructor; [|constructor]];
        right; right; exists (j + 1); (split; [lia|auto]).
    + destruct (j <? nh - 1); simpl; [|constructor].
      constructor; [|constructor].
      right; right; exists (j + 1). split; [lia|auto].
Qed.

Lemma hidden_blocks_chain nh H p n : forall k a,
  dims_chain H (flat_map (hidden_block nh H p) (seq a k)
                ++ [("output"%string, KLinear H n)]) = Some n.
Proof.
  induction k as [|k IH]; intros a; simpl.
  - now rewrite Nat.eqb_refl.
  - rewrite Nat.eqb_refl. destruct (a <? nh - 1); simpl; apply IH.
Qed.

(** The widths of the built network fit from 2n down to n. *)
Lemma built_architecture_chain n nh H p :
  dims_chain (2 * n) (built_architecture n nh H p) = Some n.
Proof.
  unfold built_architecture.
  cbn [app dims_chain]. rewrite Nat.eqb_refl.
  apply hidden_blocks_chain.
Qed.

Lemma built_prefix_names n nh H p j :
  Forall (name_below j)
    (map fst ([("0"%string, KLinear (2 * n) H); ("1"%string, KReLU)]
              ++ flat_map (hidden_block nh H p) (seq 0 j))).
Proof.
  rewrite map_app. apply Forall_app. split.
  - simpl. constructor; [left; reflexivity|].
    constructor; [right; left; reflexivity|constructor].
  - apply hidden_blocks_names.
Qed.

(** One round of the loop appends its block. *)
Lemma add_hidden_block_spec (n nh H : nat) (p : S) (j : nat)
    (model : Sequential S) (s : World) :
  dropout_ok p ->
  architecture model =
    [("0"%string, KLinear (2 * n) H); ("1"%string, KReLU)]
    ++ flat_map (hidden_block nh H p) (seq 0 j) ->
  exists model' g,
    add_hidden_block nh H p j model s =
      (Ok model',
       mk_World (set_diffeomorphism_model model' (self s)) g
                (cuda_is_available s) (warnings_shown s)) /\
    architecture model' =
      [("0"%string, KLinear (2 * n) H); ("1"%string, KReLU)]
      ++ flat_map (hidden_block nh H p) (seq 0 (j + 1)) /\
    training model' = training model /\
    param_dtype model' = param_dtype model.
Proof.
  intros Hp Harch.
  pose proof (built_prefix_names n nh H p j) as Hnames.
  rewrite <- Harch in Hnames. rewrite Forall_forall in Hnames.
  unfold add_hidden_block.
  set (dense := nn_Linear (default_generator s) H H).
  set (m1 := add_module ("dense_" ++ str (j + 1)) (fst dense) model).
  set (m2 := add_module ("relu_" ++ str (j + 1)) ReLU m1).
  assert (A1 : architecture m1 =
               architecture model
               ++ [(("dense_" ++ str (j + 1))%string, KLinear H H)]).
  { apply architecture_add_module. intros nm Hnm.
    apply dense_fresh. auto. }
  assert (A2 : architecture m2 =
               architecture m1
               ++ [(("relu_" ++ str (j + 1))%string, KReLU)]).
  { apply architecture_add_module. intros nm Hnm.
    rewrite A1, map_app in Hnm. apply in_app_or in Hnm as [Hnm|[<-|[]]].
    - apply relu_fresh. auto.
    - simpl. intros E. inversion E. }
  rewrite hidden_blocks_snoc, app_assoc, <- Harch. unfold hidden_block.
  destruct (j <? nh - 1) eqn:Hj.
  - exists (add_module ("dropout_" ++ str (j + 1)) (Dropout p) m2), (snd dense).
    split; [|split; [|split; reflexivity]].
    + unfold dropout_ok in Hp. apply andb_prop in Hp as [Hp0 Hp1].
      unfold bind, with_generator, modify_self, lift_result, nn_Dropout.
      cbn [fst snd]. rewrite Hp0, Hp1. cbn [negb].
      rewrite !andb_false_r. reflexivity.
    + rewrite architecture_add_module.
      * rewrite A2, A1. now rewrite <- !app_assoc.
      * intros nm Hnm. rewrite A2, A1, !map_app in Hnm.
        apply in_app_or in Hnm as [Hnm|[<-|[]]].
        -- apply in_app_or in Hnm as [Hnm|[<-|[]]].
           ++ apply dropout_fresh. auto.
           ++ simpl. intros E. inversion E.
        -- simpl. intros E. inversion E.
  - exists m2, (snd dense). split; [reflexivity|].
    split; [|split; reflexivity].
    rewrite A2, A1. now rewrite <- !app_assoc, app_nil_r.
Qed.

(** build_diffeomorphism_model stores a double-precision network of the
    architecture [built_architecture], in training mode, and turns [A_cl]
    into a tensor; nothing else of the object changes. *)
Lemma build_spec (nh H bs : nat) (p : S) (s0 : World) :
  self_A_cl_is_tensor (self s0) = false ->
  dropout_ok p ->
  exists m g,
    build_diffeomorphism_model nh H bs p s0 =
      (Ok tt,
       mk_World (set_A_cl_tensor (set_diffeomorphism_model m (self s0)))
                g (cuda_is_available s0) (warnings_shown s0)) /\
    architecture m = built_architecture (self_n (self s0)) nh H p /\
    param_dtype m = Float64 /\
    training m = true.
Proof.
  intros Hnt Hp. destruct s0 as [k0 g0 c0 w0]. simpl in *.
  unfold build_diffeomorphism_model.
  set (first := nn_Linear g0 (2 * self_n k0) H).
  set (model0 := nn_Sequential [fst first; ReLU]).
  set (body := add_hidden_block nh H p).
  set (I := fun (j : nat) (model : Sequential S) (s : World) =>
     (exists g, s = mk_World (set_diffeomorphism_model model k0) g c0 w0) /\
     architecture model =
       [("0"%string, KLinear (2 * self_n k0) H); ("1"%string, KReLU)]
       ++ flat_map (hidden_block nh H p) (seq 0 j) /\
     training model = true /\ param_dtype model = Float32).
  destruct (for_each_invariant I body nh 0 model0
              (mk_World (set_diffeomorphism_model model0 k0)
                        (snd first) c0 w0))
    as (m & s' & Eloop & (g & ->) & Harch & Htr & Hdt).
  { unfold I. split; [eauto|]. split; [reflexivity|]. auto. }
  { intros j x s _ ((g & ->) & Harch & Htr & Hdt).
    destruct (add_hidden_block_spec (self_n k0) nh H p j x
                (mk_World (set_diffeomorphism_model x k0) g c0 w0) Hp Harch)
      as (x' & g' & E & Harch' & Htr' & Hdt').
    exists x', (mk_World (set_diffeomorphism_model x' k0) g' c0 w0).
    split.
    - exact E.
    - unfold I. split; [eauto|]. split; [exact Harch'|].
      split; congruence. }
  change (0 + nh) with nh in Harch.
  set (output := nn_Linear g H (self_n k0)).
  exists (double (add_module "output" (fst output) m)), (snd output).
  split; [|split; [|split]].
  - erewrite bind_ok by reflexivity. cbv beta zeta.
    erewrite bind_ok by reflexivity. cbv beta zeta.
    erewrite bind_ok by reflexivity. cbv beta zeta.
    erewrite bind_ok by exact Eloop. cbv beta zeta.
    erewrite bind_ok by reflexivity. cbv beta zeta.
    erewrite bind_ok by reflexivity. cbv beta zeta.
    erewrite bind_ok by reflexivity. cbv beta zeta.
    erewrite bind_ok by reflexivity. cbv beta zeta.
    cbn [self set_diffeomorphism_model self_A_cl_is_tensor].
    rewrite Hnt. reflexivity.
  - change (architecture (add_module "output" (fst output) m) =
            built_architecture (self_n k0) nh H p).
    rewrite architecture_add_module.
    + rewrite Harch. unfold built_architecture.
      now rewrite <- app_assoc.
    + intros nm Hnm. apply (output_fresh nh).
      pose proof (built_prefix_names (self_n k0) nh H p nh) as Hn.
      rewrite <- Harch in Hn. rewrite Forall_forall in Hn. auto.
  - reflexivity.
  - simpl. exact Htr.
Qed.

(** *** diffeomorphism *)

(** The object with its network switched to evaluation mode. *)
Definition in_eval_mode (m : Sequential S) (s : World) : World :=
  mk_World (set_diffeomorphism_model (eval m) (self s))
           (default_generator s) (cuda_is_available s) (warnings_shown s).

Lemma diffeomorphism_spec (q q_d : ndarray S) (s : World)
    (m : Sequential S) (d' : nat) :
  self_diffeomorphism_model (self s) = Some m ->
  param_dtype m = Float64 ->
  dims_chain (nrows q + nrows q_d) (architecture m) = Some d' ->
  wf q ->
  ncols q = ncols q_d ->
  diffeomorphism q q_d s = (Ok q, in_eval_mode m s).
Proof.
  intros Hm Hdt Hchain Hq Hc. unfold diffeomorphism.
  erewrite bind_ok by reflexivity. cbv beta zeta. rewrite Hm.
  erewrite bind_ok by reflexivity. cbv beta zeta.
  assert (Hin : concatenate_axis1 [transpose q; transpose q_d] =
                Ok (mk_ndarray (ncols q) (nrows q + nrows q_d)
                      (map2 (@app S) (rows (transpose q))
                                     (rows (transpose q_d))))).
  { unfold concatenate_axis1, hstack2. simpl.
    now rewrite Hc, Nat.eqb_refl. }
  rewrite Hin.
  erewrite bind_ok by reflexivity. cbv beta zeta.
  erewrite bind_ok by reflexivity. cbv beta zeta.
  cbn [self set_diffeomorphism_model self_diffeomorphism_model].
  match goal with
  | |- context [from_numpy ?a] => set (input := a)
  end.
  destruct (call_eval (eval m) (default_generator s) (from_numpy input) d')
    as (y & Ey & _); [reflexivity|exact Hchain|symmetry; exact Hdt|].
  erewrite bind_ok.
  2: { unfold with_generator_result. cbn [default_generator].
       rewrite Ey. reflexivity. }
  cbv beta zeta. unfold ret, in_eval_mode.
  rewrite transpose_involutive by exact Hq.
  destruct s; reflexivity.
Qed.

(** After build_diffeomorphism_model the network takes any pair of
    (n, k) arrays. *)
Lemma diffeomorphism_built (q q_d : ndarray S) (s : World)
    (m : Sequential S) (nh H : nat) (p : S) :
  self_diffeomorphism_model (self s) = Some m ->
  param_dtype m = Float64 ->
  architecture m = built_architecture (self_n (self s)) nh H p ->
  wf q ->
  nrows q = self_n (self s) -> nrows q_d = self_n (self s) ->
  ncols q = ncols q_d ->
  diffeomorphism q q_d s = (Ok q, in_eval_mode m s).
Proof.
  intros Hm Hdt Harch Hq Hn Hnd Hc.
  apply diffeomorphism_spec with (d' := self_n (self s)); auto.
  rewrite Harch, Hn, Hnd.
  replace (self_n (self s) + self_n (self s)) with (2 * self_n (self s))
    by lia.
  apply built_architecture_chain.
Qed.

End MethodFacts.

(** *** The basis in closed form *)

Section BasisFacts.
Context {S : Type} {scalar : Scalar S} {explog : ExpLog S}
        {random : TorchRandom S} {linalg : Linalg S}.

(** The principal eigenfunctions [dot(transpose(w), q)] at a column. *)
Definition lin_values (w : ndarray S) (c : list S) : list S :=
  map (fun r => sum_list (map2 smul r c)) (rows (transpose w)).

(** One product of powers per row of the power matrix. *)
Definition monomials (pw : list (list nat)) (v : list S) : list S :=
  map (fun row => prod_list (map2 spower v row)) pw.

(** The value of the composed basis at the column [c], for the scale
    factors [sc]. *)
Definition basis_value (w : ndarray S) (sc : list S)
    (pw : list (list nat)) (c : list S) : list S :=
  monomials pw (lin_values w (map2 sdiv c sc)).

Lemma real2_wf (a : ndarray (S * S)) : wf a -> wf (real2 a).
Proof.
  intros [Hn Hc]. split; simpl.
  - now rewrite length_map.
  - apply Forall_map. eapply Forall_impl; [|exact Hc].
    intros r Hr. unfold real. now rewrite length_map.
Qed.

Lemma ones_n1_col (n : nat) : ones_n1 n = col_array (repeat sone n).
Proof.
  unfold ones_n1, col_array. rewrite repeat_length. f_equal.
  induction n as [|n IH]; simpl; congruence.
Qed.

Lemma lin_values_length (w : ndarray S) (c : list S) :
  wf w -> length (lin_values w c) = ncols w.
Proof.
  intros [_ Hc]. unfold lin_values. rewrite length_map. simpl.
  now apply transpose_rows_length.
Qed.

Lemma eigfunc_lin_column (w : ndarray S) (n max_power : nat) (c : list S) :
  wf w -> nrows w = n -> ncols w = n -> length c = n ->
  eigfunc_lin (mk_EigfuncLin w (powers_array n max_power)) (col_array c) =
  Ok (monomials (Powers.powers n max_power) (lin_values w c)).
Proof.
  intros Hw Hr Hc Hlen. unfold eigfunc_lin, linfunc. simpl.
  rewrite dot_column.
  - change (map (fun r => sum_list (map2 smul r c)) (rows (transpose w)))
      with (lin_values w c).
    cbn [rbind closure_powers]. unfold powers_array.
    pose proof (lin_values_length w c Hw) as Hl. rewrite Hc in Hl.
    set (pw := Powers.powers n max_power).
    replace (mk_ndarray (length pw) n pw)
      with (mk_ndarray (length pw) (length (lin_values w c)) pw)
      by (now rewrite Hl).
    apply prod_power_column.
    apply Forall_forall. intros row Hrow.
    apply Powers.powers_row_length in Hrow. congruence.
  - simpl. destruct Hw as [_ Hw]. now apply transpose_rows_length.
  - simpl. congruence.
Qed.

Lemma eigenvalues_of_powers_rows (n max_power : nat) (lambd : list S) :
  length lambd = n ->
  eigenvalues_of_powers n lambd (powers_array n max_power) =
  Ok (map (fun row => slog (prod_list (map2 spower (map sexp lambd) row)))
          (Powers.powers n max_power)).
Proof.
  intros Hlen. unfold eigenvalues_of_powers.
  rewrite reshape_n1_col by (now rewrite length_map). simpl.
  unfold powers_array.
  assert (Hl : length (map sexp lambd) = n) by (now rewrite length_map).
  set (pw := Powers.powers n max_power).
  replace (mk_ndarray (length pw) n pw)
    with (mk_ndarray (length pw) (length (map sexp lambd)) pw)
    by (now rewrite Hl).
  assert (HP : Forall (fun row => length row = length (map sexp lambd)) pw).
  { apply Forall_forall. intros row Hrow.
    apply Powers.powers_row_length in Hrow. congruence. }
  apply prod_power_column in HP. unfold rbind in HP.
  destruct (power _ _) as [a|e]; [|discriminate].
  inversion HP as [HP']. simpl. now rewrite HP', map_map.
Qed.

(** The state construct_linear_eigfuncs leaves: [Nlift] and [Lambda] set. *)
Definition after_linear_eigfuncs (s : World) : World :=
  let k := self s in
  let lambd := real (fst (eig (self_A_cl k))) in
  let pw := Powers.powers (self_n k) (self_max_power k) in
  mk_World
    (set_Lambda
       (map (fun row => slog (prod_list (map2 spower (map sexp lambd) row))) pw)
       (set_Nlift (length pw) k))
    (default_generator s) (cuda_is_available s) (warnings_shown s).

Definition linear_eigfuncs_of (s : World) : EigfuncLin :=
  let k := self s in
  mk_EigfuncLin (real2 (snd (eig (transpose (self_A_cl k)))))
                (powers_array (self_n k) (self_max_power k)).

Lemma construct_linear_eigfuncs_spec (s : World) :
  nrows (self_A_cl (self s)) = self_n (self s) ->
  ncols (self_A_cl (self s)) = self_n (self s) ->
  construct_linear_eigfuncs s =
  (Ok (linear_eigfuncs_of s), after_linear_eigfuncs s).
Proof.
  intros Hr Hc. unfold construct_linear_eigfuncs.
  erewrite bind_ok by reflexivity. cbv beta zeta.
  rewrite Hr, Hc, Nat.eqb_refl. cbn [negb].
  set (A := self_A_cl (self s)).
  destruct (eig_shape A) as (Hlam & _); [unfold A; congruence|].
  destruct (eig_shape (transpose A)) as (_ & Hw & Hwr & Hwc);
    [simpl; unfold A; congruence|].
  simpl in Hwr, Hwc.
  assert (Htr : forall (b : bool),
    (if b then
       let _ := Warning "Complex eigenvalues and/or eigenvalues. Complex part supressed." in
       (real (fst (eig A)), real2 (snd (eig (transpose A))))
     else (as_real (fst (eig A)), as_real2 (snd (eig (transpose A))))) =
    (real (fst (eig A)), real2 (snd (eig (transpose A)))))
    by (intros []; reflexivity).
  rewrite Htr. cbn [fst snd].
  erewrite bind_ok.
  2: { unfold lift_result. rewrite ones_n1_col.
       rewrite eigfunc_lin_column; [reflexivity| | | |].
       - now apply real2_wf.
       - simpl. unfold A in *. congruence.
       - simpl. unfold A in *. congruence.
       - apply repeat_length. }
  cbv beta zeta.
  erewrite bind_ok by reflexivity. cbv beta zeta.
  erewrite bind_ok.
  2: { unfold lift_result. cbn [self modify_self snd set_Nlift self_n self_max_power].
       rewrite eigenvalues_of_powers_rows; [reflexivity|].
       unfold real. rewrite length_map. unfold A in *. congruence. }
  cbv beta zeta.
  erewrite bind_ok by reflexivity. cbv beta zeta.
  unfold ret, after_linear_eigfuncs, linear_eigfuncs_of, monomials.
  rewrite length_map. reflexivity.
Qed.

(** *** construct_scaling_function and construct_basis *)

Lemma construct_scaling_function_spec (ub lb : list S) (s : World) :
  length ub = self_n (self s) -> length lb = self_n (self s) ->
  construct_scaling_function (Some ub) (Some lb) s =
  (Ok (mk_ScaleFunc (col_array (map2 ssub ub lb))), s).
Proof.
  intros Hu Hl. unfold construct_scaling_function.
  erewrite bind_ok by reflexivity. cbv beta zeta.
  unfold subtract. rewrite broadcast2_same_shape by (simpl; congruence).
  erewrite bind_ok by reflexivity. cbv beta zeta.
  cbn [rows map2 concat]. rewrite app_nil_r.
  rewrite reshape_n1_col by (rewrite map2_length; lia).
  reflexivity.
Qed.

(** The state construct_basis leaves. *)
Definition after_construct_basis (ub lb : list S) (s : World) : World :=
  mk_World
    (set_basis BasisLambda
       (set_scale_func (mk_ScaleFunc (col_array (map2 ssub ub lb)))
          (set_eigfunc_lin (linear_eigfuncs_of s)
             (self (after_linear_eigfuncs s)))))
    (default_generator s) (cuda_is_available s) (warnings_shown s).

Lemma construct_basis_spec (ub lb : list S) (s : World) :
  nrows (self_A_cl (self s)) = self_n (self s) ->
  ncols (self_A_cl (self s)) = self_n (self s) ->
  length ub = self_n (self s) -> length lb = self_n (self s) ->
  construct_basis (Some ub) (Some lb) s =
  (Ok tt, after_construct_basis ub lb s).
Proof.
  intros Hr Hc Hu Hl. unfold construct_basis.
  erewrite bind_ok by (now apply construct_linear_eigfuncs_spec).
  cbv beta zeta.
  erewrite bind_ok by reflexivity. cbv beta zeta.
  erewrite bind_ok by (now apply construct_scaling_function_spec).
  cbv beta zeta.
  erewrite bind_ok by reflexivity. cbv beta zeta.
  reflexivity.
Qed.

(** *** The composed basis and lift *)

(** The object can lift: the basis is constructed, the network built. *)
Definition ready (s : World) (w : ndarray S) (sc : list S)
    (m : Sequential S) : Prop :=
  self_basis (self s) = Some BasisLambda /\
  self_eigfunc_lin (self s) =
    Some (mk_EigfuncLin w (powers_array (self_n (self s))
                                        (self_max_power (self s)))) /\
  self_scale_func (self s) = Some (mk_ScaleFunc (col_array sc)) /\
  self_diffeomorphism_model (self s) = Some m /\
  param_dtype m = Float64 /\
  dims_chain (2 * self_n (self s)) (architecture m) = Some (self_n (self s)) /\
  wf w /\ nrows w = self_n (self s) /\ ncols w = self_n (self s) /\
  length sc = self_n (self s).

Lemma ready_in_eval_mode s w sc m :
  ready s w sc m -> ready (in_eval_mode m s) w sc (eval m).
Proof.
  intros (Hb & Hf & Hs & Hm & Hdt & Hch & Hw & Hwr & Hwc & Hsc).
  exact (conj Hb (conj Hf (conj Hs (conj eq_refl (conj Hdt (conj Hch
           (conj Hw (conj Hwr (conj Hwc Hsc))))))))).
Qed.

Lemma in_eval_mode_twice m s :
  in_eval_mode (eval m) (in_eval_mode m s) = in_eval_mode m s.
Proof. reflexivity. Qed.

Lemma map2_singletons {A B C} (f : A -> B -> C) (a : list A) : forall b,
  map2 (map2 f) (map (fun x => [x]) a) (map (fun x => [x]) b) =
  map (fun x => [x]) (map2 f a b).
Proof. induction a as [|x a IH]; intros [|y b]; simpl; congruence. Qed.

Lemma scale_func_column (sc c : list S) :
  length c = length sc ->
  scale_func (mk_ScaleFunc (col_array sc)) (col_array c) =
  Ok (col_array (map2 sdiv c sc)).
Proof.
  intros Hlen. unfold scale_func, divide. simpl.
  rewrite broadcast2_same_shape by (simpl; rewrite ?length_map; congruence).
  simpl. rewrite map2_singletons. unfold col_array.
  rewrite map2_length, <- Hlen, Nat.min_id. reflexivity.
Qed.

Lemma basis_spec (s : World) (w : ndarray S) (sc : list S)
    (m : Sequential S) (c : list S) (q_d : ndarray S) :
  ready s w sc m ->
  length c = self_n (self s) ->
  nrows q_d = self_n (self s) -> ncols q_d = 1 ->
  basis (col_array c) q_d s =
  (Ok (basis_value w sc
         (Powers.powers (self_n (self s)) (self_max_power (self s))) c),
   in_eval_mode m s).
Proof.
  intros (Hb & Hf & Hs & Hm & Hdt & Hch & Hw & Hwr & Hwc & Hsc) Hc Hdr Hdc.
  unfold basis.
  erewrite bind_ok by reflexivity. cbv beta zeta. rewrite Hb.
  erewrite bind_ok.
  2: { eapply diffeomorphism_spec with (d' := self_n (self s)).
       - exact Hm.
       - exact Hdt.
       - simpl. rewrite Hdr, Hc.
         replace (self_n (self s) + self_n (self s))
           with (2 * self_n (self s)) by lia.
         exact Hch.
       - apply col_array_wf.
       - simpl. congruence. }
  cbv beta zeta.
  erewrite bind_ok by reflexivity. cbv beta zeta.
  cbn [self in_eval_mode set_diffeomorphism_model self_scale_func
       self_eigfunc_lin].
  rewrite Hs, Hf.
  erewrite bind_ok.
  2: { unfold lift_result. rewrite scale_func_column by congruence.
       reflexivity. }
  cbv beta zeta. unfold lift_result.
  rewrite eigfunc_lin_column; auto.
  rewrite map2_length. lia.
Qed.

(** The columns [q[:, 0]], [q[:, 1]], ... *)
Definition columns {T} (q : ndarray T) : list (list T) :=
  transpose_rows (ncols q) (rows q).

Lemma column_nth {T} (q : ndarray T) (ii : nat) :
  wf q -> ii < ncols q ->
  column q ii = Ok (nth ii (columns q) []) /\
  length (nth ii (columns q) []) = nrows q.
Proof.
  intros [Hn Hc] Hii. unfold column, columns.
  pose proof (transpose_rows_length _ _ Hc) as Hlen.
  pose proof (transpose_rows_row_length _ _ Hc) as Hrows.
  rewrite Forall_forall in Hrows.
  assert (Hlt : ii < length (transpose_rows (ncols q) (rows q))) by lia.
  rewrite (nth_error_nth' _ [] Hlt). split; [reflexivity|].
  rewrite <- Hn. apply Hrows. now apply nth_In.
Qed.

Lemma comprehension_invariant {A} (I : World -> Prop) (f : nat -> M A)
    (v : nat -> A) : forall l s,
  I s ->
  (forall ii s, In ii l -> I s ->
     exists s', f ii s = (Ok (v ii), s') /\ I s') ->
  exists s', comprehension l f s = (Ok (map v l), s') /\ I s'.
Proof.
  induction l as [|ii l IH]; intros s HI Hstep; simpl.
  - exists s. auto.
  - destruct (Hstep ii s) as (s1 & E1 & HI1); [now left|exact HI|].
    rewrite (bind_ok _ _ _ _ _ E1).
    destruct (IH s1 HI1) as (s2 & E2 & HI2).
    { intros j t Hj. apply Hstep. now right. }
    rewrite (bind_ok _ _ _ _ _ E2). exists s2. auto.
Qed.

(** lift gives one row per sample, each the basis at that column. *)
Lemma lift_spec (s : World) (w : ndarray S) (sc : list S)
    (m : Sequential S) (q q_d : ndarray S) :
  ready s w sc m ->
  wf q -> wf q_d ->
  nrows q = self_n (self s) -> nrows q_d = self_n (self s) ->
  ncols q_d = ncols q ->
  exists s',
    lift q q_d s =
    (Ok (array_of_rows
           (map (fun ii =>
                   basis_value w sc
                     (Powers.powers (self_n (self s)) (self_max_power (self s)))
                     (nth ii (columns q) []))
                (seq 0 (ncols q)))),
     s').
Proof.
  intros Hready Hq Hqd Hn Hdn Hdc. unfold lift.
  set (n := self_n (self s)) in *.
  set (mp := self_max_power (self s)).
  set (I := fun t : World =>
    self_n (self t) = n /\ self_max_power (self t) = mp /\
    exists m', ready t w sc m').
  destruct (comprehension_invariant I (lift_sample q q_d)
              (fun ii => basis_value w sc (Powers.powers n mp)
                           (nth ii (columns q) []))
              (seq 0 (ncols q)) s) as (s' & E & _).
  - unfold I. eauto.
  - intros ii t Hii (Hnt & Hmpt & m' & Hr). apply in_seq in Hii.
    destruct (column_nth q ii Hq) as (Eq & Lq); [lia|].
    destruct (column_nth q_d ii Hqd) as (Eqd & Lqd); [lia|].
    exists (in_eval_mode m' t). split.
    + unfold lift_sample.
      erewrite bind_ok by reflexivity. cbv beta zeta.
      erewrite bind_ok.
      2: { unfold lift_result. rewrite Eq. cbn [rbind].
           rewrite reshape_n1_col by congruence. reflexivity. }
      cbv beta zeta.
      erewrite bind_ok.
      2: { unfold lift_result. rewrite Eqd. cbn [rbind].
           rewrite reshape_n1_col by congruence. reflexivity. }
      cbv beta zeta.
      rewrite (basis_spec t w sc m'); try assumption.
      * now rewrite Hnt, Hmpt.
      * congruence.
      * simpl. congruence.
      * reflexivity.
    + unfold I. split; [exact Hnt|]. split; [exact Hmpt|].
      exists (eval m'). now apply ready_in_eval_mode.
  - exists s'. rewrite (bind_ok _ _ _ _ _ E). reflexivity.
Qed.

(** *** Setting the object up: build the network, construct the basis *)

Definition setup (n_hidden_layers layer_width batch_size : nat)
    (dropout_prob : S) (ub lb : list S) : M unit :=
  bind (build_diffeomorphism_model n_hidden_layers layer_width batch_size
                                   dropout_prob)
       (fun _ => construct_basis (Some ub) (Some lb)).

(** The eigenvalues the code keeps: the real parts. *)
Definition kept_eigenvalues (k : KoopmanEigenfunctions) : list S :=
  real (fst (eig (self_A_cl k))).

(** The left eigenvectors the code keeps: the real parts. *)
Definition kept_eigenvectors (k : KoopmanEigenfunctions) : ndarray S :=
  real2 (snd (eig (transpose (self_A_cl k)))).

(** [log(prod(exp(lambd_j) ^ row_j))] *)
Definition eigenvalue_of_row (lambd : list S) (row : list nat) : S :=
  slog (prod_list (map2 spower (map sexp lambd) row)).

Lemma setup_spec (nh H bs : nat) (p : S) (ub lb : list S) (s0 : World) :
  self_A_cl_is_tensor (self s0) = false ->
  dropout_ok p ->
  nrows (self_A_cl (self s0)) = self_n (self s0) ->
  ncols (self_A_cl (self s0)) = self_n (self s0) ->
  length ub = self_n (self s0) -> length lb = self_n (self s0) ->
  exists m s,
    setup nh H bs p ub lb s0 = (Ok tt, s) /\
    ready s (kept_eigenvectors (self s0)) (map2 ssub ub lb) m /\
    self_n (self s) = self_n (self s0) /\
    self_max_power (self s) = self_max_power (self s0) /\
    architecture m = built_architecture (self_n (self s0)) nh H p /\
    self_Nlift (self s) =
      Some (length (Powers.powers (self_n (self s0))
                                  (self_max_power (self s0)))) /\
    self_Lambda (self s) =
      Some (map (eigenvalue_of_row (kept_eigenvalues (self s0)))
                (Powers.powers (self_n (self s0))
                               (self_max_power (self s0)))).
Proof.
  intros Hnt Hp Hr Hc Hu Hl.
  destruct (build_spec nh H bs p s0 Hnt Hp) as (m & g & Eb & Harch & Hdt & _).
  exists m. eexists. split; [|split; [|split; [|split; [|split; [|split]]]]].
  - unfold setup. rewrite (bind_ok _ _ _ _ _ Eb).
    apply construct_basis_spec; assumption.
  - destruct (eig_shape (transpose (self_A_cl (self s0))))
      as (_ & Hw & Hwr & Hwc); [simpl; congruence|].
    simpl in Hwr, Hwc.
    refine (conj eq_refl (conj eq_refl (conj eq_refl (conj eq_refl
             (conj Hdt (conj _ (conj _ (conj _ (conj _ _))))))))).
    + cbn [self after_construct_basis set_basis self_n]. rewrite Harch.
      apply built_architecture_chain.
    + now apply real2_wf.
    + cbn. congruence.
    + cbn. congruence.
    + cbn. rewrite map2_length. lia.
  - reflexivity.
  - reflexivity.
  - exact Harch.
  - reflexivity.
  - reflexivity.
Qed.

End BasisFacts.

End Koopman.

(** ** utils.differentiate_vec *)

(** [differentiate_vec(xs, ts)]: the numerical derivative of the rows of
    [xs] along the times [ts].  The routine lives in [.utils]; the code here
    only calls it. *)
Class Differentiate (S : Type) : Type := {
  differentiate_vec : Numpy.ndarray S -> list S -> Numpy.ndarray S
}.

(** ** fit_diffeomorphism_model *)

Module Fit.
Import Numpy Torch Koopman.

(** What the training loop asks of torch's autograd and optimizer. *)
Class Autograd (S : Type) {random : TorchRandom S} : Type := {
  Optimizer : Type;
  (** [optim.Adam(model.parameters(), lr=lr, weight_decay=l2)] *)
  Adam : Sequential S -> S -> S -> Optimizer;
  (** the learning rate a [LambdaLR] step sets *)
  set_lr : Optimizer -> S -> Optimizer;
  (** [compute_jacobian(x, model(x))]: for each sample of the batch the
      matrix (outputs x inputs) of derivatives of the call that started at
      the given generator state *)
  compute_jacobian :
    Sequential S -> Generator -> ndarray S -> list (ndarray S);
  (** [loss.backward(); optimizer.step()] for the loss of one training
      batch: the state dimension, [A_cl], the Jacobian penalty, the
      generator states of the two forward calls, and the batch *)
  backward_step :
    Optimizer -> Sequential S -> nat -> ndarray S -> S ->
    Generator -> Generator -> ndarray S -> ndarray S -> ndarray S ->
    Sequential S * Optimizer;
  (** [int(train_frac * N)] *)
  int_of_fraction : S -> nat -> Z
}.

Section FitModel.
Context {S : Type} {scalar : Scalar S} {random : TorchRandom S}
        {differentiate : Differentiate S} {autograd : Autograd S}.

(** *** process *)

(** A three-dimensional array [Ntraj, Nt, Ns] is the list of its Nt x Ns
    blocks. *)
Definition same_shape (a b : ndarray S) : bool :=
  (nrows a =? nrows b) && (ncols a =? ncols b).

(** [array([b0, b1, ...])] of two-dimensional arrays of one shape *)
Definition array_of_blocks (l : list (ndarray S)) : result (list (ndarray S)) :=
  match l with
  | [] => Ok []
  | b :: t => if forallb (same_shape b) t then Ok l else Err ValueError
  end.

(** [a.shape] of a three-dimensional array *)
Definition shape3 (l : list (ndarray S)) : option (nat * nat * nat) :=
  match l with
  | [] => None
  | b :: _ => Some (length l, nrows b, ncols b)
  end.

Definition shape3_eqb (a b : option (nat * nat * nat)) : bool :=
  match a, b with
  | Some (a0, a1, a2), Some (b0, b1, b2) =>
      (a0 =? b0) && (a1 =? b1) && (a2 =? b2)
  | None, None => true
  | _, _ => false
  end.

(** [a[-1, :]] *)
Definition last_row (a : ndarray S) : result (list S) :=
  match rev (rows a) with
  | [] => Err IndexError
  | r :: _ => Ok r
  end.

Fixpoint traverse {A B} (f : A -> result B) (l : list A) : result (list B) :=
  match l with
  | [] => Ok []
  | x :: t => rbind (f x) (fun y => rbind (traverse f t) (fun r => Ok (y :: r)))
  end.

(** [a[ii]] *)
Definition item {A} (l : list A) (ii : nat) : result A :=
  match nth_error l ii with
  | Some x => Ok x
  | None => Err IndexError
  end.

(** [a - row] with the row broadcast over the rows of [a] *)
Definition subtract_row (a : ndarray S) (row : list S) : result (ndarray S) :=
  subtract a (mk_ndarray 1 (length row) [row]).

(** [assert(c)] *)
Definition assert (c : bool) : result unit :=
  if c then Ok tt else Err AssertionError.

(** [a.reshape((a.shape[0] * a.shape[1], a.shape[2]))] *)
Definition flatten_blocks (l : list (ndarray S)) : result (ndarray S) :=
  match shape3 l with
  | None => Err IndexError
  | Some (k0, k1, k2) =>
      Ok (mk_ndarray (k0 * k1) k2 (concat (map rows l)))
  end.

Definition process (X : list (ndarray S)) (t : ndarray S)
    (X_d : list (ndarray S))
  : result (ndarray S * ndarray S * ndarray S * list S) :=
  rbind (traverse last_row X_d) (fun X_f =>
  rbind (traverse (fun ii =>
           rbind (item X ii) (fun x =>
           rbind (item X_f ii) (fun xf => subtract_row x xf)))
         (seq 0 (length X))) (fun X_shift =>
  rbind (array_of_blocks X_shift) (fun X_shift =>
  rbind (traverse (fun ii =>
           rbind (item X_d ii) (fun xd =>
           rbind (item X_f ii) (fun xf => subtract_row xd xf)))
         (seq 0 (length X))) (fun X_d =>
  rbind (array_of_blocks X_d) (fun X_d =>
  rbind (traverse (fun ii =>
           rbind (item X_shift ii) (fun x =>
           rbind (item (rows t) ii) (fun ti =>
           Ok (differentiate_vec x ti))))
         (seq 0 (length X_shift))) (fun X_dot =>
  rbind (array_of_blocks X_dot) (fun X_dot =>
  rbind (assert (shape3_eqb (shape3 X_shift) (shape3 X_dot))) (fun _ =>
  rbind (assert (shape3_eqb (shape3 X_d) (shape3 X_dot))) (fun _ =>
  rbind (match shape3 X_shift with
         | Some (k0, k1, k2) =>
             if k2 =? 0 then Err IndexError
             else assert ((nrows t =? k0) && (ncols t =? k1))
         | None => Err IndexError
         end) (fun _ =>
  rbind (flatten_blocks X_shift) (fun X_shift =>
  rbind (flatten_blocks X_dot) (fun X_dot =>
  rbind (flatten_blocks X_d) (fun X_d =>
  Ok (X_shift, X_dot, X_d, concat (rows t))))))))))))))).

(** *** The tensors of a fit *)

(** [X_dot - dot(self.A_cl, X.transpose()).transpose()] *)
Definition target (A_cl X X_dot : ndarray S) : result (ndarray S) :=
  rbind (dot A_cl (transpose X)) (fun AX => subtract X_dot (transpose AX)).

(** The tuple [process] returns: [X_shift, X_dot, X_d, t]. *)
Definition Processed : Type := ndarray S * ndarray S * ndarray S * list S.

(** Its first component, the [X] of the lines after line 144. *)
Definition shifted_state (p : Processed) : ndarray S :=
  let '(X, X_dot, X_d, t) := p in X.

(** Line 151: [npconcatenate((X, X_d, X_dot), axis=1)] *)
Definition training_input (p : Processed) : result (ndarray S) :=
  let '(X, X_dot, X_d, t) := p in
  concatenate_axis1 [X; X_d; X_dot].

(** Line 171: [npconcatenate((X_val, X_dot_val, X_dot_val), axis=1)] *)
Definition validation_input (p : Processed) : result (ndarray S) :=
  let '(X_val, X_dot_val, Xd_val, t_val) := p in
  concatenate_axis1 [X_val; X_dot_val; X_dot_val].

(** Lines 145 and 170: the regression target of processed data *)
Definition target_of (A_cl : ndarray S) (p : Processed)
  : result (ndarray S) :=
  let '(X, X_dot, X_d, t) := p in
  target A_cl X X_dot.

(** Lines 144, 145 and 151: the input and target tensors of the training
    data. *)
Definition training_tensors (A_cl : ndarray S) (X : list (ndarray S))
    (t : ndarray S) (X_d : list (ndarray S))
  : result (ndarray S * ndarray S) :=
  rbind (process X t X_d) (fun p =>
  rbind (target_of A_cl p) (fun y_target =>
  rbind (training_input p) (fun X_tensor =>
  Ok (X_tensor, y_target)))).

(** Lines 169-172: the input and target tensors of the validation data. *)
Definition validation_tensors (A_cl : ndarray S) (X_val : list (ndarray S))
    (t_val : ndarray S) (Xd_val : list (ndarray S))
  : result (ndarray S * ndarray S) :=
  rbind (process X_val t_val Xd_val) (fun p =>
  rbind (target_of A_cl p) (fun y_target_val =>
  rbind (validation_input p) (fun X_val_tensor =>
  Ok (X_val_tensor, y_target_val)))).

(** *** Datasets and loaders *)

(** [TensorDataset(X, y)], and the [Subset]s [random_split] makes of it:
    the tensors and the indices of the samples taken. *)
Record Dataset : Type := mk_Dataset {
  data_x : ndarray S;
  data_y : ndarray S;
  indices : list nat
}.

Definition TensorDataset (x y : ndarray S) : result Dataset :=
  if nrows x =? nrows y then Ok (mk_Dataset x y (seq 0 (nrows x)))
  else Err AssertionError.

Record DataLoader : Type := mk_DataLoader {
  loader_dataset : Dataset;
  loader_batch_size : nat;
  loader_shuffle : bool
}.

(** [DataLoader(dataset=..., batch_size=..., shuffle=...)] *)
Definition new_DataLoader (d : Dataset) (batch_size : nat) (shuffle : bool)
  : result DataLoader :=
  if batch_size =? 0 then Err ValueError
  else Ok (mk_DataLoader d batch_size shuffle).

(** The position a slice bound stands for in a list of [len] elements: a
    negative bound counts from the end, and bounds are clipped. *)
Definition slice_bound (len : nat) (i : Z) : nat :=
  if (i <? 0)%Z then Z.to_nat (Z.of_nat len + i)
  else Nat.min (Z.to_nat i) len.

(** [l[a:b]] *)
Definition slice {A} (l : list A) (a b : Z) : list A :=
  let a := slice_bound (length l) a in
  let b := slice_bound (length l) b in
  firstn (b - a) (skipn a l).

(** [random_split(dataset, [n_train, n_val])]: the lengths have to add up
    to the size of the dataset; a permutation of the indices is cut into
    [indices[offset - length : offset]] at the running sums of the
    lengths. *)
Definition random_split (d : Dataset) (n_train n_val : Z)
  : M (Dataset * Dataset) :=
  if negb (n_train + n_val =? Z.of_nat (length (indices d)))%Z
  then raise ValueError
  else
    bind (with_generator
            (fun g => randperm g (Z.to_nat (n_train + n_val))))
      (fun perm =>
    let shuffled := map (fun p => nth p (indices d) 0) perm in
    ret (mk_Dataset (data_x d) (data_y d)
           (slice shuffled (n_train - n_train) n_train),
         mk_Dataset (data_x d) (data_y d)
           (slice shuffled (n_train + n_val - n_val) (n_train + n_val)))).

Fixpoint chunks (fuel size : nat) (l : list nat) : list (list nat) :=
  match fuel with
  | 0 => []
  | Datatypes.S fuel' =>
      match l with
      | [] => []
      | _ :: _ => firstn size l :: chunks fuel' size (skipn size l)
      end
  end.

Definition take_rows (a : ndarray S) (idx : list nat) : ndarray S :=
  mk_ndarray (length idx) (ncols a) (map (fun i => nth i (rows a) []) idx).

(** One pass over a loader: the batches it yields.  A shuffling loader
    draws a permutation when the pass starts. *)
Definition batches (l : DataLoader) : M (list (ndarray S * ndarray S)) :=
  let d := loader_dataset l in
  bind (if loader_shuffle l
        then bind (with_generator (fun g => randperm g (length (indices d))))
                  (fun perm => ret (map (fun p => nth p (indices d) 0) perm))
        else ret (indices d))
    (fun order =>
  ret (map (fun idx => (take_rows (data_x d) idx, take_rows (data_y d) idx))
           (chunks (length order) (loader_batch_size l) order))).

(** *** The loss *)

(** [x[:, :k]] and [x[:, k:]] *)
Definition columns_upto (k : nat) (a : ndarray S) : ndarray S :=
  mk_ndarray (nrows a) (Nat.min k (ncols a)) (map (firstn k) (rows a)).

Definition columns_from (k : nat) (a : ndarray S) : ndarray S :=
  mk_ndarray (nrows a) (ncols a - k) (map (skipn k) (rows a)).

Fixpoint of_nat (k : nat) : S :=
  match k with
  | 0 => szero
  | Datatypes.S k' => sadd (of_nat k') sone
  end.

(** [mean(a)] over all entries *)
Definition mean (l : list S) : S := sdiv (sum_list l) (of_nat (length l)).

Definition squares (l : list S) : list S := map (fun x => spower x 2) l.

(** [mm(a, b)]; torch refuses a numpy array *)
Definition mm (a_is_tensor : bool) (a b : ndarray S) : result (ndarray S) :=
  if a_is_tensor
  then match dot a b with
       | Ok r => Ok r
       | Err _ => Err RuntimeError
       end
  else Err TypeError.

(** [matmul(jacobian, xdot.reshape((B, n, 1))).squeeze()]: each sample's
    Jacobian times that sample's derivative. *)
Definition jacobian_times (jacobian : list (ndarray S)) (xdot : ndarray S)
  : ndarray S :=
  mk_ndarray (nrows xdot)
    (match jacobian with [] => 0 | j :: _ => nrows j end)
    (map2 (fun j v => map (fun r => sum_list (map2 smul r v)) (rows j))
          jacobian (rows xdot)).

Definition diffeomorphism_loss (k : KoopmanEigenfunctions)
    (jacobian_penalty : S) (h_dot : ndarray S)
    (zero_jacobian : option (list (ndarray S)))
    (y_true y_pred : ndarray S) (is_training : bool) : result S :=
  rbind (mm (self_A_cl_is_tensor k) (self_A_cl k) (transpose y_pred))
    (fun Ay =>
  rbind (subtract h_dot (transpose Ay)) (fun h_sum_pred =>
  rbind (subtract y_true h_sum_pred) (fun residual =>
  let mse := mean (squares (concat (rows residual))) in
  if is_training
  then match zero_jacobian with
       | Some zj =>
           Ok (sadd mse
                 (smul jacobian_penalty
                    (mean (squares (concat (flat_map rows zj))))))
       | None => Err TypeError
       end
  else Ok mse))).

(** *** One training step and one validation step *)

Definition the_model : M (Sequential S) :=
  bind get_self (fun k =>
  match self_diffeomorphism_model k with
  | Some m => ret m
  | None => raise AttributeError
  end).

Definition generator_state : M Generator :=
  fun s => (Ok (default_generator s), s).

(** [zero_input = t_zeros(xt.shape); zero_input[:, n:] = xt[:, n:]] *)
Definition zero_state (n : nat) (xt : ndarray S) : ndarray S :=
  mk_ndarray (nrows xt) (ncols xt)
    (map (fun r => repeat szero (Nat.min n (length r)) ++ skipn n r)
         (rows xt)).

Definition train_step (jacobian_penalty : S) (optimizer : Optimizer)
    (xt xdot y : ndarray S) : M (S * Optimizer) :=
  bind the_model (fun model =>
  bind (modify_self (set_diffeomorphism_model (train model))) (fun _ =>
  let model := train model in
  bind get_self (fun k =>
  let n := self_n k in
  bind generator_state (fun g_xt =>
  bind (with_generator_result (fun g => call model g (from_numpy xt)))
    (fun yhat =>
  let zero_input := zero_state n xt in
  bind generator_state (fun g_zero =>
  bind (with_generator_result
          (fun g => call model g (from_numpy zero_input))) (fun y_zero =>
  let zero_jacobian :=
    map (columns_upto n) (compute_jacobian model g_zero zero_input) in
  let jacobian := map (columns_upto n) (compute_jacobian model g_xt xt) in
  let h_dot := jacobian_times jacobian xdot in
  bind (lift_result
          (diffeomorphism_loss k jacobian_penalty h_dot (Some zero_jacobian)
             y (numpy yhat) (training model))) (fun loss =>
  let stepped :=
    backward_step optimizer model n (self_A_cl k) jacobian_penalty
                  g_xt g_zero xt xdot y in
  bind (modify_self (set_diffeomorphism_model (fst stepped))) (fun _ =>
  ret (loss, snd stepped)))))))))).

Definition validation_step (jacobian_penalty : S) (xt xdot y : ndarray S)
  : M S :=
  bind the_model (fun model =>
  bind (modify_self (set_diffeomorphism_model (eval model))) (fun _ =>
  let model := eval model in
  bind get_self (fun k =>
  let n := self_n k in
  bind generator_state (fun g_xt =>
  bind (with_generator_result (fun g => call model g (from_numpy xt)))
    (fun yhat =>
  let jacobian := map (columns_upto n) (compute_jacobian model g_xt xt) in
  let h_dot := jacobian_times jacobian xdot in
  lift_result
    (diffeomorphism_loss k jacobian_penalty h_dot None y (numpy yhat)
       (training model))))))).

(** *** The fit *)

(** [cuda.is_available()] *)
Definition cuda_available : M bool :=
  fun s => (Ok (cuda_is_available s), s).

(** [manual_seed(seed)] *)
Definition torch_manual_seed (seed : nat) : M unit :=
  fun s => (Ok tt,
            mk_World (self s) (manual_seed seed) (cuda_is_available s)
                     (warnings_shown s)).

(** [x.to(device)] *)
Definition to_device (device : string) (x : ndarray S) : ndarray S := x.

(** [model.apply(init_normal)]: [xavier_normal_] on the weight of every
    linear layer, in the order of the modules. *)
Fixpoint init_normal (g : Generator) (ms : list (string * Layer S))
  : list (string * Layer S) * Generator :=
  match ms with
  | [] => ([], g)
  | (name, Linear i o w b) :: t =>
      let r := xavier_normal_ g w in
      let rest := init_normal (snd r) t in
      ((name, Linear i o (fst r) b) :: fst rest, snd rest)
  | kv :: t =>
      let rest := init_normal g t in
      (kv :: fst rest, snd rest)
  end.

Definition apply_init_normal (m : Sequential S) (g : Generator)
  : Sequential S * Generator :=
  let r := init_normal g (modules m) in
  (mk_Sequential (fst r) (training m) (param_dtype m), snd r).

(** [sum(losses) / len(losses)], a ZeroDivisionError on no loss *)
Definition average (l : list S) : result S :=
  match l with
  | [] => Err ZeroDivisionError
  | _ => Ok (sdiv (fold_left sadd l szero) (of_nat (length l)))
  end.

(** The state of the loops: the optimizer and the loss histories. *)
Record Progress : Type := mk_Progress {
  optimizer : Optimizer;
  losses : list S;
  val_losses : list S
}.

Fixpoint train_batches (jacobian_penalty : S) (device : string) (n : nat)
    (bs : list (ndarray S * ndarray S)) (opt : Optimizer)
  : M (list S * Optimizer) :=
  match bs with
  | [] => ret ([], opt)
  | (x_batch, y_batch) :: t =>
      let x_batch := to_device device x_batch in
      let y_batch := to_device device y_batch in
      let xt := columns_upto (2 * n) x_batch in
      let xdot := columns_from (2 * n) x_batch in
      bind (train_step jacobian_penalty opt xt xdot y_batch) (fun r =>
      bind (train_batches jacobian_penalty device n t (snd r)) (fun rest =>
      ret (fst r :: fst rest, snd rest)))
  end.

Fixpoint validate_batches (jacobian_penalty : S) (device : string) (n : nat)
    (bs : list (ndarray S * ndarray S)) : M (list S) :=
  match bs with
  | [] => ret []
  | (x_val, y_val) :: t =>
      let x_val := to_device device x_val in
      let y_val := to_device device y_val in
      let xt_val := columns_upto (2 * n) x_val in
      let xdot_val := columns_from (2 * n) x_val in
      bind (validation_step jacobian_penalty xt_val xdot_val y_val)
        (fun loss =>
      bind (validate_batches jacobian_penalty device n t) (fun rest =>
      ret (loss :: rest)))
  end.

(** The body of [for i in range(n_epochs)]. *)
Definition epoch (learning_rate learning_decay jacobian_penalty : S)
    (device : string) (train_loader val_loader : DataLoader)
    (i : nat) (p : Progress) : M Progress :=
  bind get_self (fun k =>
  bind (batches train_loader) (fun bs =>
  bind (train_batches jacobian_penalty device (self_n k) bs (optimizer p))
    (fun trained =>
  bind (lift_result (average (fst trained))) (fun loss =>
  bind (batches val_loader) (fun vs =>
  bind (validate_batches jacobian_penalty device (self_n k) vs)
    (fun batch_val_loss =>
  bind (lift_result (average batch_val_loss)) (fun val_loss =>
  let scheduled :=
    set_lr (snd trained) (smul learning_rate (spower learning_decay i)) in
  ret (mk_Progress scheduled (losses p ++ [loss])
                   (val_losses p ++ [val_loss]))))))))).

(** The optional validation set [X_val, t_val, Xd_val]. *)
Definition ValidationSet : Type :=
  option (list (ndarray S)) * option (ndarray S) * option (list (ndarray S)).

(** The function from [dataset = TensorDataset(X_tensor, y_tensor)] on:
    the loaders, the optimizer, the initialisation and the epochs.  The
    scheduler is built on [learning_rate]; [verbose] only prints. *)
Definition fit_from_dataset (X X_tensor y_tensor : ndarray S)
    (learning_rate learning_decay : S) (n_epochs : nat)
    (train_frac l2 jacobian_penalty : S) (batch_size : nat)
    (initialize verbose : bool) (validation : ValidationSet)
    (device : string) : M S :=
  bind get_self (fun k =>
  bind (lift_result (TensorDataset X_tensor y_tensor)) (fun dataset =>
  bind
    (match validation with
     | (Some X_val, Some t_val, Some Xd_val) =>
         bind (lift_result
                 (validation_tensors (self_A_cl k) X_val t_val Xd_val))
           (fun val_tensors =>
         bind (lift_result
                 (TensorDataset (fst val_tensors) (snd val_tensors)))
           (fun val_dataset =>
         bind (lift_result (new_DataLoader dataset batch_size true))
           (fun train_loader =>
         bind (lift_result (new_DataLoader val_dataset batch_size false))
           (fun val_loader =>
         ret (train_loader, val_loader)))))
     | _ =>
         let n_train := int_of_fraction train_frac (nrows X) in
         let n_val := (Z.of_nat (nrows X) - n_train)%Z in
         bind (random_split dataset n_train n_val) (fun split =>
         bind (lift_result (new_DataLoader (fst split) batch_size true))
           (fun train_loader =>
         bind (lift_result (new_DataLoader (snd split) batch_size false))
           (fun val_loader =>
         ret (train_loader, val_loader))))
     end) (fun loaders =>
  bind the_model (fun model =>
  let optimizer := Adam model learning_rate l2 in
  bind (if initialize
        then
          bind (with_generator (apply_init_normal model)) (fun model' =>
          modify_self (set_diffeomorphism_model model'))
        else ret tt) (fun _ =>
  bind (for_each (seq 0 n_epochs)
          (epoch learning_rate learning_decay jacobian_penalty device
                 (fst loaders) (snd loaders))
          (mk_Progress optimizer [] [])) (fun p =>
  match rev (val_losses p) with
  | [] => raise IndexError
  | last :: _ => ret last
  end)))))).

Definition fit_diffeomorphism_model
    (X : list (ndarray S)) (t : ndarray S) (X_d : list (ndarray S))
    (learning_rate learning_decay : S) (n_epochs : nat)
    (train_frac l2 jacobian_penalty : S) (batch_size : nat)
    (initialize verbose : bool) (validation : ValidationSet) : M S :=
  bind get_self (fun k =>
  bind (lift_result (process X t X_d)) (fun processed =>
  bind (lift_result (target_of (self_A_cl k) processed)) (fun y_target =>
  bind cuda_available (fun available =>
  let device := if available then "cpu"%string else "cpu"%string in
  bind (torch_manual_seed 42) (fun _ =>
  bind (lift_result (training_input processed)) (fun X_tensor =>
  fit_from_dataset (shifted_state processed) X_tensor y_target
    learning_rate learning_decay n_epochs train_frac l2 jacobian_penalty
    batch_size initialize verbose validation device)))))).

End FitModel.

(** *** What a fit depends on *)

Section Determinism.
Context {S : Type} {scalar : Scalar S} {random : TorchRandom S}
        {differentiate : Differentiate S} {autograd : Autograd S}.

(** Two worlds agree when they hold the same object and the same
    generator state; CUDA and the warnings shown may differ. *)
Definition agree (s1 s2 : World) : Prop :=
  self s1 = self s2 /\ default_generator s1 = default_generator s2.

(** A computation respects the agreement when on agreeing worlds it
    returns the same result and leaves agreeing worlds. *)
Definition respects {A} (c : M A) : Prop :=
  forall s1 s2, agree s1 s2 ->
    fst (c s1) = fst (c s2) /\ agree (snd (c s1)) (snd (c s2)).

Lemma respects_ret {A} (a : A) : respects (ret a).
Proof. intros s1 s2 H. split; [reflexivity|exact H]. Qed.

Lemma respects_raise {A} (e : PyError) : respects (raise (A := A) e).
Proof. intros s1 s2 H. split; [reflexivity|exact H]. Qed.

Lemma respects_lift_result {A} (r : result A) : respects (lift_result r).
Proof. intros s1 s2 H. split; [reflexivity|exact H]. Qed.

Lemma respects_get_self : respects get_self.
Proof.
  intros s1 s2 [Hs Hg]. split; [|split; assumption].
  simpl. now rewrite Hs.
Qed.

Lemma respects_generator_state : respects generator_state.
Proof.
  intros s1 s2 [Hs Hg]. split; [|split; assumption].
  simpl. now rewrite Hg.
Qed.

Lemma respects_modify_self f : respects (modify_self f).
Proof.
  intros s1 s2 [Hs Hg]. split; [reflexivity|].
  split; simpl; congruence.
Qed.

Lemma respects_with_generator {A} (f : Generator -> A * Generator) :
  respects (with_generator f).
Proof.
  intros s1 s2 [Hs Hg]. unfold with_generator. simpl. rewrite Hg.
  split; [reflexivity|]. split; simpl; congruence.
Qed.

Lemma respects_with_generator_result {A}
    (f : Generator -> result A * Generator) :
  respects (with_generator_result f).
Proof.
  intros s1 s2 [Hs Hg]. unfold with_generator_result. simpl. rewrite Hg.
  split; [reflexivity|]. split; simpl; congruence.
Qed.

Lemma respects_bind {A B} (c : M A) (k : A -> M B) :
  respects c -> (forall a, respects (k a)) -> respects (bind c k).
Proof.
  intros Hc Hk s1 s2 H. unfold bind.
  destruct (Hc s1 s2 H) as [Hr Hs]. rewrite Hr.
  destruct (fst (c s2)) as [a|e].
  - now apply Hk.
  - split; [reflexivity|exact Hs].
Qed.

Ltac respects_step :=
  lazymatch goal with
  | |- respects (bind _ _) => apply respects_bind; [|intros]
  | |- respects (ret _) => apply respects_ret
  | |- respects (raise _) => apply respects_raise
  | |- respects (lift_result _) => apply respects_lift_result
  | |- respects get_self => apply respects_get_self
  | |- respects generator_state => apply respects_generator_state
  | |- respects (modify_self _) => apply respects_modify_self
  | |- respects (with_generator _) => apply respects_with_generator
  | |- respects (with_generator_result _) =>
      apply respects_with_generator_result
  | |- respects (if ?b then _ else _) => destruct b
  | |- respects (match ?x with _ => _ end) => destruct x
  | |- respects (let _ := _ in _) => cbv zeta
  end.

Ltac respects_all := repeat respects_step.

Lemma respects_the_model : respects the_model.
Proof. unfold the_model. respects_all. Qed.

Lemma respects_random_split d n_train n_val :
  respects (random_split d n_train n_val).
Proof. unfold random_split. respects_all. Qed.

Lemma respects_batches l : respects (batches l).
Proof. unfold batches. respects_all. Qed.

Lemma respects_train_step penalty opt xt xdot y :
  respects (train_step penalty opt xt xdot y).
Proof.
  unfold train_step. respects_step; [apply respects_the_model|].
  respects_all.
Qed.

Lemma respects_validation_step penalty xt xdot y :
  respects (validation_step penalty xt xdot y).
Proof.
  unfold validation_step. respects_step; [apply respects_the_model|].
  respects_all.
Qed.

Lemma respects_train_batches penalty device n bs : forall opt,
  respects (train_batches penalty device n bs opt).
Proof.
  induction bs as [|[x y] bs IH]; intros opt; cbn [train_batches].
  - apply respects_ret.
  - cbv zeta. respects_step; [apply respects_train_step|].
    respects_step; [apply IH|]. apply respects_ret.
Qed.

Lemma respects_validate_batches penalty device n bs :
  respects (validate_batches penalty device n bs).
Proof.
  induction bs as [|[x y] bs IH]; cbn [validate_batches].
  - apply respects_ret.
  - cbv zeta. respects_step; [apply respects_validation_step|].
    respects_step; [apply IH|]. apply respects_ret.
Qed.

Lemma respects_for_each {A} (body : nat -> A -> M A) (l : list nat) :
  (forall ii a, respects (body ii a)) ->
  forall a, respects (for_each l body a).
Proof.
  intros Hbody. induction l as [|ii l IH]; intros a; cbn [for_each].
  - apply respects_ret.
  - apply respects_bind; [apply Hbody|apply IH].
Qed.

Lemma respects_epoch lr decay penalty device train_loader val_loader i p :
  respects (epoch lr decay penalty device train_loader val_loader i p).
Proof.
  unfold epoch.
  respects_step; [apply respects_get_self|].
  respects_step; [apply respects_batches|].
  respects_step; [apply respects_train_batches|].
  respects_step; [apply respects_lift_result|].
  respects_step; [apply respects_batches|].
  respects_step; [apply respects_validate_batches|].
  respects_all.
Qed.

Lemma respects_fit_from_dataset X X_tensor y_tensor lr decay n_epochs
    train_frac l2 penalty batch_size initialize verbose validation device :
  respects (fit_from_dataset X X_tensor y_tensor lr decay n_epochs train_frac
              l2 penalty batch_size initialize verbose validation device).
Proof.
  unfold fit_from_dataset.
  respects_step; [apply respects_get_self|].
  respects_step; [apply respects_lift_result|].
  respects_step.
  { destruct validation as [[[X_val|] [t_val|]] [Xd_val|]];
      try solve [respects_all];
      cbv zeta;
      (respects_step; [apply respects_random_split|]); respects_all. }
  respects_step; [apply respects_the_model|].
  cbv zeta.
  respects_step.
  { destruct initialize; respects_all. }
  respects_step.
  { apply respects_for_each. intros. apply respects_epoch. }
  respects_all.
Qed.

(** Whatever [cuda.is_available()] says, the device is the CPU. *)
Lemma device_is_cpu (available : bool) :
  (if available then "cpu"%string else "cpu"%string) = "cpu"%string.
Proof. destruct available; reflexivity. Qed.

(** Before the seed is set only the object counts. *)
Definition respects_object {A} (c : M A) : Prop :=
  forall s1 s2, self s1 = self s2 ->
    fst (c s1) = fst (c s2) /\ self (snd (c s1)) = self (snd (c s2)).

Lemma respects_object_bind {A B} (c : M A) (k : A -> M B) :
  respects_object c -> (forall a, respects_object (k a)) ->
  respects_object (bind c k).
Proof.
  intros Hc Hk s1 s2 H. unfold bind.
  destruct (Hc s1 s2 H) as [Hr Hs]. rewrite Hr.
  destruct (fst (c s2)) as [a|e].
  - now apply Hk.
  - split; [reflexivity|exact Hs].
Qed.

Lemma respects_object_get_self : respects_object get_self.
Proof. intros s1 s2 H. split; [simpl; now rewrite H|exact H]. Qed.

Lemma respects_object_lift_result {A} (r : result A) :
  respects_object (lift_result r).
Proof. intros s1 s2 H. split; [reflexivity|exact H]. Qed.

(** Setting the seed makes two worlds with one object agree. *)
Lemma respects_object_seeded {A} (seed : nat) (c : M A) :
  respects c ->
  respects_object (bind (torch_manual_seed seed) (fun _ => c)).
Proof.
  intros Hc s1 s2 H. unfold bind, torch_manual_seed. cbn [fst snd].
  destruct (Hc (mk_World (self s1) (manual_seed seed)
                         (cuda_is_available s1) (warnings_shown s1))
               (mk_World (self s2) (manual_seed seed)
                         (cuda_is_available s2) (warnings_shown s2)))
    as [Hr [Hs _]].
  - split; [exact H|reflexivity].
  - split; assumption.
Qed.

(** The availability of CUDA is read and then plays no part. *)
Lemma respects_object_cuda {A} (k : bool -> M A) (c : M A) :
  (forall available, k available = c) ->
  respects_object c ->
  respects_object (bind cuda_available k).
Proof.
  intros Hk Hc s1 s2 H. unfold bind, cuda_available. cbn [fst snd].
  rewrite !Hk. now apply Hc.
Qed.

Lemma respects_object_fit X t X_d lr decay n_epochs train_frac l2 penalty
    batch_size initialize verbose validation :
  respects_object
    (fit_diffeomorphism_model X t X_d lr decay n_epochs train_frac l2
       penalty batch_size initialize verbose validation).
Proof.
  unfold fit_diffeomorphism_model.
  apply respects_object_bind; [apply respects_object_get_self|intros k].
  apply respects_object_bind; [apply respects_object_lift_result|intros p].
  apply respects_object_bind; [apply respects_object_lift_result|intros y].
  eapply respects_object_cuda.
  - intros available. cbv zeta. rewrite device_is_cpu. reflexivity.
  - apply respects_object_seeded.
    apply respects_bind; [apply respects_lift_result|intros X_tensor].
    apply respects_fit_from_dataset.
Qed.

End Determinism.

End Fit.

(** ** Scalars and libraries to run the code on *)

(** IEEE binary64, as numpy and the double-precision network compute. *)
Module Binary64.
Import PrimFloat.

(** [power(x, k)]: 1 at [k = 0] whatever [x] is and [x] at [k = 1], as
    numpy gives them; beyond, the repeated product, which can differ from
    numpy's [pow] in the last bit. *)
Fixpoint power (x : float) (k : nat) : float :=
  match k with
  | 0 => 1%float
  | S k' => (x * power x k')%float
  end.

Definition relu (x : float) : float :=
  if PrimFloat.leb x 0 then 0%float else x.

Definition nonzero (x : float) : bool := negb (PrimFloat.eqb x 0).

#[export] Instance float_scalar : Scalar float := {
  szero := 0%float;
  sone := 1%float;
  sadd := PrimFloat.add;
  ssub := PrimFloat.sub;
  smul := PrimFloat.mul;
  sdiv := PrimFloat.div;
  spower := power;
  srelu := relu;
  snonzero := nonzero;
  sleb := PrimFloat.leb
}.

End Binary64.

(** The real numbers, where [exp] and [log] are exact. *)
Module RealNumbers.
Import Reals.

Definition nonzero (x : R) : bool :=
  if Req_dec_T x 0%R then false else true.

Definition leb (x y : R) : bool :=
  if Rle_dec x y then true else false.

#[export] Instance real_scalar : Scalar R := {
  szero := 0%R;
  sone := 1%R;
  sadd := Rplus;
  ssub := Rminus;
  smul := Rmult;
  sdiv := Rdiv;
  spower := pow;
  srelu := Rmax 0%R;
  snonzero := nonzero;
  sleb := leb
}.

#[export] Instance real_explog : ExpLog R := {
  sexp := exp;
  slog := ln
}.

End RealNumbers.

(** Libraries for running examples. *)
Module Examples.
Import Numpy Torch.

Section Generic.
Context {S : Type} {scalar : Scalar S}.

(** A generator that counts its draws and makes every draw zero: weights
    and biases of zeros, nothing dropped, the identity permutation. *)
Definition zero_weights (i o : nat) : ndarray S * list S :=
  (mk_ndarray o i (repeat (repeat szero i) o), repeat szero o).

Definition counting_generator : TorchRandom S := {|
  Generator := nat;
  manual_seed := fun seed => seed;
  linear_reset_parameters := fun g i o => (zero_weights i o, Datatypes.S g);
  dropout_train := fun g _ x => (x, Datatypes.S g);
  xavier_normal_ := fun g w => (w, Datatypes.S g);
  randperm := fun g n => (seq 0 n, Datatypes.S g)
|}.

(** [linalg.eig] on a diagonal matrix: the eigenvalues are the diagonal
    entries in order, the eigenvectors the unit vectors. *)
Definition diagonal (a : ndarray S) : list S :=
  map (fun i => nth i (nth i (rows a) []) szero) (seq 0 (nrows a)).

Definition unit_vectors (n : nat) : ndarray (S * S) :=
  mk_ndarray n n
    (map (fun i =>
            map (fun j => if i =? j then (sone, szero) else (szero, szero))
                (seq 0 n))
         (seq 0 n)).

Definition eig_diagonal (a : ndarray S) : list (S * S) * ndarray (S * S) :=
  (map (fun x => (x, szero)) (diagonal a), unit_vectors (nrows a)).

Lemma eig_diagonal_shape (a : ndarray S) :
  nrows a = ncols a ->
  length (fst (eig_diagonal a)) = nrows a /\
  wf (snd (eig_diagonal a)) /\
  nrows (snd (eig_diagonal a)) = nrows a /\
  ncols (snd (eig_diagonal a)) = nrows a.
Proof.
  intros _. unfold eig_diagonal, diagonal, unit_vectors, wf. simpl.
  rewrite !length_map, !length_seq. repeat split.
  apply Forall_map, Forall_forall. intros i _.
  now rewrite length_map, length_seq.
Qed.

Definition diagonal_linalg : Linalg S := {|
  eig := eig_diagonal;
  eig_shape := eig_diagonal_shape
|}.

End Generic.

End Examples.

(** ** The specification, claim by claim *)

Module Spec.
Import Numpy Torch Koopman.

Section Network.
Context {S : Type} {scalar : Scalar S} {random : TorchRandom S}.

(** The linear layers that feed a rectified-linear activation, as
    (input width, output width). *)
Fixpoint activated_blocks (ks : list (string * LayerKind (S := S)))
  : list (nat * nat) :=
  match ks with
  | [] => []
  | (_, KLinear i o) :: (((_, KReLU) :: _) as t) => (i, o) :: activated_blocks t
  | _ :: t => activated_blocks t
  end.

Definition dropouts (ks : list (string * LayerKind (S := S))) : list S :=
  flat_map (fun kv => match snd kv with KDropout p => [p] | _ => [] end) ks.

Lemma hidden_blocks_activated nh H n p : forall k a,
  activated_blocks (flat_map (hidden_block nh H p) (seq a k)
                    ++ [("output"%string, KLinear H n)]) =
  repeat (H, H) k.
Proof.
  induction k as [|k IH]; intros a; [reflexivity|].
  cbn [seq flat_map hidden_block app].
  destruct (a <? nh - 1); cbn [app activated_blocks];
    rewrite IH; reflexivity.
Qed.

Lemma hidden_blocks_dropouts nh H p : forall k a,
  length (dropouts (flat_map (hidden_block nh H p) (seq a k))) =
  length (filter (fun ii => ii <? nh - 1) (seq a k)).
Proof.
  induction k as [|k IH]; intros a; [reflexivity|].
  cbn [seq flat_map filter]. unfold dropouts in *.
  rewrite flat_map_app, length_app, IH.
  unfold hidden_block.
  destruct (a <? nh - 1); reflexivity.
Qed.

Lemma count_below m : forall k a,
  length (filter (fun ii => ii <? m) (seq a k)) =
  Nat.min (a + k) m - Nat.min a m.
Proof.
  induction k as [|k IH]; intros a; cbn [seq filter].
  - cbn [length]. rewrite Nat.add_0_r. lia.
  - destruct (Nat.ltb_spec a m); cbn [length]; rewrite IH; lia.
Qed.

(** C7 (as the code has it): build_diffeomorphism_model makes a network
    with an input block Linear(2n, layer_width) + ReLU, then n_hidden_layers
    blocks Linear(layer_width, layer_width) + ReLU with a dropout after each
    of them but the last, then the layer Linear(layer_width, n) with no
    activation; so n_hidden_layers + 1 activated blocks of width layer_width
    and n_hidden_layers - 1 dropouts.  The widths fit from 2n to n, and the
    parameters are in double precision. *)
Theorem build_architecture (n_hidden_layers layer_width batch_size : nat)
    (dropout_prob : S) (s0 : World) :
  self_A_cl_is_tensor (self s0) = false ->
  dropout_ok dropout_prob ->
  exists m s,
    build_diffeomorphism_model n_hidden_layers layer_width batch_size
                               dropout_prob s0 = (Ok tt, s) /\
    self_diffeomorphism_model (self s) = Some m /\
    architecture m =
      built_architecture (self_n (self s0)) n_hidden_layers layer_width
                         dropout_prob /\
    param_dtype m = Float64 /\
    activated_blocks (architecture m) =
      (2 * self_n (self s0), layer_width)
      :: repeat (layer_width, layer_width) n_hidden_layers /\
    length (dropouts (architecture m)) = n_hidden_layers - 1 /\
    dims_chain (2 * self_n (self s0)) (architecture m) =
      Some (self_n (self s0)).
Proof.
  intros Hnt Hp.
  destruct (build_spec n_hidden_layers layer_width batch_size dropout_prob
                       s0 Hnt Hp) as (m & g & E & Harch & Hdt & _).
  exists m. eexists. split; [exact E|].
  split; [reflexivity|]. split; [exact Harch|]. split; [exact Hdt|].
  rewrite Harch. unfold built_architecture. split; [|split].
  - cbn [app activated_blocks]. now rewrite hidden_blocks_activated.
  - unfold dropouts. rewrite !flat_map_app, !length_app. simpl.
    fold (dropouts (flat_map (hidden_block n_hidden_layers layer_width
                                dropout_prob) (seq 0 n_hidden_layers))).
    rewrite hidden_blocks_dropouts, count_below. lia.
  - apply built_architecture_chain.
Qed.

(** C6: with a built network, diffeomorphism(q, q_d) returns q itself.  The
    network is switched to evaluation mode and called, its prediction is
    dropped, nothing is drawn from the generator. *)
Theorem diffeomorphism_returns_q (n_hidden_layers layer_width batch_size : nat)
    (dropout_prob : S) (s0 : World) (q q_d : ndarray S) :
  self_A_cl_is_tensor (self s0) = false ->
  dropout_ok dropout_prob ->
  wf q ->
  nrows q = self_n (self s0) -> nrows q_d = self_n (self s0) ->
  ncols q_d = ncols q ->
  exists m s,
    build_diffeomorphism_model n_hidden_layers layer_width batch_size
                               dropout_prob s0 = (Ok tt, s) /\
    self_diffeomorphism_model (self s) = Some m /\
    diffeomorphism q q_d s = (Ok q, in_eval_mode m s).
Proof.
  intros Hnt Hp Hq Hn Hdn Hc.
  destruct (build_spec n_hidden_layers layer_width batch_size dropout_prob
                       s0 Hnt Hp) as (m & g & E & Harch & Hdt & _).
  exists m. eexists. split; [exact E|]. split; [reflexivity|].
  apply (diffeomorphism_built q q_d _ m n_hidden_layers layer_width
           dropout_prob); auto.
Qed.

(** C9 (as the code has it): without a network the composed basis fails on
    every call, and lift fails as soon as the trajectory has a sample; once
    the basis is constructed the failure is the AttributeError of
    [self.diffeomorphism_model.eval()], for the basis and for lift on
    well-shaped matrices with a sample, and the state is as before. *)
Theorem lift_needs_the_model (s : World) :
  self_diffeomorphism_model (self s) = None ->
  (forall q t, is_err (fst (basis q t s)) = true) /\
  (forall q q_d, 1 <= ncols q -> is_err (fst (lift q q_d s)) = true) /\
  (self_basis (self s) = Some BasisLambda ->
   forall q t, basis q t s = (Err AttributeError, s)) /\
  (self_basis (self s) = Some BasisLambda ->
   forall q q_d, wf q -> wf q_d ->
     nrows q = self_n (self s) -> nrows q_d = self_n (self s) ->
     1 <= ncols q -> ncols q <= ncols q_d ->
     lift q q_d s = (Err AttributeError, s)).
Proof.
  intros Hm.
  assert (Hd : forall q t, diffeomorphism q t s = (Err AttributeError, s)).
  { intros q t. unfold diffeomorphism.
    erewrite bind_ok by reflexivity. cbv beta zeta. now rewrite Hm. }
  assert (Hb : forall q t, is_err (fst (basis q t s)) = true).
  { intros q t. unfold basis.
    erewrite bind_ok by reflexivity. cbv beta zeta.
    destruct (self_basis (self s)) as [[]|]; [|reflexivity].
    erewrite bind_err by apply Hd. reflexivity. }
  split; [exact Hb|]. split.
  - intros q q_d Hn.
    assert (Hs : forall ii, exists e s',
               lift_sample q q_d ii s = (Err e, s')).
    { intros ii. unfold lift_sample.
      erewrite bind_ok by reflexivity. cbv beta zeta.
      destruct (rbind (column q ii) (reshape_n1 (self_n (self s))))
        as [qi|e].
      2: { erewrite bind_err by reflexivity. eauto. }
      erewrite bind_ok by reflexivity. cbv beta zeta.
      destruct (rbind (column q_d ii) (reshape_n1 (self_n (self s))))
        as [qdi|e].
      2: { erewrite bind_err by reflexivity. eauto. }
      erewrite bind_ok by reflexivity. cbv beta zeta.
      specialize (Hb qi qdi).
      destruct (basis qi qdi s) as [[v|e] s']; [discriminate|eauto]. }
    unfold lift. destruct (ncols q) as [|k]; [lia|].
    cbn [seq comprehension].
    destruct (Hs 0) as (e & s' & E).
    erewrite bind_err; [reflexivity|].
    erewrite bind_err by exact E. reflexivity.
  - assert (Hba : self_basis (self s) = Some BasisLambda ->
                  forall q t, basis q t s = (Err AttributeError, s)).
    { intros Hbasis q t. unfold basis.
      erewrite bind_ok by reflexivity. cbv beta zeta. rewrite Hbasis.
      erewrite bind_err by apply Hd. reflexivity. }
    split; [exact Hba|].
    intros Hbasis q q_d Hq Hqd Hn Hdn H1 Hc. unfold lift.
    destruct (ncols q) as [|k] eqn:Ek; [lia|].
    cbn [seq comprehension].
    erewrite bind_err; [reflexivity|].
    erewrite bind_err; [reflexivity|].
    unfold lift_sample.
    erewrite bind_ok by reflexivity. cbv beta zeta.
    destruct (column_nth q 0 Hq) as (Eq & Lq); [lia|].
    destruct (column_nth q_d 0 Hqd) as (Eqd & Lqd); [lia|].
    erewrite bind_ok.
    2: { unfold lift_result. rewrite Eq. cbn [rbind].
         rewrite reshape_n1_col by congruence. reflexivity. }
    cbv beta zeta.
    erewrite bind_ok.
    2: { unfold lift_result. rewrite Eqd. cbn [rbind].
         rewrite reshape_n1_col by congruence. reflexivity. }
    cbv beta zeta. now apply Hba.
Qed.

End Network.

Section Basis.
Context {S : Type} {scalar : Scalar S} {explog : ExpLog S}
        {random : TorchRandom S} {linalg : Linalg S}.

Lemma monomials_length (pw : list (list nat)) (v : list S) :
  length (monomials pw v) = length pw.
Proof. unfold monomials. apply length_map. Qed.

Lemma nth_map_seq {A} (f : nat -> A) (d : A) (k ii : nat) :
  ii < k -> nth ii (map f (seq 0 k)) d = f ii.
Proof.
  intros Hii.
  rewrite (nth_indep _ d (f 0)) by (now rewrite length_map, length_seq).
  rewrite map_nth, seq_nth by assumption. reflexivity.
Qed.

(** C1 (as the code has it): once the network is built and the basis
    constructed, lift(q, q_d) on n x Nt matrices returns an array with one
    ROW per sample, Nt rows of Nlift entries, and row ii is what the
    composed basis gives on column ii alone, from the same object state,
    whatever the other columns hold. *)
Theorem lift_is_a_per_sample_map
    (n_hidden_layers layer_width batch_size : nat) (dropout_prob : S)
    (ub lb : list S) (s0 : World) (q q_d : ndarray S) :
  self_A_cl_is_tensor (self s0) = false ->
  dropout_ok dropout_prob ->
  nrows (self_A_cl (self s0)) = self_n (self s0) ->
  ncols (self_A_cl (self s0)) = self_n (self s0) ->
  length ub = self_n (self s0) -> length lb = self_n (self s0) ->
  wf q -> wf q_d ->
  nrows q = self_n (self s0) -> nrows q_d = self_n (self s0) ->
  ncols q_d = ncols q ->
  exists m s res s' Nlift,
    setup n_hidden_layers layer_width batch_size dropout_prob ub lb s0 =
      (Ok tt, s) /\
    self_Nlift (self s) = Some Nlift /\
    Nlift = (self_max_power (self s0) + 1) ^ self_n (self s0) /\
    lift q q_d s = (Ok res, s') /\
    nrows res = ncols q /\
    (1 <= ncols q -> ncols res = Nlift) /\
    Forall (fun r => length r = Nlift) (rows res) /\
    forall ii, ii < ncols q ->
      exists qi qdi,
        rbind (column q ii) (reshape_n1 (self_n (self s0))) = Ok qi /\
        rbind (column q_d ii) (reshape_n1 (self_n (self s0))) = Ok qdi /\
        basis qi qdi s = (Ok (nth ii (rows res) []), in_eval_mode m s).
Proof.
  intros Hnt Hp Hr Hc Hu Hl Hq Hqd Hn Hdn Hdc.
  destruct (setup_spec n_hidden_layers layer_width batch_size dropout_prob
              ub lb s0 Hnt Hp Hr Hc Hu Hl)
    as (m & s & Es & Hready & Hsn & Hsmp & _ & HN & _).
  destruct (lift_spec s _ _ m q q_d Hready Hq Hqd) as (s' & El);
    try congruence.
  rewrite Hsn, Hsmp in El.
  set (n := self_n (self s0)) in *.
  set (mp := self_max_power (self s0)) in *.
  set (pw := Powers.powers n mp) in *.
  set (w := kept_eigenvectors (self s0)) in *.
  set (sc := map2 ssub ub lb) in *.
  exists m, s. eexists. exists s', (length pw).
  split; [exact Es|]. split; [exact HN|].
  split; [apply Powers.powers_count|].
  split; [exact El|].
  split; [|split; [|split]].
  - simpl. now rewrite length_map, length_seq.
  - intros Hk. simpl. destruct (ncols q) as [|k]; [lia|].
    simpl. unfold basis_value. apply monomials_length.
  - simpl. apply Forall_map, Forall_forall. intros ii _.
    unfold basis_value. apply monomials_length.
  - intros ii Hii.
    destruct (column_nth q ii Hq Hii) as (Eq & Lq).
    destruct (column_nth q_d ii Hqd) as (Eqd & Lqd); [lia|].
    exists (col_array (nth ii (columns q) [])),
           (col_array (nth ii (columns q_d) [])).
    split; [|split].
    + rewrite Eq. cbn [rbind]. apply reshape_n1_col. congruence.
    + rewrite Eqd. cbn [rbind]. apply reshape_n1_col. congruence.
    + cbn [rows array_of_rows]. rewrite nth_map_seq by assumption.
      rewrite (basis_spec s w sc m); try assumption.
      * now rewrite Hsn, Hsmp.
      * congruence.
      * simpl. congruence.
      * reflexivity.
Qed.

(** C2: for n >= 1 the rows of [powers] are exactly the length-n sequences
    over 0..max_power, each once, in lexicographic order, and Nlift is their
    number (max_power + 1)^n; n = 2, max_power = 1 gives the four rows
    (0,0), (0,1), (1,0), (1,1). *)
Theorem powers_are_the_sequences (s : World) :
  1 <= self_n (self s) ->
  nrows (self_A_cl (self s)) = self_n (self s) ->
  ncols (self_A_cl (self s)) = self_n (self s) ->
  let n := self_n (self s) in
  let max_power := self_max_power (self s) in
  let pw := Powers.powers n max_power in
  pw = Powers.sequences (Powers.p max_power) n /\
  NoDup pw /\
  (forall row, In row pw <->
               length row = n /\ Forall (fun x => x <= max_power) row) /\
  length pw = (max_power + 1) ^ n /\
  (exists f s',
     construct_linear_eigfuncs s = (Ok f, s') /\
     closure_powers f = mk_ndarray (length pw) n pw /\
     self_Nlift (self s') = Some (length pw)) /\
  Powers.powers 2 1 = [[0; 0]; [0; 1]; [1; 0]; [1; 1]] /\
  length (Powers.powers 2 1) = 4.
Proof.
  intros Hn Hr Hc n max_power pw.
  split; [apply Powers.powers_sequences|].
  split; [apply Powers.powers_NoDup|].
  split; [apply Powers.powers_In|].
  split; [apply Powers.powers_count|].
  split; [|split; reflexivity].
  exists (linear_eigfuncs_of s), (after_linear_eigfuncs s).
  split; [now apply construct_linear_eigfuncs_spec|].
  split; reflexivity.
Qed.

(** Lambda in general: one entry per row of [powers], in the order of the
    rows, each the logarithm of the product of the exponentiated
    eigenvalues raised to the powers of its row. *)
Lemma Lambda_rows (s : World) :
  nrows (self_A_cl (self s)) = self_n (self s) ->
  ncols (self_A_cl (self s)) = self_n (self s) ->
  exists f s' Lambda,
    construct_linear_eigfuncs s = (Ok f, s') /\
    self_Lambda (self s') = Some Lambda /\
    Lambda = map (eigenvalue_of_row (kept_eigenvalues (self s)))
                 (rows (closure_powers f)) /\
    length Lambda = nrows (closure_powers f) /\
    forall i, i < length Lambda ->
      nth i Lambda szero =
      eigenvalue_of_row (kept_eigenvalues (self s))
                        (nth i (rows (closure_powers f)) []).
Proof.
  intros Hr Hc.
  exists (linear_eigfuncs_of s), (after_linear_eigfuncs s). eexists.
  split; [now apply construct_linear_eigfuncs_spec|].
  split; [reflexivity|]. split; [reflexivity|]. split.
  - simpl. now rewrite length_map.
  - intros i Hi. rewrite length_map in Hi.
    rewrite (nth_indep _ szero
               (eigenvalue_of_row (kept_eigenvalues (self s)) []))
      by (now rewrite length_map).
    apply (map_nth (eigenvalue_of_row (kept_eigenvalues (self s)))).
Qed.

(** construct_linear_eigfuncs shows no warning, whatever it computes. *)
Lemma construct_linear_eigfuncs_silent (s : World) :
  warnings_shown (snd (construct_linear_eigfuncs s)) = warnings_shown s.
Proof.
  unfold construct_linear_eigfuncs, bind, get_self, raise, lift_result,
    modify_self, ret.
  cbn [fst snd].
  destruct (negb _); [reflexivity|]. cbn [fst snd].
  destruct (eigfunc_lin _ _); [|reflexivity]. cbn [fst snd].
  destruct (eigenvalues_of_powers _ _ _); reflexivity.
Qed.

End Basis.

Section Fitting.
Import Fit.
Context {S : Type} {scalar : Scalar S} {random : TorchRandom S}
        {differentiate : Differentiate S} {autograd : Autograd S}.

(** C10: two calls of fit_diffeomorphism_model with the same arguments on
    the same object (the same network parameters among the rest) return the
    same result and leave the same object, whatever state torch's generator
    was in, whether CUDA is available, and whatever was shown before: the
    seed is set to 42 before anything is drawn, and the device is the CPU
    either way. *)
Theorem fit_is_deterministic
    (X : list (ndarray S)) (t : ndarray S) (X_d : list (ndarray S))
    (learning_rate learning_decay : S) (n_epochs : nat)
    (train_frac l2 jacobian_penalty : S) (batch_size : nat)
    (initialize verbose : bool) (validation : ValidationSet)
    (k : KoopmanEigenfunctions) (g1 g2 : Generator) (cuda1 cuda2 : bool)
    (shown1 shown2 : list string) :
  let fit :=
    fit_diffeomorphism_model X t X_d learning_rate learning_decay n_epochs
      train_frac l2 jacobian_penalty batch_size initialize verbose
      validation in
  let first := fit (mk_World k g1 cuda1 shown1) in
  let second := fit (mk_World k g2 cuda2 shown2) in
  fst first = fst second /\
  self_diffeomorphism_model (self (snd first)) =
    self_diffeomorphism_model (self (snd second)) /\
  self (snd first) = self (snd second) /\
  (if cuda1 then "cpu"%string else "cpu"%string) =
    (if cuda2 then "cpu"%string else "cpu"%string).
Proof.
  intros fit first second.
  destruct (respects_object_fit X t X_d learning_rate learning_decay
              n_epochs train_frac l2 jacobian_penalty batch_size initialize
              verbose validation
              (mk_World k g1 cuda1 shown1) (mk_World k g2 cuda2 shown2)
              eq_refl) as [Hr Hs].
  split; [exact Hr|]. split; [|split; [exact Hs|]].
  - unfold first, second, fit. now rewrite Hs.
  - now rewrite !device_is_cpu.
Qed.

End Fitting.

End Spec.

(** ** Runs on binary64 *)

Module Binary64Runs.
Import PrimFloat.
Import Numpy Torch Koopman Binary64 Spec.

Section OnBinary64.
Context {explog : ExpLog PrimFloat.float} {random : TorchRandom PrimFloat.float}.
#[local] Existing Instance Examples.diagonal_linalg.

(** [A_cl = diag([-1, -2])], [BK = zeros((2, 1))] *)
Definition A_diag : ndarray PrimFloat.float :=
  mk_ndarray 2 2 [[(-1)%float; 0%float]; [0%float; (-2)%float]].

Definition BK_zero : ndarray PrimFloat.float :=
  mk_ndarray 2 1 [[0%float]; [0%float]].

(** [KoopmanEigenfunctions(n=2, max_power=1, A_cl, BK)] in a fresh
    interpreter. *)
Definition fresh (g : Generator) : World :=
  mk_World (init 2 1 A_diag BK_zero) g false [].

(** [build_diffeomorphism_model()] with its default arguments, then
    [construct_basis(ub=[1, 1], lb=[-1, -1])]. *)
Definition default_setup : M unit :=
  setup 2 50 64 0x1.999999999999ap-4%float
        [1%float; 1%float] [(-1)%float; (-1)%float].

(** [q = q_d = [[0], [0]]] *)
Definition origin : ndarray PrimFloat.float :=
  mk_ndarray 2 1 [[0%float]; [0%float]].

(** Three samples. *)
Definition three_samples : ndarray PrimFloat.float :=
  mk_ndarray 2 3 [[0%float; 1%float; 2%float];
                  [0%float; 3%float; 0.5%float]].

Lemma run_at_origin (g : Generator) :
  fst (bind default_setup (fun _ => lift origin origin) (fresh g)) =
  Ok (mk_ndarray 1 4 [[1%float; 0%float; 0%float; 0%float]]).
Proof. vm_compute. reflexivity. Qed.

Lemma run_three_samples (g : Generator) :
  fst (bind default_setup (fun _ => lift three_samples three_samples)
            (fresh g)) =
  Ok (mk_ndarray 3 4
        [[1%float; 0%float; 0%float; 0%float];
         [1%float; 1.5%float; 0.5%float; 0.75%float];
         [1%float; 0.25%float; 1%float; 0.25%float]]).
Proof. vm_compute. reflexivity. Qed.

Lemma run_default_build (g : Generator) :
  option_map (fun m => activated_blocks (architecture m))
    (self_diffeomorphism_model
       (self (snd (build_diffeomorphism_model
                     2 50 64 0x1.999999999999ap-4%float (fresh g))))) =
  Some [(4, 50); (50, 50); (50, 50)].
Proof. vm_compute. reflexivity. Qed.

Lemma run_no_samples (g : Generator) :
  fst (lift (mk_ndarray 2 0 [[]; []]) (mk_ndarray 2 0 [[]; []]) (fresh g)) =
  Ok (mk_ndarray 0 0 []).
Proof. reflexivity. Qed.

End OnBinary64.

Lemma one_is_not_zero : 1%float <> 0%float.
Proof.
  intros E.
  assert (H : PrimFloat.eqb 1%float 0%float = PrimFloat.eqb 0%float 0%float)
    by (now rewrite E).
  vm_compute in H. discriminate.
Qed.

(** C4 (as the code has it): in the end-to-end scenario lift at the origin
    gives the row (1, 0, 0, 0): numpy's [power(0., 0)] is 1, so the basis
    function with all powers zero is 1 at the origin and the others are 0. *)
Theorem lift_at_the_origin (explog : ExpLog PrimFloat.float)
    (random : TorchRandom PrimFloat.float) (g : Generator) :
  fst (bind default_setup (fun _ => lift origin origin) (fresh g)) =
  Ok (mk_ndarray 1 4 [[1%float; 0%float; 0%float; 0%float]]).
Proof. apply run_at_origin. Qed.

(** C4 as stated fails: no exp, log or generator makes lift at the origin
    return four zeros. *)
Lemma lift_at_the_origin_is_not_zero :
  ~ exists (explog : ExpLog PrimFloat.float)
           (random : TorchRandom PrimFloat.float) (g : Generator)
           (res : ndarray PrimFloat.float),
      fst (bind default_setup (fun _ => lift origin origin) (fresh g)) =
        Ok res /\
      concat (rows res) = [0%float; 0%float; 0%float; 0%float].
Proof.
  intros (explog & random & g & res & E & Z).
  rewrite run_at_origin in E. inversion E; subst res.
  simpl in Z. apply one_is_not_zero. congruence.
Qed.

(** C1 as stated fails: on three samples the result is 3 x 4, one row per
    sample, not Nlift x Nt = 4 x 3. *)
Lemma lift_is_not_Nlift_by_Nt :
  ~ exists (explog : ExpLog PrimFloat.float)
           (random : TorchRandom PrimFloat.float) (g : Generator)
           (res : ndarray PrimFloat.float),
      fst (bind default_setup
                (fun _ => lift three_samples three_samples) (fresh g)) =
        Ok res /\
      nrows res = 4 /\ ncols res = 3.
Proof.
  intros (explog & random & g & res & E & Hr & Hc).
  rewrite run_three_samples in E. inversion E; subst res.
  simpl in Hr. discriminate.
Qed.

(** C7 as stated fails: the default call builds three activated blocks,
    one more than n_hidden_layers = 2. *)
Lemma build_has_one_more_block :
  ~ exists (random : TorchRandom PrimFloat.float) (g : Generator)
           (m : Sequential PrimFloat.float),
      self_diffeomorphism_model
        (self (snd (build_diffeomorphism_model
                      2 50 64 0x1.999999999999ap-4%float (fresh g)))) =
        Some m /\
      length (activated_blocks (architecture m)) = 2.
Proof.
  intros (random & g & m & E & H).
  pose proof (run_default_build g) as R. rewrite E in R. simpl in R.
  inversion R as [R']. rewrite R' in H. discriminate.
Qed.

(** C9 as stated fails: without a network, lift of a trajectory with no
    sample returns the empty array. *)
Lemma lift_of_no_sample_succeeds :
  ~ exists (random : TorchRandom PrimFloat.float) (g : Generator),
      is_err (fst (lift (mk_ndarray 2 0 [[]; []]) (mk_ndarray 2 0 [[]; []])
                        (fresh g))) = true.
Proof.
  intros (random & g & H). rewrite run_no_samples in H. discriminate.
Qed.

(** *** A matrix with complex eigenvalues *)

(** The rotation [[0, -1], [1, 0]]: its eigenvalues are i and -i. *)
Definition rotation : ndarray float :=
  mk_ndarray 2 2 [[0%float; (-1)%float]; [1%float; 0%float]].

Definition rows_eqb (a b : list (list float)) : bool :=
  (length a =? length b) &&
  forallb (fun p => (length (fst p) =? length (snd p)) &&
                    forallb (fun xy => PrimFloat.eqb (fst xy) (snd xy))
                            (combine (fst p) (snd p)))
          (combine a b).

Definition is_2x2 (a : ndarray float) (r : list (list float)) : bool :=
  (nrows a =? 2) && (ncols a =? 2) && rows_eqb (rows a) r.

(** [0.7071067811865475], the entry LAPACK returns for 1 / sqrt(2) *)
Definition h : float := 0x1.6a09e667f3bccp-1%float.

(** [linalg.eig] of the rotation and of its transpose, and of diagonal
    matrices: eigenvalues [i, -i], unit eigenvectors. *)
Definition eig_rotation (a : ndarray float)
  : list (float * float) * ndarray (float * float) :=
  if is_2x2 a (rows rotation)
  then ([(0, 1); (0, -1)]%float,
        mk_ndarray 2 2 [[(h, 0); (h, 0)]; [(0, - h); (0, h)]]%float)
  else if is_2x2 a (rows (transpose rotation))
  then ([(0, 1); (0, -1)]%float,
        mk_ndarray 2 2 [[(h, 0); (h, 0)]; [(0, h); (0, - h)]]%float)
  else Examples.eig_diagonal a.

Lemma eig_rotation_shape (a : ndarray float) :
  nrows a = ncols a ->
  length (fst (eig_rotation a)) = nrows a /\
  wf (snd (eig_rotation a)) /\
  nrows (snd (eig_rotation a)) = nrows a /\
  ncols (snd (eig_rotation a)) = nrows a.
Proof.
  intros Hsq. unfold eig_rotation, is_2x2.
  destruct (Nat.eqb_spec (nrows a) 2) as [E|_];
    [|now apply Examples.eig_diagonal_shape].
  cbn [andb].
  destruct (ncols a =? 2); [|now apply Examples.eig_diagonal_shape].
  cbn [andb].
  assert (Hwf : forall r : list (list (float * float)),
            length r = 2 -> Forall (fun x => length x = 2) r ->
            wf (mk_ndarray 2 2 r)) by (intros r H1 H2; split; assumption).
  destruct (rows_eqb (rows a) (rows rotation)).
  - rewrite E. cbn [fst snd length nrows ncols].
    repeat split; repeat constructor.
  - destruct (rows_eqb (rows a) (rows (transpose rotation)));
      [|now apply Examples.eig_diagonal_shape].
    rewrite E. cbn [fst snd length nrows ncols].
    repeat split; repeat constructor.
Qed.

Definition rotation_linalg : Linalg float := {|
  eig := eig_rotation;
  eig_shape := eig_rotation_shape
|}.

(** C5 (what the code does): construct_linear_eigfuncs shows no warning on
    any input: [Warning("...")] builds an exception object and drops it.
    On the rotation, whose eigenvalues are i and -i, the call succeeds,
    keeps the real parts (eigenvalues 0, 0) and leaves the list of shown
    warnings empty. *)
Theorem complex_parts_are_dropped_silently :
  (forall (S : Type) (scalar : Scalar S) (explog : ExpLog S)
          (random : TorchRandom S) (linalg : Linalg S) (s : World),
     warnings_shown (snd (construct_linear_eigfuncs s)) = warnings_shown s) /\
  (forall (explog : ExpLog float) (random : TorchRandom float)
          (g : Generator),
     let s := mk_World (init 2 1 rotation BK_zero) g false [] in
     let run := construct_linear_eigfuncs (linalg := rotation_linalg) s in
     any_iscomplex (fst (eig_rotation rotation)) = true /\
     option_map closure_w
       (match fst run with Ok f => Some f | Err _ => None end) =
       Some (mk_ndarray 2 2 [[h; h]; [0%float; 0%float]]) /\
     kept_eigenvalues (linalg := rotation_linalg) (self s) =
       [0%float; 0%float] /\
     warnings_shown (snd run) = []).
Proof.
  split.
  - intros. apply construct_linear_eigfuncs_silent.
  - intros explog random g s run.
    split; [reflexivity|]. split; [|split]; vm_compute; reflexivity.
Qed.

(** *** A validation set *)

Section Validation.
Import Fit.

(** Differences of consecutive samples over differences of times, the
    last one repeated: a derivative to run examples with. *)
Fixpoint difference_quotients (xs : list (list float)) (ts : list float)
  : list (list float) :=
  match xs, ts with
  | x0 :: ((x1 :: _) as xs'), t0 :: ((t1 :: _) as ts') =>
      Numpy.map2 (fun a b => ((b - a) / (t1 - t0))%float) x0 x1
      :: difference_quotients xs' ts'
  | _, _ => []
  end.

Definition forward_differences (xs : ndarray float) (ts : list float)
  : ndarray float :=
  let q := difference_quotients (rows xs) ts in
  mk_ndarray (nrows xs) (ncols xs)
    (q ++ match rev q with [] => [] | l :: _ => [l] end).

Definition forward_difference : Differentiate float :=
  {| differentiate_vec := forward_differences |}.

(** One trajectory of three samples of two states, its times, and two
    desired trajectories that end at the origin. *)
Definition X_val : list (ndarray float) :=
  [mk_ndarray 3 2 [[1; 2]; [2; 4]; [3; 6]]%float].

Definition t_val : ndarray float := mk_ndarray 1 3 [[0; 1; 2]%float].

Definition Xd_val : list (ndarray float) :=
  [mk_ndarray 3 2 [[5; 5]; [7; 7]; [0; 0]]%float].

Definition Xd_other : list (ndarray float) :=
  [mk_ndarray 3 2 [[9; 9]; [8; 8]; [0; 0]]%float].

(** C8 (what the code does): the validation input is assembled as
    (shifted state, state derivative, state derivative); the shifted desired
    state, which the training input has in the middle, is left out, so that
    two validation sets that differ in the desired trajectory give the same
    validation tensors.  The regression target is computed as for the
    training data. *)
Theorem validation_input_leaves_out_the_desired_state :
  validation_tensors (differentiate := forward_difference)
    A_diag X_val t_val Xd_val =
  Ok (mk_ndarray 3 6 [[1; 2; 1; 2; 1; 2];
                      [2; 4; 1; 2; 1; 2];
                      [3; 6; 1; 2; 1; 2]]%float,
      mk_ndarray 3 2 [[2; 6]; [3; 10]; [4; 14]]%float) /\
  training_tensors (differentiate := forward_difference)
    A_diag X_val t_val Xd_val =
  Ok (mk_ndarray 3 6 [[1; 2; 5; 5; 1; 2];
                      [2; 4; 7; 7; 1; 2];
                      [3; 6; 0; 0; 1; 2]]%float,
      mk_ndarray 3 2 [[2; 6]; [3; 10]; [4; 14]]%float) /\
  (forall differentiate : Differentiate float,
     validation_tensors A_diag X_val t_val Xd_val =
     validation_tensors A_diag X_val t_val Xd_other).
Proof.
  split; [vm_compute; reflexivity|].
  split; [vm_compute; reflexivity|].
  intros [derivative]. vm_compute.
  match goal with
  | |- context [derivative ?x ?ts] => generalize (derivative x ts)
  end.
  intros [dr dc drows].
  destruct dr as [|[|[|[|dr]]]]; destruct dc as [|[|[|dc]]];
    vm_compute; reflexivity.
Qed.

End Validation.

(** *** The hypotheses hold on concrete objects *)

Section Witnesses.
#[local] Existing Instance Examples.counting_generator.

Definition tenth : float := 0x1.999999999999ap-4%float.

(** The fresh object, with the counting generator at 0. *)
Definition fresh0 : World :=
  fresh (random := Examples.counting_generator) 0%nat.

Lemma three_samples_wf : wf three_samples.
Proof. split; [reflexivity|repeat constructor]. Qed.

Lemma tenth_ok : dropout_ok tenth.
Proof. reflexivity. Qed.

Lemma diffeomorphism_returns_q_witness :
  dropout_ok tenth /\ wf three_samples /\
  exists m s,
    build_diffeomorphism_model 2 50 64 tenth fresh0 = (Ok tt, s) /\
    self_diffeomorphism_model (self s) = Some m /\
    diffeomorphism three_samples three_samples s =
      (Ok three_samples, in_eval_mode m s).
Proof.
  split; [exact tenth_ok|]. split; [exact three_samples_wf|].
  apply (diffeomorphism_returns_q 2 50 64 tenth fresh0
           three_samples three_samples).
  - reflexivity.
  - exact tenth_ok.
  - exact three_samples_wf.
  - reflexivity.
  - reflexivity.
  - reflexivity.
Defined.

Lemma build_architecture_witness :
  dropout_ok tenth /\
  exists m s,
    build_diffeomorphism_model 2 50 64 tenth fresh0 = (Ok tt, s) /\
    self_diffeomorphism_model (self s) = Some m /\
    map fst (architecture m) =
      ["0"; "1"; "dense_1"; "relu_1"; "dropout_1"; "dense_2"; "relu_2";
       "output"]%string /\
    activated_blocks (architecture m) = [(4, 50); (50, 50); (50, 50)] /\
    length (dropouts (architecture m)) = 1 /\
    param_dtype m = Float64.
Proof.
  split; [exact tenth_ok|].
  destruct (build_architecture 2 50 64 tenth fresh0 eq_refl tenth_ok)
    as (m & s & E & Hm & Harch & Hdt & Hact & Hdrop & _).
  exists m, s. split; [exact E|]. split; [exact Hm|].
  split; [now rewrite Harch|]. split; [exact Hact|].
  split; [exact Hdrop|exact Hdt].
Defined.

End Witnesses.

End Binary64Runs.

(** ** Runs on the real numbers *)

Module RealRuns.
Import Reals Lra.
Import Numpy Torch Koopman RealNumbers Spec.
#[local] Existing Instance Examples.diagonal_linalg.

(** [A_cl = diag([-1, -2])], [BK = zeros((2, 1))] over the reals *)
Definition A_cl : ndarray R :=
  mk_ndarray 2 2 [[(-1)%R; 0%R]; [0%R; (-2)%R]].

Definition BK : ndarray R := mk_ndarray 2 1 [[0%R]; [0%R]].

Definition object : KoopmanEigenfunctions := init 2 1 A_cl BK.

Section AnyGenerator.
Context {random : TorchRandom R}.

Lemma Lambda_of_diagonal (g : Generator) (cuda : bool) (shown : list string) :
  self_Lambda (self (snd (construct_linear_eigfuncs
                            (mk_World object g cuda shown)))) =
  Some [0%R; (-2)%R; (-1)%R; (-3)%R].
Proof.
  rewrite construct_linear_eigfuncs_spec by reflexivity.
  simpl. repeat f_equal.
  - rewrite Rmult_1_r. apply ln_1.
  - rewrite Rmult_1_r, Rmult_1_l. apply ln_exp.
  - rewrite !Rmult_1_r. apply ln_exp.
  - rewrite !Rmult_1_r, <- exp_plus.
    replace (-1 + -2)%R with (-3)%R by lra. apply ln_exp.
Qed.

End AnyGenerator.

Section Witnesses.
#[local] Existing Instance Examples.counting_generator.

Definition start : World :=
  mk_World (random := Examples.counting_generator) object 0%nat false [].

Definition samples : ndarray R :=
  mk_ndarray 2 3 [[0%R; 1%R; 2%R]; [0%R; 3%R; (1 / 2)%R]].

Lemma samples_wf : wf samples.
Proof. split; [reflexivity|repeat constructor]. Qed.

Lemma real_tenth_ok : dropout_ok (1 / 10)%R.
Proof.
  unfold dropout_ok. simpl. unfold leb.
  destruct (Rle_dec 0 (1 / 10)) as [_|H]; [|exfalso; apply H; lra].
  destruct (Rle_dec (1 / 10) 1) as [_|H]; [|exfalso; apply H; lra].
  reflexivity.
Qed.

Lemma lift_is_a_per_sample_map_witness :
  dropout_ok (1 / 10)%R /\ wf samples /\
  exists s res s',
    setup 2 50 64 (1 / 10)%R [1%R; 1%R] [(-1)%R; (-1)%R] start = (Ok tt, s) /\
    self_Nlift (self s) = Some 4 /\
    lift samples samples s = (Ok res, s') /\
    nrows res = 3 /\ ncols res = 4.
Proof.
  split; [exact real_tenth_ok|]. split; [exact samples_wf|].
  destruct (lift_is_a_per_sample_map 2 50 64 (1 / 10)%R
              [1%R; 1%R] [(-1)%R; (-1)%R] start samples samples
              eq_refl real_tenth_ok eq_refl eq_refl eq_refl eq_refl
              samples_wf samples_wf eq_refl eq_refl eq_refl)
    as (m & s & res & s' & Nlift & Es & HN & HNv & El & Hr & Hc & _).
  exists s, res, s'. simpl in HNv. subst Nlift.
  split; [exact Es|]. split; [exact HN|]. split; [exact El|].
  split; [exact Hr|]. apply Hc. simpl. lia.
Defined.

(** The object with its basis constructed and no network built. *)
Definition basis_only : World :=
  after_construct_basis [1%R; 1%R] [(-1)%R; (-1)%R] start.

Lemma lift_needs_the_model_witness :
  construct_basis (Some [1%R; 1%R]) (Some [(-1)%R; (-1)%R]) start =
    (Ok tt, basis_only) /\
  self_diffeomorphism_model (self basis_only) = None /\
  self_basis (self basis_only) = Some BasisLambda /\
  is_err (fst (lift samples samples basis_only)) = true /\
  basis (col_array [1%R; 3%R]) (col_array [1%R; 3%R]) basis_only =
    (Err AttributeError, basis_only) /\
  lift samples samples basis_only = (Err AttributeError, basis_only).
Proof.
  split; [now apply construct_basis_spec|].
  split; [reflexivity|]. split; [reflexivity|].
  destruct (lift_needs_the_model basis_only eq_refl)
    as (_ & Hlift & Hbasis & Hraise).
  split; [apply Hlift; simpl; lia|].
  split; [now apply Hbasis|].
  apply Hraise; try reflexivity; try exact samples_wf; simpl; lia.
Defined.

Lemma powers_are_the_sequences_witness :
  1 <= self_n (self start) /\
  Powers.powers 2 1 = Powers.sequences (Powers.p 1) 2 /\
  exists f s',
    construct_linear_eigfuncs start = (Ok f, s') /\
    self_Nlift (self s') = Some 4.
Proof.
  split; [simpl; lia|].
  destruct (powers_are_the_sequences start) as (Hseq & _ & _ & _ & H & _).
  - simpl. lia.
  - reflexivity.
  - reflexivity.
  - split; [exact Hseq|].
    destruct H as (f & s' & E & _ & HN). exists f, s'. split; [exact E|].
    exact HN.
Defined.

End Witnesses.

(** C3: Lambda has one entry per row of [powers], in the order of the rows,
    and entry i is log(prod(exp(eigenvalue_j) ^ powers[i, j])) over the real
    parts of the eigenvalues of A_cl; for A_cl = diag([-1, -2]) and
    max_power = 1 the rows (0,0), (0,1), (1,0), (1,1) give
    Lambda = [0, -2, -1, -3] over the real numbers. *)
Theorem Lambda_is_row_aligned :
  (forall (S : Type) (scalar : Scalar S) (explog : ExpLog S)
          (random : TorchRandom S) (linalg : Linalg S) (s : World),
     nrows (self_A_cl (self s)) = self_n (self s) ->
     ncols (self_A_cl (self s)) = self_n (self s) ->
     exists f s' Lambda,
       construct_linear_eigfuncs s = (Ok f, s') /\
       self_Lambda (self s') = Some Lambda /\
       rows (closure_powers f) =
         Powers.powers (self_n (self s)) (self_max_power (self s)) /\
       length Lambda = length (rows (closure_powers f)) /\
       forall i, i < length Lambda ->
         nth i Lambda szero =
         eigenvalue_of_row (kept_eigenvalues (self s))
                           (nth i (rows (closure_powers f)) [])) /\
  (forall (random : TorchRandom R) (g : Generator) (cuda : bool)
          (shown : list string),
     let s' := snd (construct_linear_eigfuncs
                      (mk_World object g cuda shown)) in
     Powers.powers 2 1 = [[0; 0]; [0; 1]; [1; 0]; [1; 1]] /\
     kept_eigenvalues object = [(-1)%R; (-2)%R] /\
     self_Lambda (self s') = Some [0%R; (-2)%R; (-1)%R; (-3)%R]).
Proof.
  split.
  - intros S scalar explog random linalg s Hr Hc.
    destruct (Lambda_rows s Hr Hc) as (f & s' & L & E & HL & HLv & Hlen & Hi).
    exists f, s', L. split; [exact E|]. split; [exact HL|].
    rewrite (construct_linear_eigfuncs_spec s Hr Hc) in E.
    inversion E; subst f s'.
    split; [reflexivity|]. split; [|exact Hi].
    rewrite HLv. apply length_map.
  - intros random g cuda shown s'.
    split; [reflexivity|]. split; [reflexivity|].
    apply Lambda_of_diagonal.
Qed.

Lemma Lambda_is_row_aligned_witness :
  nrows (self_A_cl (self start)) = self_n (self start) /\
  exists f s' Lambda,
    construct_linear_eigfuncs start = (Ok f, s') /\
    self_Lambda (self s') = Some Lambda /\
    length Lambda = 4.
Proof.
  split; [reflexivity|].
  destruct (proj1 Lambda_is_row_aligned R _ _ Examples.counting_generator _
              start eq_refl eq_refl)
    as (f & s' & L & E & HL & Hrows & Hlen & _).
  exists f, s', L. split; [exact E|]. split; [exact HL|].
  rewrite Hlen, Hrows. reflexivity.
Defined.

End RealRuns.

(** ** The object in use: errors, side effects and closed forms *)

Module Behaviour.
Import Numpy Torch Koopman.

Section Running.
Context {S : Type} {scalar : Scalar S} {random : TorchRandom S}.

Lemma bind_is_err {A B} (c : M A) (k : A -> M B) (s : World) :
  (forall a s', is_err (fst (k a s')) = true) ->
  is_err (fst (bind c k s)) = true.
Proof.
  intros Hk. unfold bind. destruct (fst (c s)); [apply Hk|reflexivity].
Qed.

(** A comprehension whose elements leave the state as it is. *)
Lemma comprehension_fixed {A} (f : nat -> M A) (v : nat -> A) (t : World) :
  forall l,
  (forall ii, In ii l -> f ii t = (Ok (v ii), t)) ->
  comprehension l f t = (Ok (map v l), t).
Proof.
  induction l as [|ii l IH]; intros Hf; simpl; [reflexivity|].
  erewrite bind_ok by (apply Hf; now left).
  erewrite bind_ok by (apply IH; intros; apply Hf; now right).
  reflexivity.
Qed.

(** A comprehension stops at the first element that raises. *)
Lemma comprehension_raises {A} (f : nat -> M A) (v : nat -> A) (t t' : World)
    (e : PyError) :
  forall l1 ii l2,
  (forall j, In j l1 -> f j t = (Ok (v j), t)) ->
  f ii t = (Err e, t') ->
  comprehension (l1 ++ ii :: l2) f t = (Err e, t').
Proof.
  induction l1 as [|j l1 IH]; intros ii l2 Hf He; simpl.
  - erewrite bind_err by exact He. reflexivity.
  - erewrite bind_ok by (apply Hf; now left).
    erewrite bind_err; [reflexivity|].
    apply IH; [|exact He]. intros; apply Hf; now right.
Qed.

(** One element of lift's comprehension on an object that can lift. *)
Lemma lift_sample_ready (s : World) (w : ndarray S) (sc : list S)
    (m : Sequential S) (q q_d : ndarray S) (ii : nat) :
  ready s w sc m ->
  wf q -> wf q_d ->
  nrows q = self_n (self s) -> nrows q_d = self_n (self s) ->
  ii < ncols q -> ii < ncols q_d ->
  lift_sample q q_d ii s =
  (Ok (basis_value w sc
         (Powers.powers (self_n (self s)) (self_max_power (self s)))
         (nth ii (columns q) [])),
   in_eval_mode m s).
Proof.
  intros Hr Hq Hqd Hn Hdn Hii Hdii.
  destruct (column_nth q ii Hq Hii) as (Eq & Lq).
  destruct (column_nth q_d ii Hqd Hdii) as (Eqd & Lqd).
  unfold lift_sample.
  erewrite bind_ok by reflexivity. cbv beta zeta.
  erewrite bind_ok.
  2: { unfold lift_result. rewrite Eq. cbn [rbind].
       rewrite reshape_n1_col by congruence. reflexivity. }
  cbv beta zeta.
  erewrite bind_ok.
  2: { unfold lift_result. rewrite Eqd. cbn [rbind].
       rewrite reshape_n1_col by congruence. reflexivity. }
  cbv beta zeta.
  apply (basis_spec s w sc m); try assumption.
  - congruence.
  - simpl. congruence.
  - reflexivity.
Qed.

(** The values lift returns. *)
Definition lifted (w : ndarray S) (sc : list S) (n max_power : nat)
    (q : ndarray S) : ndarray S :=
  array_of_rows
    (map (fun ii => basis_value w sc (Powers.powers n max_power)
                      (nth ii (columns q) []))
         (seq 0 (ncols q))).

(** The state lift leaves: the network in evaluation mode as soon as there
    was a sample. *)
Definition after_lift (m : Sequential S) (q : ndarray S) (s : World)
  : World :=
  if ncols q =? 0 then s else in_eval_mode m s.

(** lift in closed form, with the state it leaves; the desired states
    need as many columns as the states, or more. *)
Lemma lift_run (s : World) (w : ndarray S) (sc : list S)
    (m : Sequential S) (q q_d : ndarray S) :
  ready s w sc m ->
  wf q -> wf q_d ->
  nrows q = self_n (self s) -> nrows q_d = self_n (self s) ->
  ncols q <= ncols q_d ->
  lift q q_d s =
  (Ok (lifted w sc (self_n (self s)) (self_max_power (self s)) q),
   after_lift m q s).
Proof.
  intros Hr Hq Hqd Hn Hdn Hc. unfold lift, lifted, after_lift.
  destruct (ncols q) as [|k] eqn:Ek; [reflexivity|].
  cbn [Nat.eqb seq comprehension].
  erewrite bind_ok.
  2: { erewrite bind_ok
         by (apply (lift_sample_ready s w sc m); try assumption; lia).
       erewrite bind_ok.
       2: { apply (comprehension_fixed _
              (fun ii => basis_value w sc
                 (Powers.powers (self_n (self s)) (self_max_power (self s)))
                 (nth ii (columns q) []))).
            intros ii Hii. apply in_seq in Hii.
            rewrite (lift_sample_ready (in_eval_mode m s) w sc (eval m));
              try assumption; try lia.
            - reflexivity.
            - now apply ready_in_eval_mode. }
       reflexivity. }
  reflexivity.
Qed.


(** X1: the values lift returns do not depend on the desired states: any two
    desired-state matrices with n rows and at least as many columns as there
    are samples give the same result and leave the same state. *)
Theorem lift_ignores_the_desired_state (s : World) (w : ndarray S)
    (sc : list S) (m : Sequential S) (q q_d q_d' : ndarray S) :
  ready s w sc m ->
  wf q -> wf q_d -> wf q_d' ->
  nrows q = self_n (self s) ->
  nrows q_d = self_n (self s) -> nrows q_d' = self_n (self s) ->
  ncols q <= ncols q_d -> ncols q <= ncols q_d' ->
  lift q q_d s = lift q q_d' s.
Proof.
  intros Hr Hq Hqd Hqd' Hn Hdn Hdn' Hc Hc'.
  rewrite (lift_run s w sc m q q_d), (lift_run s w sc m q q_d');
    auto.
Qed.

(** X2: the values lift returns do not depend on the network: with any
    other double-precision network that takes 2n inputs in the object's
    place, and any generator state, lift returns the same array. *)
Theorem lift_ignores_the_network (s : World) (w : ndarray S)
    (sc : list S) (m m' : Sequential S) (g' : Generator)
    (q q_d : ndarray S) :
  ready s w sc m ->
  param_dtype m' = Float64 ->
  dims_chain (2 * self_n (self s)) (architecture m') =
    Some (self_n (self s)) ->
  wf q -> wf q_d ->
  nrows q = self_n (self s) -> nrows q_d = self_n (self s) ->
  ncols q <= ncols q_d ->
  fst (lift q q_d s) =
  fst (lift q q_d
         (mk_World (set_diffeomorphism_model m' (self s)) g'
                   (cuda_is_available s) (warnings_shown s))).
Proof.
  intros (Hb & Hf & Hs & Hm & Hdt & Hch & Hw & Hwr & Hwc & Hsc)
         Hdt' Hch' Hq Hqd Hn Hdn Hc.
  rewrite (lift_run s w sc m q q_d); auto.
  2: { exact (conj Hb (conj Hf (conj Hs (conj Hm (conj Hdt (conj Hch
                (conj Hw (conj Hwr (conj Hwc Hsc))))))))). }
  rewrite (lift_run _ w sc m' q q_d); auto.
  exact (conj Hb (conj Hf (conj Hs (conj eq_refl (conj Hdt' (conj Hch'
           (conj Hw (conj Hwr (conj Hwc Hsc))))))))).
Qed.

(** X3: lift changes one thing of the object and the generator: with at
    least one sample it leaves the network in evaluation mode.  The
    generator, the rest of the object and the network's parameters are as
    before; with no sample the object is as it was. *)
Theorem lift_only_switches_to_evaluation (s : World) (w : ndarray S)
    (sc : list S) (m : Sequential S) (q q_d : ndarray S) :
  ready s w sc m ->
  wf q -> wf q_d ->
  nrows q = self_n (self s) -> nrows q_d = self_n (self s) ->
  ncols q <= ncols q_d ->
  let s' := snd (lift q q_d s) in
  default_generator s' = default_generator s /\
  self s' =
    (if ncols q =? 0 then self s
     else set_diffeomorphism_model (eval m) (self s)) /\
  modules (eval m) = modules m /\ training (eval m) = false.
Proof.
  intros Hr Hq Hqd Hn Hdn Hc s'. subst s'.
  rewrite (lift_run s w sc m q q_d); auto.
  unfold after_lift. cbn [snd].
  destruct (ncols q =? 0); repeat split; reflexivity.
Qed.

(** X4: a state matrix whose number of rows is not n makes lift raise the
    ValueError of [reshape((n, 1))] at the first sample, before the basis or
    the network is touched: the state is as before, built network or not. *)
Theorem lift_rejects_a_wrong_state_dimension (s : World)
    (q q_d : ndarray S) :
  wf q -> 1 <= ncols q -> nrows q <> self_n (self s) ->
  lift q q_d s = (Err ValueError, s).
Proof.
  intros Hq Hc Hn. unfold lift.
  destruct (ncols q) as [|k] eqn:Ek; [lia|].
  cbn [seq comprehension].
  erewrite bind_err; [reflexivity|].
  erewrite bind_err; [reflexivity|].
  unfold lift_sample.
  erewrite bind_ok by reflexivity. cbv beta zeta.
  destruct (column_nth q 0 Hq) as (Eq & Lq); [lia|].
  erewrite bind_err; [reflexivity|].
  unfold lift_result. rewrite Eq. cbn [rbind]. unfold reshape_n1.
  destruct (Nat.eqb_spec (length (nth 0 (columns q) [])) (self_n (self s)));
    [congruence|reflexivity].
Qed.

(** X24: lift is repeatable: a second call with the same matrices, from the
    state the first call left, returns the same array and leaves that same
    state. *)
Theorem lift_is_repeatable (s : World) (w : ndarray S) (sc : list S)
    (m : Sequential S) (q q_d : ndarray S) :
  ready s w sc m ->
  wf q -> wf q_d ->
  nrows q = self_n (self s) -> nrows q_d = self_n (self s) ->
  ncols q <= ncols q_d ->
  exists res,
    fst (lift q q_d s) = Ok res /\
    lift q q_d (snd (lift q q_d s)) = (Ok res, snd (lift q q_d s)).
Proof.
  intros Hr Hq Hqd Hn Hdn Hc.
  rewrite (lift_run s w sc m q q_d); auto. cbn [fst snd].
  eexists. split; [reflexivity|].
  unfold after_lift. destruct (ncols q =? 0) eqn:E.
  - rewrite (lift_run s w sc m q q_d); auto.
    unfold after_lift. now rewrite E.
  - rewrite (lift_run (in_eval_mode m s) w sc (eval m) q q_d); auto.
    + unfold after_lift. now rewrite E.
    + now apply ready_in_eval_mode.
Qed.

Lemma lift_sample_out_of_range (s : World) (q q_d : ndarray S) (ii : nat) :
  wf q -> wf q_d ->
  nrows q = self_n (self s) ->
  ii < ncols q -> ncols q_d <= ii ->
  lift_sample q q_d ii s = (Err IndexError, s).
Proof.
  intros Hq Hqd Hn Hii Hd. unfold lift_sample.
  erewrite bind_ok by reflexivity. cbv beta zeta.
  destruct (column_nth q ii Hq Hii) as (Eq & Lq).
  erewrite bind_ok.
  2: { unfold lift_result. rewrite Eq. cbn [rbind].
       rewrite reshape_n1_col by congruence. reflexivity. }
  cbv beta zeta.
  erewrite bind_err; [reflexivity|].
  unfold lift_result, column.
  destruct Hqd as [_ Hqc].
  pose proof (transpose_rows_length _ _ Hqc) as Hlen.
  replace (nth_error (transpose_rows (ncols q_d) (rows q_d)) ii)
    with (@None (list S)); [reflexivity|].
  symmetry. apply nth_error_None. lia.
Qed.

(** X5: with fewer desired states than samples lift raises the IndexError
    of [q_d[:, ii]] at the first sample that has none; the samples before
    it were lifted, so the network is in evaluation mode by then. *)
Theorem lift_needs_a_desired_state_per_sample (s : World) (w : ndarray S)
    (sc : list S) (m : Sequential S) (q q_d : ndarray S) :
  ready s w sc m ->
  wf q -> wf q_d ->
  nrows q = self_n (self s) -> nrows q_d = self_n (self s) ->
  ncols q_d < ncols q ->
  lift q q_d s =
  (Err IndexError, if ncols q_d =? 0 then s else in_eval_mode m s).
Proof.
  intros Hr Hq Hqd Hn Hdn Hc. unfold lift.
  set (v := fun ii => basis_value w sc
          (Powers.powers (self_n (self s)) (self_max_power (self s)))
          (nth ii (columns q) [])).
  replace (ncols q) with (ncols q_d + Datatypes.S (ncols q - ncols q_d - 1))
    by lia.
  rewrite seq_app. cbn [seq]. rewrite Nat.add_0_l.
  erewrite bind_err; [reflexivity|].
  destruct (ncols q_d) as [|k] eqn:Ek.
  - cbn [seq app Nat.eqb comprehension].
    erewrite bind_err; [reflexivity|].
    apply lift_sample_out_of_range; auto; lia.
  - cbn [seq app Nat.eqb comprehension].
    erewrite bind_ok
      by (apply (lift_sample_ready s w sc m); try assumption; lia).
    erewrite bind_err; [reflexivity|].
    apply (comprehension_raises _ v).
    + intros j Hj. apply in_seq in Hj.
      rewrite (lift_sample_ready (in_eval_mode m s) w sc (eval m));
        try assumption; try lia.
      * reflexivity.
      * now apply ready_in_eval_mode.
    + apply lift_sample_out_of_range; auto; lia.
Qed.

(** X6: before construct_basis the attribute [basis] is None, and lift on
    well-shaped input with a sample raises the TypeError of calling it,
    whether the network is built or not; the state is as before. *)
Theorem lift_before_construct_basis (s : World) (q q_d : ndarray S) :
  self_basis (self s) = None ->
  wf q -> wf q_d ->
  nrows q = self_n (self s) -> nrows q_d = self_n (self s) ->
  1 <= ncols q -> ncols q <= ncols q_d ->
  lift q q_d s = (Err TypeError, s).
Proof.
  intros Hb Hq Hqd Hn Hdn H1 Hc. unfold lift.
  destruct (ncols q) as [|k] eqn:Ek; [lia|].
  cbn [seq comprehension].
  erewrite bind_err; [reflexivity|].
  erewrite bind_err; [reflexivity|].
  unfold lift_sample.
  erewrite bind_ok by reflexivity. cbv beta zeta.
  destruct (column_nth q 0 Hq) as (Eq & Lq); [lia|].
  destruct (column_nth q_d 0 Hqd) as (Eqd & Lqd); [lia|].
  erewrite bind_ok.
  2: { unfold lift_result. rewrite Eq. cbn [rbind].
       rewrite reshape_n1_col by congruence. reflexivity. }
  cbv beta zeta.
  erewrite bind_ok.
  2: { unfold lift_result. rewrite Eqd. cbn [rbind].
       rewrite reshape_n1_col by congruence. reflexivity. }
  cbv beta zeta. unfold basis.
  erewrite bind_ok by reflexivity. cbv beta zeta.
  rewrite Hb. reflexivity.
Qed.


(** X7: diffeomorphism checks its input although it drops the prediction:
    different numbers of samples in q and q_d raise the ValueError of
    [concatenate], and rows that do not add up to 2n raise the RuntimeError
    of the first linear layer; in both cases the network has been switched
    to evaluation mode by then. *)
Theorem diffeomorphism_checks_its_input (s : World) (m : Sequential S)
    (nh H : nat) (p : S) (q q_d : ndarray S) :
  self_diffeomorphism_model (self s) = Some m ->
  architecture m = built_architecture (self_n (self s)) nh H p ->
  (ncols q <> ncols q_d ->
   diffeomorphism q q_d s = (Err ValueError, in_eval_mode m s)) /\
  (ncols q = ncols q_d ->
   nrows q + nrows q_d <> 2 * self_n (self s) ->
   diffeomorphism q q_d s = (Err RuntimeError, in_eval_mode m s)).
Proof.
  intros Hm Harch. split.
  - intros Hc. unfold diffeomorphism.
    erewrite bind_ok by reflexivity. cbv beta zeta. rewrite Hm.
    erewrite bind_ok by reflexivity. cbv beta zeta.
    erewrite bind_err; [reflexivity|].
    unfold lift_result, concatenate_axis1, hstack2, in_eval_mode.
    cbn [fold_left rbind transpose nrows modify_self snd].
    destruct (Nat.eqb_spec (ncols q) (ncols q_d)); [contradiction|].
    reflexivity.
  - intros Hc Hr. unfold diffeomorphism.
    erewrite bind_ok by reflexivity. cbv beta zeta. rewrite Hm.
    erewrite bind_ok by reflexivity. cbv beta zeta.
    assert (Hin : concatenate_axis1 [transpose q; transpose q_d] =
                  Ok (mk_ndarray (ncols q) (nrows q + nrows q_d)
                        (map2 (@app S) (rows (transpose q))
                                       (rows (transpose q_d))))).
    { unfold concatenate_axis1, hstack2. simpl.
      now rewrite Hc, Nat.eqb_refl. }
    rewrite Hin.
    erewrite bind_ok by reflexivity. cbv beta zeta.
    erewrite bind_ok by reflexivity. cbv beta zeta.
    cbn [self modify_self snd set_diffeomorphism_model
         self_diffeomorphism_model].
    erewrite bind_err; [reflexivity|].
    unfold with_generator_result, call, in_eval_mode.
    cbn [default_generator eval modules training param_dtype].
    unfold architecture, built_architecture in Harch.
    destruct (modules m) as [|[name l] rest]; [discriminate|].
    cbn [map app fst snd] in Harch.
    injection Harch as _ Hk _.
    destruct l as [i o wt b| |p']; try discriminate.
    cbn [kind_of] in Hk. injection Hk as Hi Ho. subst i o.
    cbn [apply_layers apply_layer from_numpy tensor_data tensor_dtype ncols].
    match goal with
    | |- context [?a =? ?b] => destruct (Nat.eqb_spec a b); [lia|]
    end.
    rewrite andb_false_r. destruct s; reflexivity.
Qed.

(** build_diffeomorphism_model on any object: the network is stored before
    [from_numpy(self.A_cl)] is reached, which fails on a tensor. *)
Lemma build_run (nh H bs : nat) (p : S) (s0 : World) :
  dropout_ok p ->
  exists m g,
    build_diffeomorphism_model nh H bs p s0 =
      (if self_A_cl_is_tensor (self s0) then Err TypeError else Ok tt,
       mk_World
         (if self_A_cl_is_tensor (self s0)
          then set_diffeomorphism_model m (self s0)
          else set_A_cl_tensor (set_diffeomorphism_model m (self s0)))
         g (cuda_is_available s0) (warnings_shown s0)) /\
    architecture m = built_architecture (self_n (self s0)) nh H p /\
    param_dtype m = Float64 /\
    training m = true.
Proof.
  intros Hp. destruct s0 as [k0 g0 c0 w0]. simpl in *.
  unfold build_diffeomorphism_model.
  set (first := nn_Linear g0 (2 * self_n k0) H).
  set (model0 := nn_Sequential [fst first; ReLU]).
  set (body := add_hidden_block nh H p).
  set (I := fun (j : nat) (model : Sequential S) (s : World) =>
     (exists g, s = mk_World (set_diffeomorphism_model model k0) g c0 w0) /\
     architecture model =
       [("0"%string, KLinear (2 * self_n k0) H); ("1"%string, KReLU)]
       ++ flat_map (hidden_block nh H p) (seq 0 j) /\
     training model = true /\ param_dtype model = Float32).
  destruct (for_each_invariant I body nh 0 model0
              (mk_World (set_diffeomorphism_model model0 k0)
                        (snd first) c0 w0))
    as (m & s' & Eloop & (g & ->) & Harch & Htr & Hdt).
  { unfold I. split; [eauto|]. split; [reflexivity|]. auto. }
  { intros j x s _ ((g & ->) & Harch & Htr & Hdt).
    destruct (add_hidden_block_spec (self_n k0) nh H p j x
                (mk_World (set_diffeomorphism_model x k0) g c0 w0) Hp Harch)
      as (x' & g' & E & Harch' & Htr' & Hdt').
    exists x', (mk_World (set_diffeomorphism_model x' k0) g' c0 w0).
    split.
    - exact E.
    - unfold I. split; [eauto|]. split; [exact Harch'|].
      split; congruence. }
  change (0 + nh) with nh in Harch.
  set (output := nn_Linear g H (self_n k0)).
  exists (double (add_module "output" (fst output) m)), (snd output).
  split; [|split; [|split]].
  - erewrite bind_ok by reflexivity. cbv beta zeta.
    erewrite bind_ok by reflexivity. cbv beta zeta.
    erewrite bind_ok by reflexivity. cbv beta zeta.
    erewrite bind_ok by exact Eloop. cbv beta zeta.
    erewrite bind_ok by reflexivity. cbv beta zeta.
    erewrite bind_ok by reflexivity. cbv beta zeta.
    erewrite bind_ok by reflexivity. cbv beta zeta.
    erewrite bind_ok by reflexivity. cbv beta zeta.
    cbn [self set_diffeomorphism_model self_A_cl_is_tensor].
    destruct (self_A_cl_is_tensor k0); reflexivity.
  - change (architecture (add_module "output" (fst output) m) =
            built_architecture (self_n k0) nh H p).
    rewrite architecture_add_module.
    + rewrite Harch. unfold built_architecture.
      now rewrite <- app_assoc.
    + intros nm Hnm. apply (output_fresh nh).
      pose proof (built_prefix_names (self_n k0) nh H p nh) as Hn.
      rewrite <- Harch in Hn. rewrite Forall_forall in Hn. auto.
  - reflexivity.
  - simpl. exact Htr.
Qed.

(** X8: build_diffeomorphism_model cannot be called twice on one object:
    the second call raises the TypeError of [from_numpy] on the tensor the
    first call left in [A_cl], but only after it has replaced the network
    by a newly initialised one of the new architecture, in training
    mode. *)
Theorem build_cannot_be_repeated (nh H bs : nat) (p : S)
    (nh' H' bs' : nat) (p' : S) (s0 : World) :
  self_A_cl_is_tensor (self s0) = false ->
  dropout_ok p -> dropout_ok p' ->
  exists s1 m' s2,
    build_diffeomorphism_model nh H bs p s0 = (Ok tt, s1) /\
    build_diffeomorphism_model nh' H' bs' p' s1 = (Err TypeError, s2) /\
    self_diffeomorphism_model (self s2) = Some m' /\
    architecture m' = built_architecture (self_n (self s0)) nh' H' p' /\
    param_dtype m' = Float64 /\ training m' = true /\
    self_A_cl (self s2) = self_A_cl (self s0).
Proof.
  intros Hnt Hp Hp'.
  destruct (build_run nh H bs p s0 Hp) as (m & g & E & _).
  rewrite Hnt in E.
  destruct (build_run nh' H' bs' p'
              (mk_World (set_A_cl_tensor
                           (set_diffeomorphism_model m (self s0)))
                        g (cuda_is_available s0) (warnings_shown s0)) Hp')
    as (m' & g' & E' & Harch & Hdt & Htr).
  cbn [self set_A_cl_tensor self_A_cl_is_tensor] in E'.
  eexists. exists m'. eexists.
  split; [exact E|]. split; [exact E'|].
  split; [reflexivity|]. split; [exact Harch|].
  split; [exact Hdt|]. split; [exact Htr|reflexivity].
Qed.

End Running.

Section Construction.
Context {S : Type} {scalar : Scalar S} {explog : ExpLog S}
        {random : TorchRandom S} {linalg : Linalg S}.

(** X9: construct_basis needs both bounds: with [ub] or [lb] left at its
    default None it raises the TypeError of [ub - lb], after
    construct_linear_eigfuncs has run: [Nlift], [Lambda] and [eigfunc_lin]
    are set, [scale_func] and [basis] are not. *)
Theorem construct_basis_needs_bounds (ub lb : option (list S))
    (s : World) :
  nrows (self_A_cl (self s)) = self_n (self s) ->
  ncols (self_A_cl (self s)) = self_n (self s) ->
  ub = None \/ lb = None ->
  exists s' Lambda,
    construct_basis ub lb s = (Err TypeError, s') /\
    self_basis (self s') = self_basis (self s) /\
    self_scale_func (self s') = self_scale_func (self s) /\
    self_eigfunc_lin (self s') = Some (linear_eigfuncs_of s) /\
    self_Nlift (self s') =
      Some ((self_max_power (self s) + 1) ^ self_n (self s)) /\
    self_Lambda (self s') = Some Lambda /\
    length Lambda = (self_max_power (self s) + 1) ^ self_n (self s).
Proof.
  intros Hr Hc Hnone. unfold construct_basis.
  eexists. eexists. split.
  - erewrite bind_ok by (now apply construct_linear_eigfuncs_spec).
    cbv beta zeta.
    erewrite bind_ok by reflexivity. cbv beta zeta.
    erewrite bind_err; [reflexivity|].
    unfold construct_scaling_function.
    erewrite bind_ok by reflexivity. cbv beta zeta.
    destruct Hnone as [-> | ->]; [reflexivity|].
    destruct ub; reflexivity.
  - split; [reflexivity|]. split; [reflexivity|]. split; [reflexivity|].
    split; [cbn; now rewrite Powers.powers_count|].
    split; [reflexivity|].
    now rewrite length_map, Powers.powers_count.
Qed.

(** X23: construct_scaling_function with bounds of length n returns the
    function that divides a state column entry by entry by ub - lb, whatever
    the bounds are (nothing checks ub > lb); bounds of one length other
    than n raise the ValueError of [reshape((n, 1))] and leave the state as
    it is. *)
Theorem scaling_divides_by_the_width (ub lb : list S) (s : World) :
  length ub = length lb ->
  (length ub = self_n (self s) ->
   exists f,
     construct_scaling_function (Some ub) (Some lb) s = (Ok f, s) /\
     forall c, length c = self_n (self s) ->
       scale_func f (col_array c) =
       Ok (col_array (map2 sdiv c (map2 ssub ub lb)))) /\
  (length ub <> self_n (self s) ->
   construct_scaling_function (Some ub) (Some lb) s = (Err ValueError, s)).
Proof.
  intros Hl. split.
  - intros Hn. eexists. split.
    + apply construct_scaling_function_spec; congruence.
    + intros c Hc. apply scale_func_column.
      rewrite map2_length, <- Hl, Nat.min_id. congruence.
  - intros Hn. unfold construct_scaling_function.
    erewrite bind_ok by reflexivity. cbv beta zeta.
    unfold subtract. rewrite broadcast2_same_shape by (simpl; congruence).
    erewrite bind_ok by reflexivity. cbv beta zeta.
    erewrite bind_err; [reflexivity|].
    cbn [rows map2 concat]. rewrite app_nil_r.
    unfold lift_result, reshape_n1.
    rewrite map2_length, <- Hl, Nat.min_id.
    destruct (Nat.eqb_spec (length ub) (self_n (self s)));
      [contradiction|reflexivity].
Qed.

(** X10: construct_linear_eigfuncs needs an n x n matrix: when [A_cl] is
    not square [linalg.eig] raises LinAlgError, and when it is square of
    another size the trial call [eigfunc_lin(ones((n, 1)))] raises the
    ValueError of [dot]; either way nothing of the object has changed. *)
Theorem construct_linear_eigfuncs_needs_n_by_n (s : World) :
  (nrows (self_A_cl (self s)) <> ncols (self_A_cl (self s)) ->
   construct_linear_eigfuncs s = (Err LinAlgError, s)) /\
  (nrows (self_A_cl (self s)) = ncols (self_A_cl (self s)) ->
   nrows (self_A_cl (self s)) <> self_n (self s) ->
   construct_linear_eigfuncs s = (Err ValueError, s)).
Proof.
  split.
  - intros Hne. unfold construct_linear_eigfuncs.
    erewrite bind_ok by reflexivity. cbv beta zeta.
    destruct (Nat.eqb_spec (nrows (self_A_cl (self s)))
                           (ncols (self_A_cl (self s))));
      [contradiction|reflexivity].
  - intros Hsq Hn. unfold construct_linear_eigfuncs.
    erewrite bind_ok by reflexivity. cbv beta zeta.
    rewrite Hsq, Nat.eqb_refl. cbn [negb].
    set (A := self_A_cl (self s)) in *.
    destruct (eig_shape (transpose A)) as (_ & Hw & Hwr & Hwc);
      [simpl; congruence|].
    simpl in Hwr, Hwc.
    erewrite bind_err; [reflexivity|].
    unfold lift_result, eigfunc_lin, linfunc, dot.
    cbn [closure_w transpose ncols nrows ones_n1].
    assert (Hshape : forall b : bool,
      nrows (snd (if b
                  then
                    let _ := Warning "Complex eigenvalues and/or eigenvalues. Complex part supressed." in
                    (real (fst (eig A)), real2 (snd (eig (transpose A))))
                  else (as_real (fst (eig A)),
                        as_real2 (snd (eig (transpose A)))))) =
      ncols A) by (intros []; exact Hwr).
    rewrite Hshape.
    destruct (Nat.eqb_spec (ncols A) (self_n (self s)));
      [congruence|reflexivity].
Qed.

End Construction.
Section Indexing.

(** The [n] digits of [i] in base [b], the most significant first. *)
Fixpoint digits (b n i : nat) : list nat :=
  match n with
  | 0 => []
  | Datatypes.S k => i / b ^ k :: digits b k (i mod b ^ k)
  end.

Lemma nth_flat_map_cons (Lk : list (list nat)) : forall c a i,
  i < c * length Lk ->
  nth i (flat_map (fun x => map (cons x) Lk) (seq a c)) [] =
  (a + i / length Lk) :: nth (i mod length Lk) Lk [].
Proof.
  induction c as [|c IH]; intros a i Hi; [lia|].
  assert (HL : length Lk <> 0) by (intros E; rewrite E in Hi; lia).
  cbn [seq flat_map].
  destruct (Nat.lt_ge_cases i (length Lk)) as [Hlt|Hge].
  - rewrite app_nth1 by (now rewrite length_map).
    rewrite (nth_indep _ [] (a :: [])) by (now rewrite length_map).
    rewrite (map_nth (cons a)).
    rewrite Nat.div_small, Nat.mod_small, Nat.add_0_r by assumption.
    reflexivity.
  - rewrite app_nth2 by (rewrite length_map; lia).
    rewrite length_map, IH by (simpl in Hi; lia).
    replace i with (1 * length Lk + (i - length Lk)) at 3 4 by lia.
    rewrite Nat.div_add_l by assumption.
    rewrite (Nat.add_comm (1 * length Lk)), Nat.Div0.mod_add.
    f_equal. lia.
Qed.

Lemma sequences_nth (b : nat) : forall n i,
  i < b ^ n ->
  nth i (Powers.sequences (seq 0 b) n) [] = digits b n i.
Proof.
  induction n as [|n IH]; intros i Hi.
  - simpl in *. replace i with 0 by lia. reflexivity.
  - cbn [Powers.sequences digits].
    pose proof (Powers.sequences_length (seq 0 b) n) as HL.
    rewrite length_seq in HL.
    rewrite nth_flat_map_cons.
    + rewrite HL, Nat.add_0_l. f_equal. apply IH.
      apply Nat.mod_upper_bound.
      intros E. simpl in Hi. rewrite E in Hi. lia.
    + rewrite HL. simpl in Hi. lia.
Qed.

(** X11: row i of the power matrix holds the n digits of i in base
    max_power + 1, the most significant first: the index of a lifted
    coordinate tells the power of each principal eigenfunction in it. *)
Theorem powers_row_is_the_index_in_base (n max_power i : nat) :
  i < (max_power + 1) ^ n ->
  nth i (Powers.powers n max_power) [] = digits (max_power + 1) n i.
Proof.
  intros Hi. rewrite Powers.powers_sequences. unfold Powers.p.
  now apply sequences_nth.
Qed.

Lemma sequences_head (x : nat) (pool : list nat) : forall n,
  hd_error (Powers.sequences (x :: pool) n) = Some (repeat x n).
Proof.
  induction n as [|n IH]; [reflexivity|].
  cbn [Powers.sequences flat_map repeat].
  destruct (Powers.sequences (x :: pool) n) as [|r rs]; [discriminate|].
  injection IH as ->. reflexivity.
Qed.

(** The first row of the power matrix is the row of zeros. *)
Lemma powers_head (n max_power : nat) :
  exists rest, Powers.powers n max_power = repeat 0 n :: rest.
Proof.
  rewrite Powers.powers_sequences. unfold Powers.p.
  rewrite Nat.add_1_r. cbn [seq].
  pose proof (sequences_head 0 (seq 1 max_power) n) as Hh.
  destruct (Powers.sequences (0 :: seq 1 max_power) n) as [|r rs];
    [discriminate|].
  injection Hh as ->. now exists rs.
Qed.

End Indexing.

Section ConstantEigenfunction.
Context {S : Type} {scalar : Scalar S} {explog : ExpLog S}
        {random : TorchRandom S} {linalg : Linalg S}.
Hypothesis power_zero : forall x : S, spower x 0 = sone.
Hypothesis one_times_one : smul sone sone = sone.

Lemma prod_of_ones (k : nat) : prod_list (repeat sone k) = sone.
Proof.
  destruct k as [|k]; [reflexivity|]. cbn [repeat prod_list].
  induction k as [|k IH]; [reflexivity|].
  cbn [repeat fold_left]. now rewrite one_times_one.
Qed.

Lemma zeroth_powers (v : list S) : forall n,
  map2 spower v (repeat 0 n) = repeat sone (Nat.min (length v) n).
Proof.
  induction v as [|x v IH]; intros [|n]; try reflexivity.
  cbn [repeat map2 length Nat.min]. now rewrite power_zero, IH.
Qed.

Lemma monomials_head (n max_power : nat) (v : list S) :
  hd_error (monomials (Powers.powers n max_power) v) = Some sone.
Proof.
  destruct (powers_head n max_power) as (rest & ->).
  cbn [monomials map hd_error].
  now rewrite zeroth_powers, prod_of_ones.
Qed.

(** X12: the first basis function is the constant 1 and its eigenvalue is
    log(1): whenever [power(x, 0)] is 1 for every x and 1 * 1 is 1, as in
    numpy, every row lift returns starts with 1, whatever the state, and
    Lambda starts with log(1). *)
Theorem the_first_eigenfunction_is_constant
    (n_hidden_layers layer_width batch_size : nat) (dropout_prob : S)
    (ub lb : list S) (s0 : World) (q q_d : ndarray S) :
  self_A_cl_is_tensor (self s0) = false ->
  dropout_ok dropout_prob ->
  nrows (self_A_cl (self s0)) = self_n (self s0) ->
  ncols (self_A_cl (self s0)) = self_n (self s0) ->
  length ub = self_n (self s0) -> length lb = self_n (self s0) ->
  wf q -> wf q_d ->
  nrows q = self_n (self s0) -> nrows q_d = self_n (self s0) ->
  ncols q <= ncols q_d ->
  exists s res s' Lambda,
    setup n_hidden_layers layer_width batch_size dropout_prob ub lb s0 =
      (Ok tt, s) /\
    lift q q_d s = (Ok res, s') /\
    nrows res = ncols q /\
    Forall (fun r => hd_error r = Some sone) (rows res) /\
    self_Lambda (self s) = Some Lambda /\
    hd_error Lambda = Some (slog sone).
Proof.
  intros Hnt Hp Hr Hc Hu Hl Hq Hqd Hn Hdn Hdc.
  destruct (setup_spec n_hidden_layers layer_width batch_size dropout_prob
              ub lb s0 Hnt Hp Hr Hc Hu Hl)
    as (m & s & Es & Hready & Hsn & Hsmp & _ & _ & HL).
  pose proof (lift_run s (kept_eigenvectors (self s0)) (map2 ssub ub lb)
                m q q_d Hready Hq Hqd) as El.
  rewrite Hsn in El. specialize (El Hn Hdn Hdc).
  exists s. eexists. eexists. eexists.
  split; [exact Es|]. split; [exact El|].
  split; [|split; [|split; [exact HL|]]].
  - unfold lifted. cbn [array_of_rows nrows].
    now rewrite length_map, length_seq.
  - unfold lifted. cbn [array_of_rows rows].
    apply Forall_map, Forall_forall. intros ii _.
    unfold basis_value. apply monomials_head.
  - destruct (powers_head (self_n (self s0)) (self_max_power (self s0)))
      as (rest & ->).
    cbn [map hd_error]. unfold eigenvalue_of_row.
    now rewrite zeroth_powers, prod_of_ones.
Qed.

End ConstantEigenfunction.

Section Fitting.
Import Fit.
Context {S : Type} {scalar : Scalar S} {random : TorchRandom S}
        {differentiate : Differentiate S} {autograd : Autograd S}.

Lemma bind_raises {A B} (c : M A) (k : A -> M B) (s : World) :
  is_err (fst (c s)) = true -> is_err (fst (bind c k s)) = true.
Proof.
  intros H. unfold bind. destruct (fst (c s)); [discriminate|reflexivity].
Qed.

(** What a step returns decides whether the rest raises. *)
Lemma bind_is_err_after {A B} (Q : A -> Prop) (c : M A) (k : A -> M B)
    (s : World) :
  (forall a s', c s = (Ok a, s') -> Q a) ->
  (forall a s', Q a -> is_err (fst (k a s')) = true) ->
  is_err (fst (bind c k s)) = true.
Proof.
  intros Hc Hk. unfold bind.
  destruct (c s) as [[a|e] s'] eqn:E; cbn [fst snd]; [|reflexivity].
  apply Hk. now apply (Hc a s').
Qed.

(** *** The layout of the training tensor *)

Lemma map_firstn_map2_app {T} (k : nat) (A : list (list T)) : forall B,
  Forall (fun r => length r = k) A -> length A = length B ->
  map (firstn k) (map2 (@app T) A B) = A.
Proof.
  induction A as [|a A IH]; intros [|b B] HA HL; try discriminate;
    [reflexivity|].
  inversion HA as [|? ? Ha HA']; subst. cbn [map2 map].
  rewrite firstn_app, Nat.sub_diag, firstn_all. cbn [firstn].
  rewrite app_nil_r, IH by (auto; simpl in HL; lia). reflexivity.
Qed.

Lemma map_skipn_map2_app {T} (k : nat) (A : list (list T)) : forall B,
  Forall (fun r => length r = k) A -> length A = length B ->
  map (skipn k) (map2 (@app T) A B) = B.
Proof.
  induction A as [|a A IH]; intros [|b B] HA HL; try discriminate;
    [reflexivity|].
  inversion HA as [|? ? Ha HA']; subst. cbn [map2 map].
  rewrite skipn_app, Nat.sub_diag, skipn_all. cbn [skipn app].
  rewrite IH by (auto; simpl in HL; lia). reflexivity.
Qed.

Lemma map2_app_lengths {T} (ka kb : nat) (A : list (list T)) : forall B,
  Forall (fun r => length r = ka) A -> Forall (fun r => length r = kb) B ->
  Forall (fun r => length r = ka + kb) (map2 (@app T) A B).
Proof.
  induction A as [|a A IH]; intros [|b B] HA HB; cbn [map2]; auto.
  inversion HA; inversion HB; subst. constructor.
  - now rewrite length_app.
  - now apply IH.
Qed.

(** Taking a batch of rows and cutting columns can be done in either
    order. *)
Lemma columns_upto_take_rows (k : nat) (a : ndarray S) (idx : list nat) :
  columns_upto k (take_rows a idx) = take_rows (columns_upto k a) idx.
Proof.
  unfold columns_upto, take_rows. cbn [nrows ncols rows]. f_equal.
  rewrite map_map. apply map_ext. intros i.
  now rewrite <- (map_nth (firstn k)), firstn_nil.
Qed.

Lemma columns_from_take_rows (k : nat) (a : ndarray S) (idx : list nat) :
  columns_from k (take_rows a idx) = take_rows (columns_from k a) idx.
Proof.
  unfold columns_from, take_rows. cbn [nrows ncols rows]. f_equal.
  rewrite map_map. apply map_ext. intros i.
  now rewrite <- (map_nth (skipn k)), skipn_nil.
Qed.

(** X13: the training tensor [x, x_d, x_dot] of line 151 splits back in
    the loop: for state, desired state and derivative arrays of n columns
    and one number of rows, every batch [x_batch] of rows of the tensor
    has [x_batch[:, :2n]] equal to that batch of [x, x_d] and
    [x_batch[:, 2n:]] equal to that batch of [x_dot]. *)
Theorem training_tensor_splits_back (n : nat) (X X_dot X_d : ndarray S)
    (t : list S) (idx : list nat) :
  wf X -> wf X_d -> wf X_dot ->
  nrows X_d = nrows X -> nrows X_dot = nrows X ->
  ncols X = n -> ncols X_d = n ->
  exists X_tensor xt,
    training_input (X, X_dot, X_d, t) = Ok X_tensor /\
    concatenate_axis1 [X; X_d] = Ok xt /\
    columns_upto (2 * n) (take_rows X_tensor idx) = take_rows xt idx /\
    columns_from (2 * n) (take_rows X_tensor idx) = take_rows X_dot idx /\
    columns_upto n (take_rows xt idx) = take_rows X idx /\
    columns_from n (take_rows xt idx) = take_rows X_d idx.
Proof.
  intros [HXn HXc] [HDn HDc] [HTn HTc] Hrd Hrt Hcx Hcd.
  unfold training_input, concatenate_axis1, hstack2.
  cbn [fold_left rbind nrows ncols rows].
  rewrite Hrd, Hrt, !Nat.eqb_refl. cbn [rbind nrows ncols rows].
  rewrite Nat.eqb_refl.
  eexists. eexists. split; [reflexivity|]. split; [reflexivity|].
  assert (Hlen : length (rows X) = length (rows X_d)) by congruence.
  pose proof HXc as HXc'. rewrite Hcx in HXc'.
  pose proof HDc as HDc'. rewrite Hcd in HDc'.
  assert (Hxd : Forall (fun r => length r = 2 * n)
                       (map2 (@app S) (rows X) (rows X_d))).
  { replace (2 * n) with (n + n) by lia.
    now apply map2_app_lengths. }
  assert (Hlen2 : length (map2 (@app S) (rows X) (rows X_d)) =
                  length (rows X_dot)).
  { rewrite map2_length, <- Hlen, Nat.min_id. congruence. }
  rewrite !columns_upto_take_rows, !columns_from_take_rows.
  repeat split; f_equal.
  - unfold columns_upto. cbn [nrows ncols rows].
    rewrite map_firstn_map2_app by assumption.
    f_equal. lia.
  - unfold columns_from. cbn [nrows ncols rows].
    rewrite map_skipn_map2_app by assumption.
    destruct X_dot as [r c rs]. cbn [nrows ncols rows] in *.
    f_equal; lia.
  - unfold columns_upto. cbn [nrows ncols rows].
    rewrite map_firstn_map2_app by assumption.
    destruct X as [r c rs]. cbn [nrows ncols rows] in *.
    f_equal; lia.
  - unfold columns_from. cbn [nrows ncols rows].
    rewrite map_skipn_map2_app by assumption.
    destruct X_d as [r c rs]. cbn [nrows ncols rows] in *.
    f_equal; lia.
Qed.

(** *** Fits that cannot return *)

(** X14: with [n_epochs = 0] fit_diffeomorphism_model never returns a
    loss: when nothing raised before, [val_losses] is empty at
    [return val_losses[-1]]. *)
Theorem fit_needs_an_epoch
    (X : list (ndarray S)) (t : ndarray S) (X_d : list (ndarray S))
    (learning_rate learning_decay train_frac l2 jacobian_penalty : S)
    (batch_size : nat) (initialize verbose : bool)
    (validation : ValidationSet) (s : World) :
  is_err (fst (fit_diffeomorphism_model X t X_d learning_rate
                 learning_decay 0 train_frac l2 jacobian_penalty batch_size
                 initialize verbose validation s)) = true.
Proof.
  unfold fit_diffeomorphism_model.
  do 4 (apply bind_is_err; intros). cbv zeta.
  do 2 (apply bind_is_err; intros).
  unfold fit_from_dataset.
  do 4 (apply bind_is_err; intros). cbv zeta.
  apply bind_is_err; intros.
  reflexivity.
Qed.

(** A computation that leaves the object as it is. *)
Definition keeps_object {A} (c : M A) : Prop :=
  forall s, self (snd (c s)) = self s.

Lemma keeps_object_bind {A B} (c : M A) (k : A -> M B) :
  keeps_object c -> (forall a, keeps_object (k a)) ->
  keeps_object (bind c k).
Proof.
  intros Hc Hk s. unfold bind.
  destruct (fst (c s)); [rewrite Hk|]; apply Hc.
Qed.

Lemma keeps_object_lift_result {A} (r : result A) :
  keeps_object (lift_result r).
Proof. intros s. reflexivity. Qed.

Lemma keeps_object_ret {A} (a : A) : keeps_object (ret a).
Proof. intros s. reflexivity. Qed.

Lemma keeps_object_raise {A} (e : PyError) : keeps_object (raise (A := A) e).
Proof. intros s. reflexivity. Qed.

Lemma keeps_object_with_generator {A} (f : Generator -> A * Generator) :
  keeps_object (with_generator f).
Proof. intros s. reflexivity. Qed.

Lemma keeps_object_random_split d n_train n_val :
  keeps_object (random_split d n_train n_val).
Proof.
  unfold random_split. destruct (negb _); [apply keeps_object_raise|].
  apply keeps_object_bind; [apply keeps_object_with_generator|].
  intros perm. apply keeps_object_ret.
Qed.

(** The loaders of a fit, as [fit_from_dataset] makes them. *)
Lemma keeps_object_loaders (A_cl X : ndarray S) (dataset : Dataset)
    (train_frac : S) (batch_size : nat) (validation : ValidationSet) :
  keeps_object
    (match validation with
     | (Some X_val, Some t_val, Some Xd_val) =>
         bind (lift_result (validation_tensors A_cl X_val t_val Xd_val))
           (fun val_tensors =>
         bind (lift_result
                 (TensorDataset (fst val_tensors) (snd val_tensors)))
           (fun val_dataset =>
         bind (lift_result (new_DataLoader dataset batch_size true))
           (fun train_loader =>
         bind (lift_result (new_DataLoader val_dataset batch_size false))
           (fun val_loader =>
         ret (train_loader, val_loader)))))
     | _ =>
         let n_train := int_of_fraction train_frac (nrows X) in
         let n_val := (Z.of_nat (nrows X) - n_train)%Z in
         bind (random_split dataset n_train n_val) (fun split =>
         bind (lift_result (new_DataLoader (fst split) batch_size true))
           (fun train_loader =>
         bind (lift_result (new_DataLoader (snd split) batch_size false))
           (fun val_loader =>
         ret (train_loader, val_loader))))
     end).
Proof.
  destruct validation as [[[X_val|] [t_val|]] [Xd_val|]]; cbv zeta;
    repeat first
      [ apply keeps_object_ret
      | apply keeps_object_lift_result
      | apply keeps_object_random_split
      | apply keeps_object_bind; [|intros] ].
Qed.

(** When a step leaves the object alone and the rest raises from every
    state with that object, the whole raises and the object is as it was. *)
Lemma bind_raises_keeping {A B} (c : M A) (k : A -> M B)
    (obj : KoopmanEigenfunctions) (s : World) :
  keeps_object c ->
  (forall a s', self s' = obj ->
     is_err (fst (k a s')) = true /\ self (snd (k a s')) = obj) ->
  self s = obj ->
  is_err (fst (bind c k s)) = true /\ self (snd (bind c k s)) = obj.
Proof.
  intros Hc Hk Hs. unfold bind. pose proof (Hc s) as Hcs.
  destruct (fst (c s)).
  - apply Hk. congruence.
  - cbn [fst snd]. split; [reflexivity|congruence].
Qed.

(** X15: without a built network fit_diffeomorphism_model never returns
    a loss and leaves the object as it was: whatever the data, nothing
    before [self.diffeomorphism_model.parameters()] changes the object. *)
Theorem fit_needs_the_model
    (X : list (ndarray S)) (t : ndarray S) (X_d : list (ndarray S))
    (learning_rate learning_decay : S) (n_epochs : nat)
    (train_frac l2 jacobian_penalty : S)
    (batch_size : nat) (initialize verbose : bool)
    (validation : ValidationSet) (s : World) :
  self_diffeomorphism_model (self s) = None ->
  let run := fit_diffeomorphism_model X t X_d learning_rate learning_decay
               n_epochs train_frac l2 jacobian_penalty batch_size
               initialize verbose validation s in
  is_err (fst run) = true /\ self (snd run) = self s.
Proof.
  intros Hm run. subst run. unfold fit_diffeomorphism_model.
  apply bind_raises_keeping; [intros ?; reflexivity| |reflexivity].
  intros k s1 H1.
  apply bind_raises_keeping; [apply keeps_object_lift_result| |exact H1].
  intros processed s2 H2.
  apply bind_raises_keeping; [apply keeps_object_lift_result| |exact H2].
  intros y_target s3 H3.
  apply bind_raises_keeping; [intros ?; reflexivity| |exact H3].
  intros available s4 H4. cbv zeta.
  apply bind_raises_keeping; [intros ?; reflexivity| |exact H4].
  intros _ s5 H5.
  apply bind_raises_keeping; [apply keeps_object_lift_result| |exact H5].
  intros X_tensor s6 H6. unfold fit_from_dataset.
  apply bind_raises_keeping; [intros ?; reflexivity| |exact H6].
  intros k' s7 H7.
  apply bind_raises_keeping; [apply keeps_object_lift_result| |exact H7].
  intros dataset s8 H8.
  apply bind_raises_keeping; [apply keeps_object_loaders| |exact H8].
  intros loaders s9 H9.
  unfold the_model, bind, get_self. cbn [fst snd].
  rewrite H9, Hm. cbn [raise fst snd]. split; [reflexivity|exact H9].
Qed.

(** *** A training fraction that leaves no validation sample *)

Lemma slice_empty {A} (l : list A) (a : Z) : slice l a a = [].
Proof. unfold slice. now rewrite Nat.sub_diag. Qed.

(** An epoch over a validation loader with no sample divides by zero, if
    it gets that far. *)
Lemma epoch_without_validation
    (learning_rate learning_decay jacobian_penalty : S) (device : string)
    (train_loader val_loader : DataLoader) (i : nat) (p : Progress)
    (s : World) :
  indices (loader_dataset val_loader) = [] ->
  loader_shuffle val_loader = false ->
  is_err (fst (epoch learning_rate learning_decay jacobian_penalty device
                 train_loader val_loader i p s)) = true.
Proof.
  intros Hidx Hsh. unfold epoch.
  do 4 (apply bind_is_err; intros).
  erewrite bind_ok.
  2: { unfold batches. rewrite Hsh, Hidx.
       erewrite bind_ok by reflexivity. reflexivity. }
  erewrite bind_ok by reflexivity.
  reflexivity.
Qed.

(** Splitting off every sample for training leaves a validation loader
    with nothing in it. *)
Lemma split_without_validation (dataset : Dataset) (N : nat) (n_train : Z)
    (batch_size : nat) (s s' : World) (loaders : DataLoader * DataLoader) :
  n_train = Z.of_nat N ->
  bind (random_split dataset n_train (Z.of_nat N - n_train)%Z)
    (fun split =>
  bind (lift_result (new_DataLoader (fst split) batch_size true))
    (fun train_loader =>
  bind (lift_result (new_DataLoader (snd split) batch_size false))
    (fun val_loader =>
  ret (train_loader, val_loader)))) s = (Ok loaders, s') ->
  indices (loader_dataset (snd loaders)) = [] /\
  loader_shuffle (snd loaders) = false.
Proof.
  intros -> E. unfold random_split in E.
  destruct (negb _); [discriminate E|].
  unfold bind, with_generator, lift_result, new_DataLoader, ret in E.
  cbn [fst snd] in E.
  destruct (batch_size =? 0); cbn [fst snd] in E; [discriminate E|].
  injection E as <- _. cbn [fst snd loader_dataset loader_shuffle indices].
  split; [|reflexivity].
  replace (Z.of_nat N + (Z.of_nat N - Z.of_nat N) -
           (Z.of_nat N - Z.of_nat N))%Z
    with (Z.of_nat N + (Z.of_nat N - Z.of_nat N))%Z by lia.
  apply slice_empty.
Qed.

(** Whether the call passed a whole validation set. *)
Definition explicit_validation (validation : ValidationSet (S := S))
  : bool :=
  match validation with
  | (Some _, Some _, Some _) => true
  | _ => false
  end.

(** X16: a training fraction that takes every sample leaves fit without a
    result: when no validation set is passed and [int(train_frac * N)] is
    the number N of processed samples, the validation subset is empty and
    fit_diffeomorphism_model never returns a loss (the first epoch, if it
    gets through training, divides by [len(batch_val_loss) = 0]). *)
Theorem fit_needs_validation_samples
    (X : list (ndarray S)) (t : ndarray S) (X_d : list (ndarray S))
    (learning_rate learning_decay : S) (n_epochs : nat)
    (train_frac l2 jacobian_penalty : S)
    (batch_size : nat) (initialize verbose : bool)
    (validation : ValidationSet) (s : World) :
  explicit_validation validation = false ->
  (forall processed, process X t X_d = Ok processed ->
     int_of_fraction train_frac (nrows (shifted_state processed)) =
     Z.of_nat (nrows (shifted_state processed))) ->
  is_err (fst (fit_diffeomorphism_model X t X_d learning_rate
                 learning_decay n_epochs train_frac l2 jacobian_penalty
                 batch_size initialize verbose validation s)) = true.
Proof.
  intros Hval Hfrac. unfold fit_diffeomorphism_model.
  apply bind_is_err; intros k s1.
  apply (bind_is_err_after (fun p => process X t X_d = Ok p)).
  { unfold lift_result. intros p s' E. now injection E as E _. }
  intros processed s2 HP. specialize (Hfrac processed HP).
  do 2 (apply bind_is_err; intros). cbv zeta.
  do 2 (apply bind_is_err; intros).
  unfold fit_from_dataset.
  do 2 (apply bind_is_err; intros).
  apply (bind_is_err_after
           (fun loaders =>
              indices (loader_dataset (snd loaders)) = [] /\
              loader_shuffle (snd loaders) = false)).
  { intros loaders s9 E.
    destruct validation as [[[X_val|] [t_val|]] [Xd_val|]];
      try discriminate Hval; cbv zeta in E;
      exact (split_without_validation _ _ _ _ _ _ _ Hfrac E). }
  intros loaders s10 [Hidx Hsh].
  do 2 (apply bind_is_err; intros).
  destruct n_epochs as [|n_epochs].
  - reflexivity.
  - apply bind_raises. cbn [seq for_each]. apply bind_raises.
    now apply epoch_without_validation.
Qed.

(** *** process *)

Lemma traverse_last_row_error (l : list (ndarray S)) (e : PyError) :
  traverse last_row l = Err e -> e = IndexError.
Proof.
  induction l as [|a l IH]; cbn [traverse]; [discriminate|].
  unfold last_row at 1. destruct (rev (rows a)); cbn [rbind].
  - intros E. now injection E.
  - destruct (traverse last_row l); cbn [rbind]; [discriminate|].
    intros E. injection E as <-. now apply IH.
Qed.

(** X17: an empty list of trajectories makes process raise the IndexError
    of [X_shift[:, :, 0]] (or of [X_d[:, -1, :]] before it), whatever the
    times and desired states; fit_diffeomorphism_model then raises it too,
    before it has seeded the generator or touched the object. *)
Theorem nothing_to_process (t : ndarray S) (X_d : list (ndarray S)) :
  process [] t X_d = Err IndexError /\
  forall (learning_rate learning_decay : S) (n_epochs : nat)
         (train_frac l2 jacobian_penalty : S) (batch_size : nat)
         (initialize verbose : bool) (validation : ValidationSet)
         (s : World),
    fit_diffeomorphism_model [] t X_d learning_rate learning_decay n_epochs
      train_frac l2 jacobian_penalty batch_size initialize verbose
      validation s = (Err IndexError, s).
Proof.
  assert (HP : process [] t X_d = Err IndexError).
  { unfold process.
    destruct (traverse last_row X_d) as [X_f|e] eqn:E; [reflexivity|].
    apply traverse_last_row_error in E. now subst e. }
  split; [exact HP|]. intros. unfold fit_diffeomorphism_model.
  erewrite bind_ok by reflexivity. cbv beta.
  erewrite bind_err; [reflexivity|].
  unfold lift_result. now rewrite HP.
Qed.

(** The last sample of a trajectory, [x_d[-1, :]]. *)
Definition final_state (x_d : ndarray S) : list S := hd [] (rev (rows x_d)).

(** A trajectory with [x_f] subtracted from every sample. *)
Definition shifted (x : ndarray S) (x_f : list S) : ndarray S :=
  mk_ndarray (nrows x) (ncols x) (map (fun r => map2 ssub r x_f) (rows x)).

(** The samples of all trajectories, one trajectory after the other. *)
Definition stacked (Ntraj Nt Ns : nat) (l : list (ndarray S)) : ndarray S :=
  mk_ndarray (Ntraj * Nt) Ns (concat (map rows l)).

(** The shape every block has. *)
Definition block (Nt Ns : nat) (x : ndarray S) : Prop :=
  wf x /\ nrows x = Nt /\ ncols x = Ns.

Lemma broadcast_dim_one_r n : broadcast_dim n 1 = Some n.
Proof.
  unfold broadcast_dim.
  destruct (Nat.eqb_spec n 1) as [->|]; [reflexivity|].
  reflexivity.
Qed.

Lemma map2_repeat_r {A B C} (f : A -> B -> C) (y : B) (l : list A) :
  map2 f l (repeat y (length l)) = map (fun x => f x y) l.
Proof. induction l as [|x l IH]; simpl; congruence. Qed.

Lemma subtract_row_shifted (x : ndarray S) (x_f : list S) :
  wf x -> ncols x = length x_f ->
  subtract_row x x_f = Ok (shifted x x_f).
Proof.
  intros [Hn Hc] Hl. unfold subtract_row, subtract, broadcast2, shifted.
  cbn [nrows ncols]. rewrite <- Hl, broadcast_dim_one_r, broadcast_dim_refl.
  unfold broadcast_to. cbn [nrows ncols rows].
  rewrite !stretch_same, stretch_one.
  rewrite !map_id_ext by (intros; apply stretch_same).
  rewrite <- Hn, map2_repeat_r. reflexivity.
Qed.

Lemma traverse_items_from {A B C} (f : A -> B -> result C)
    (g : A -> B -> C) : forall (la : list A) (lb : list B) pa pb,
  length pa = length pb -> length la = length lb ->
  (forall a b, In (a, b) (combine la lb) -> f a b = Ok (g a b)) ->
  traverse (fun ii =>
              rbind (item (pa ++ la) ii) (fun a =>
              rbind (item (pb ++ lb) ii) (fun b => f a b)))
           (seq (length pa) (length la)) =
  Ok (map2 g la lb).
Proof.
  induction la as [|a la IH]; intros [|b lb] pa pb Hp Hl Hf;
    try discriminate; [reflexivity|].
  cbn [length seq traverse map2].
  unfold item at 1 2.
  rewrite nth_error_app2, Nat.sub_diag by lia. cbn [nth_error rbind].
  rewrite Hp at 1. rewrite nth_error_app2, Nat.sub_diag by lia.
  cbn [nth_error rbind].
  rewrite (Hf a b) by now left. cbn [rbind].
  replace (pa ++ a :: la) with ((pa ++ [a]) ++ la)
    by (now rewrite <- app_assoc).
  replace (pb ++ b :: lb) with ((pb ++ [b]) ++ lb)
    by (now rewrite <- app_assoc).
  replace (Datatypes.S (length pa)) with (length (pa ++ [a]))
    by (rewrite length_app; simpl; lia).
  rewrite IH; [reflexivity| | |].
  - rewrite !length_app. simpl. lia.
  - simpl in Hl. lia.
  - intros a' b' H. apply Hf. now right.
Qed.

Lemma traverse_items {A B C} (f : A -> B -> result C) (g : A -> B -> C)
    (la : list A) (lb : list B) :
  length la = length lb ->
  (forall a b, In (a, b) (combine la lb) -> f a b = Ok (g a b)) ->
  traverse (fun ii =>
              rbind (item la ii) (fun a =>
              rbind (item lb ii) (fun b => f a b)))
           (seq 0 (length la)) =
  Ok (map2 g la lb).
Proof.
  intros Hl Hf. exact (traverse_items_from f g la lb [] [] eq_refl Hl Hf).
Qed.

Lemma traverse_last_row (Nt Ns : nat) (l : list (ndarray S)) :
  1 <= Nt -> Forall (block Nt Ns) l ->
  traverse last_row l = Ok (map final_state l) /\
  Forall (fun x_f => length x_f = Ns) (map final_state l).
Proof.
  intros HNt. induction 1 as [|x l (Hwf & Hr & Hc) Hl [IH1 IH2]];
    [split; [reflexivity|constructor]|].
  cbn [traverse map]. unfold last_row at 1, final_state at 1 3.
  destruct Hwf as [Hn Hcols].
  destruct (rev (rows x)) as [|r rs] eqn:E.
  - apply (f_equal (@length _)) in E. rewrite length_rev in E.
    simpl in E. lia.
  - cbn [rbind hd]. rewrite IH1. cbn [rbind]. split; [reflexivity|].
    constructor; [|exact IH2].
    rewrite Forall_forall in Hcols. rewrite <- Hc. apply Hcols.
    apply in_rev. rewrite E. now left.
Qed.

Lemma array_of_blocks_ok (Nt Ns : nat) (l : list (ndarray S)) :
  Forall (fun b => nrows b = Nt /\ ncols b = Ns) l ->
  array_of_blocks l = Ok l.
Proof.
  intros H. destruct l as [|b l]; [reflexivity|].
  inversion H as [|? ? [Hr Hc] Hl]; subst. unfold array_of_blocks.
  replace (forallb (same_shape b) l) with true; [reflexivity|].
  symmetry. apply forallb_forall. intros x Hx.
  rewrite Forall_forall in Hl. destruct (Hl x Hx) as [Hxr Hxc].
  unfold same_shape. now rewrite Hxr, Hxc, !Nat.eqb_refl.
Qed.

Lemma shape3_blocks (Nt Ns : nat) (l : list (ndarray S)) :
  1 <= length l ->
  Forall (fun b => nrows b = Nt /\ ncols b = Ns) l ->
  shape3 l = Some (length l, Nt, Ns).
Proof.
  intros Hlen H. destruct l as [|b l]; [simpl in Hlen; lia|].
  inversion H as [|? ? [Hr Hc] Hl]; subst. reflexivity.
Qed.

Lemma map2_shapes {A B} (P : ndarray S -> Prop) (f : A -> B -> ndarray S)
    (la : list A) : forall lb,
  (forall a b, In a la -> In b lb -> P (f a b)) ->
  Forall P (map2 f la lb).
Proof.
  induction la as [|a la IH]; intros [|b lb] Hf; cbn [map2]; auto.
  constructor; [apply Hf; now left|].
  apply IH. intros; apply Hf; now right.
Qed.

(** X18: process in closed form.  For Ntraj >= 1 trajectories of Nt >= 1
    samples of Ns >= 1 states, times of shape (Ntraj, Nt) and a
    differentiate_vec that keeps the shape of its input, process succeeds:
    every trajectory, state and desired state alike, is shifted by the last
    desired state of that trajectory, the derivatives are taken per
    trajectory of the shifted states, and the samples of all trajectories
    are stacked in the order of the trajectories into Ntraj * Nt rows. *)
Theorem process_in_closed_form (Ntraj Nt Ns : nat)
    (X : list (ndarray S)) (t : ndarray S) (X_d : list (ndarray S)) :
  (forall x ts, nrows (differentiate_vec x ts) = nrows x /\
                ncols (differentiate_vec x ts) = ncols x) ->
  1 <= Ntraj -> 1 <= Nt -> 1 <= Ns ->
  length X = Ntraj -> length X_d = Ntraj ->
  Forall (block Nt Ns) X -> Forall (block Nt Ns) X_d ->
  wf t -> nrows t = Ntraj -> ncols t = Nt ->
  let X_f := map final_state X_d in
  let X_shift := map2 shifted X X_f in
  let X_d_shift := map2 shifted X_d X_f in
  let X_dot := map2 differentiate_vec X_shift (rows t) in
  process X t X_d =
  Ok (stacked Ntraj Nt Ns X_shift, stacked Ntraj Nt Ns X_dot,
      stacked Ntraj Nt Ns X_d_shift, concat (rows t)).
Proof.
  intros Hdiff HNtraj HNt HNs HX HXd HbX HbXd [Htn Htc] Htr Htcol
         X_f X_shift X_d_shift X_dot.
  destruct (traverse_last_row Nt Ns X_d HNt HbXd) as [EXf HXf].
  fold X_f in EXf, HXf.
  assert (LXf : length X_f = Ntraj) by (unfold X_f; now rewrite length_map).
  assert (Hshift : forall (l : list (ndarray S)),
            Forall (block Nt Ns) l -> length l = Ntraj ->
            traverse (fun ii =>
                        rbind (item l ii) (fun x =>
                        rbind (item X_f ii) (fun xf => subtract_row x xf)))
                     (seq 0 Ntraj) = Ok (map2 shifted l X_f) /\
            Forall (fun b => nrows b = Nt /\ ncols b = Ns)
                   (map2 shifted l X_f) /\
            length (map2 shifted l X_f) = Ntraj).
  { intros l Hl Hlen. split; [|split].
    - rewrite <- Hlen. apply traverse_items; [congruence|].
      intros a b Hab. apply subtract_row_shifted.
      + apply in_combine_l in Hab. rewrite Forall_forall in Hl.
        now destruct (Hl a Hab).
      + pose proof (in_combine_l _ _ _ _ Hab) as Ha.
        apply in_combine_r in Hab.
        rewrite Forall_forall in Hl, HXf.
        destruct (Hl a Ha) as (_ & _ & ->). symmetry. now apply HXf.
    - apply map2_shapes. intros a b Ha _. rewrite Forall_forall in Hl.
      destruct (Hl a Ha) as (_ & Hr & Hc). now split.
    - rewrite map2_length, Hlen, LXf. apply Nat.min_id. }
  destruct (Hshift X HbX HX) as (EX & SX & LX).
  destruct (Hshift X_d HbXd HXd) as (ED & SD & LD).
  fold X_shift in EX, SX, LX. fold X_d_shift in ED, SD, LD.
  assert (EDot : traverse (fun ii =>
                    rbind (item X_shift ii) (fun x =>
                    rbind (item (rows t) ii) (fun ti =>
                    Ok (differentiate_vec x ti))))
                  (seq 0 (length X_shift)) = Ok X_dot).
  { apply traverse_items; [congruence|]. reflexivity. }
  assert (SDot : Forall (fun b => nrows b = Nt /\ ncols b = Ns) X_dot).
  { apply map2_shapes. intros a b Ha _. rewrite Forall_forall in SX.
    destruct (SX a Ha) as [Hr Hc]. destruct (Hdiff a b) as [-> ->].
    now split. }
  assert (LDot : length X_dot = Ntraj).
  { unfold X_dot. rewrite map2_length, LX, Htn, Htr. apply Nat.min_id. }
  unfold process. rewrite EXf. cbn [rbind]. rewrite HX, EX. cbn [rbind].
  rewrite (array_of_blocks_ok Nt Ns) by exact SX. cbn [rbind].
  rewrite ED. cbn [rbind].
  rewrite (array_of_blocks_ok Nt Ns) by exact SD. cbn [rbind].
  rewrite EDot. cbn [rbind].
  rewrite (array_of_blocks_ok Nt Ns) by exact SDot. cbn [rbind].
  unfold flatten_blocks.
  rewrite (shape3_blocks Nt Ns X_shift), (shape3_blocks Nt Ns X_dot),
    (shape3_blocks Nt Ns X_d_shift) by (assumption || lia).
  rewrite LX, LDot, LD. unfold shape3_eqb, assert.
  rewrite !Nat.eqb_refl. cbn [andb rbind].
  destruct (Nat.eqb_spec Ns 0) as [E|_]; [lia|].
  rewrite Htr, Htcol, !Nat.eqb_refl. cbn [andb rbind].
  reflexivity.
Qed.

End Fitting.

Section Plotting.
Context {S : Type} {scalar : Scalar S} {random : TorchRandom S}.

(** *** The lifts of plot_eigenfunction_evolution (lines 343-348) *)

(** [x[:1, :]] *)
Definition first_rows (x : ndarray S) : ndarray S :=
  mk_ndarray (Nat.min 1 (nrows x)) (ncols x) (firstn 1 (rows x)).

(** [z0 = self.lift(X[ii,:1,:].T, X_d[ii,:1,:].T)], flattened as the
    simulation takes it. *)
Definition z0 (x x_d : ndarray S) : M (list S) :=
  bind (lift (transpose (first_rows x)) (transpose (first_rows x_d)))
    (fun z0 => ret (concat (rows z0))).

(** [eigfunc_evo_tmp = self.lift(X[ii,:,:].T, X_d[ii,:,:].T).transpose()] *)
Definition eigfunc_evo_tmp (x x_d : ndarray S) : M (ndarray S) :=
  bind (lift (transpose x) (transpose x_d))
    (fun lifted => ret (transpose lifted)).

Lemma columns_of_transpose (x : ndarray S) :
  wf x -> columns (transpose x) = rows x.
Proof.
  intros [Hn Hc]. unfold columns, transpose. cbn [nrows ncols rows].
  rewrite <- Hn. now apply transpose_rows_involutive.
Qed.

Lemma map_nth_seq {A B} (f : A -> B) (d : A) (l : list A) :
  map (fun ii => f (nth ii l d)) (seq 0 (length l)) = map f l.
Proof.
  rewrite <- (map_map (fun ii => nth ii l d) f). f_equal.
  induction l as [|x l IH]; [reflexivity|].
  cbn [length seq map nth]. f_equal.
  rewrite <- seq_shift, map_map. exact IH.
Qed.

(** lift of a transposed trajectory: one row per sample of it. *)
Lemma lift_of_trajectory (s : World) (w : ndarray S) (sc : list S)
    (m : Sequential S) (x x_d : ndarray S) :
  ready s w sc m ->
  wf x -> wf x_d ->
  ncols x = self_n (self s) -> ncols x_d = self_n (self s) ->
  nrows x <= nrows x_d ->
  lift (transpose x) (transpose x_d) s =
  (Ok (array_of_rows
         (map (basis_value w sc
                 (Powers.powers (self_n (self s)) (self_max_power (self s))))
              (rows x))),
   after_lift m (transpose x) s).
Proof.
  intros Hr Hx Hxd Hc Hdc Hn.
  rewrite (lift_run s w sc m); auto using transpose_wf.
  unfold lifted. rewrite columns_of_transpose by assumption.
  cbn [transpose ncols]. destruct Hx as [Hlen _]. rewrite <- Hlen.
  now rewrite map_nth_seq.
Qed.

Lemma first_rows_wf (x : ndarray S) : wf x -> wf (first_rows x).
Proof.
  intros [Hn Hc]. split; cbn [first_rows nrows ncols rows].
  - rewrite length_firstn. lia.
  - rewrite Forall_forall in *. intros r Hr. apply Hc.
    rewrite <- (firstn_skipn 1 (rows x)). apply in_or_app. now left.
Qed.

(** X19: the two lifts of plot_eigenfunction_evolution agree: for a
    trajectory of Nt >= 1 samples of n states, [eigfunc_evo_tmp] (the
    transposed lift of the whole trajectory) is Nlift x Nt with column j
    the basis at sample j, and the initial state [z0] of the eigenvalue
    simulation is its first column. *)
Theorem lifted_trajectory_starts_at_z0 (s : World) (w : ndarray S)
    (sc : list S) (m : Sequential S) (x x_d : ndarray S) :
  ready s w sc m ->
  wf x -> wf x_d ->
  ncols x = self_n (self s) -> ncols x_d = self_n (self s) ->
  1 <= nrows x -> nrows x <= nrows x_d ->
  exists evo start,
    fst (eigfunc_evo_tmp x x_d s) = Ok evo /\
    fst (z0 x x_d s) = Ok start /\
    nrows evo =
      (self_max_power (self s) + 1) ^ self_n (self s) /\
    ncols evo = nrows x /\
    column evo 0 = Ok start /\
    forall j, j < nrows x ->
      column evo j =
      Ok (basis_value w sc
            (Powers.powers (self_n (self s)) (self_max_power (self s)))
            (nth j (rows x) [])).
Proof.
  intros Hr Hx Hxd Hc Hdc H1 Hn.
  set (pw := Powers.powers (self_n (self s)) (self_max_power (self s))).
  set (bv := basis_value w sc pw).
  assert (Hcols : forall l : list (list S),
            l <> [] ->
            let evo := transpose (array_of_rows (map bv l)) in
            nrows evo = (self_max_power (self s) + 1) ^ self_n (self s) /\
            ncols evo = length l /\
            forall j, j < length l ->
              column evo j = Ok (bv (nth j l []))).
  { intros l Hl evo.
    assert (Hrows : Forall (fun r => length r = length pw) (map bv l)).
    { apply Forall_map, Forall_forall. intros c _. apply length_map. }
    assert (Hw : ncols (array_of_rows (map bv l)) = length pw).
    { destruct l as [|c l]; [congruence|]. apply length_map. }
    split; [|split].
    - unfold evo. cbn [transpose nrows]. rewrite Hw.
      apply Powers.powers_count.
    - unfold evo. cbn [transpose ncols array_of_rows nrows].
      apply length_map.
    - intros j Hj. unfold column, evo.
      cbn [transpose ncols nrows rows]. rewrite Hw.
      cbn [array_of_rows nrows rows].
      rewrite transpose_rows_involutive by exact Hrows.
      rewrite (nth_error_nth' _ (bv []))
        by (now rewrite length_map).
      now rewrite (map_nth bv). }
  pose proof Hx as [Hlen Hxc].
  destruct (rows x) as [|r0 rs] eqn:Erows; [simpl in Hlen; lia|].
  destruct (Hcols (r0 :: rs)) as (Hnr & Hnc & Hcol); [discriminate|].
  exists (transpose (array_of_rows (map bv (r0 :: rs)))), (bv r0).
  split; [|split; [|split; [exact Hnr|split; [|split]]]].
  - unfold eigfunc_evo_tmp.
    erewrite bind_ok.
    2: { apply (lift_of_trajectory s w sc m); auto. }
    rewrite Erows. reflexivity.
  - unfold z0.
    erewrite bind_ok.
    2: { apply (lift_of_trajectory s w sc m); auto.
         - now apply first_rows_wf.
         - now apply first_rows_wf.
         - cbn [first_rows nrows]. lia. }
    cbn [first_rows rows]. rewrite Erows.
    cbn [firstn map array_of_rows rows concat ret fst].
    now rewrite app_nil_r.
  - rewrite Hnc. exact Hlen.
  - apply (Hcol 0). simpl. lia.
  - intros j Hj. apply Hcol. rewrite Hlen. exact Hj.
Qed.

End Plotting.

End Behaviour.

(** ** Saving and loading the network *)

Module Storage.
Import Numpy Torch Koopman.

Section Files.
Context {S : Type} {scalar : Scalar S} {random : TorchRandom S}.

(** The parameters of a linear layer. *)
Inductive ParamName : Type := weight | bias.

(** A parameter tensor: a weight has two dimensions, a bias one. *)
Inductive Param : Type :=
| Matrix (w : ndarray S)
| Vector (b : list S).

(** The key [name + "." + parameter] of a state dict; torch lets no module
    name hold a dot, so the name and the parameter make the key. *)
Definition Key : Type := string * ParamName.

(** [OrderedDict] of the parameter tensors. *)
Definition StateDict : Type := list (Key * Param).

Definition param_name_eqb (a b : ParamName) : bool :=
  match a, b with
  | weight, weight | bias, bias => true
  | _, _ => false
  end.

Definition key_eqb (a b : Key) : bool :=
  String.eqb (fst a) (fst b) && param_name_eqb (snd a) (snd b).

Fixpoint lookup (k : Key) (sd : StateDict) : option Param :=
  match sd with
  | [] => None
  | (k', v) :: t => if key_eqb k' k then Some v else lookup k t
  end.

Definition layer_parameters (name : string) (l : Layer S) : StateDict :=
  match l with
  | Linear _ _ w b => [((name, weight), Matrix w); ((name, bias), Vector b)]
  | _ => []
  end.

(** [model.state_dict()] *)
Definition state_dict (m : Sequential S) : StateDict :=
  flat_map (fun kv => layer_parameters (fst kv) (snd kv)) (modules m).

(** [p.shape] *)
Definition shape (p : Param) : list nat :=
  match p with
  | Matrix w => [nrows w; ncols w]
  | Vector b => [length b]
  end.

Definition shape_eqb (a b : list nat) : bool :=
  if list_eq_dec Nat.eq_dec a b then true else false.

(** One parameter of [load_state_dict]: a tensor found under the key and
    of the same shape is copied in; a missing key or another shape is an
    error, and the parameter stays. *)
Definition load_param (sd : StateDict) (k : Key) (current : Param)
  : Param * bool :=
  match lookup k sd with
  | Some v =>
      if shape_eqb (shape v) (shape current) then (v, true)
      else (current, false)
  | None => (current, false)
  end.

Definition as_matrix (p : Param) (otherwise : ndarray S) : ndarray S :=
  match p with Matrix w => w | Vector _ => otherwise end.

Definition as_vector (p : Param) (otherwise : list S) : list S :=
  match p with Vector b => b | Matrix _ => otherwise end.

Definition load_layer (sd : StateDict) (kv : string * Layer S)
  : (string * Layer S) * bool :=
  match snd kv with
  | Linear i o w b =>
      let rw := load_param sd (fst kv, weight) (Matrix w) in
      let rb := load_param sd (fst kv, bias) (Vector b) in
      ((fst kv, Linear i o (as_matrix (fst rw) w) (as_vector (fst rb) b)),
       snd rw && snd rb)
  | _ => (kv, true)
  end.

(** The keys of the state dict that the model has no parameter for. *)
Definition unexpected_keys (sd : StateDict) (m : Sequential S) : list Key :=
  filter (fun k => negb (existsb (key_eqb k) (map fst (state_dict m))))
         (map fst sd).

(** [model.load_state_dict(sd)], strict: what fits is copied in, and then
    a missing key, an unexpected key or a size mismatch raises
    RuntimeError. *)
Definition load_state_dict (m : Sequential S) (sd : StateDict)
  : result unit * Sequential S :=
  let loaded := map (load_layer sd) (modules m) in
  let m' := mk_Sequential (map fst loaded) (training m) (param_dtype m) in
  if forallb snd loaded &&
     match unexpected_keys sd m with [] => true | _ :: _ => false end
  then (Ok tt, m')
  else (Err RuntimeError, m').

(** The files [torch.save] wrote, the newest first. *)
Definition Files : Type := list (string * StateDict).

Fixpoint read (filename : string) (files : Files) : option StateDict :=
  match files with
  | [] => None
  | (name, sd) :: t => if String.eqb name filename then Some sd
                       else read filename t
  end.

(** [save(self.diffeomorphism_model.state_dict(), filename)]: returns the
    files as they are after the call. *)
Definition save_diffeomorphism_model (filename : string) (files : Files)
  : M Files :=
  bind get_self (fun k =>
  match self_diffeomorphism_model k with
  | None => raise AttributeError
  | Some model => ret ((filename, state_dict model) :: files)
  end).

(** [self.diffeomorphism_model.load_state_dict(load(filename))]: the
    method is looked up on the network before the file is read, and
    [load] raises FileNotFoundError when there is no such file. *)
Definition load_diffeomorphism_model (filename : string) (files : Files)
  : M unit :=
  bind get_self (fun k =>
  match self_diffeomorphism_model k with
  | None => raise AttributeError
  | Some model =>
      match read filename files with
      | None => raise FileNotFoundError
      | Some sd =>
          let r := load_state_dict model sd in
          bind (modify_self (set_diffeomorphism_model (snd r))) (fun _ =>
          lift_result (fst r))
      end
  end).

(** *** Errors *)

(** X20: save and load need a network and load needs the file: without a
    network both raise AttributeError, load even when the file is missing
    too; with a network and no file of that name load raises
    FileNotFoundError.  In all three cases the state is as before, and a
    failed save has written nothing. *)
Theorem storage_errors (filename : string) (files : Files) (s : World) :
  (self_diffeomorphism_model (self s) = None ->
   save_diffeomorphism_model filename files s = (Err AttributeError, s) /\
   load_diffeomorphism_model filename files s = (Err AttributeError, s)) /\
  (forall model, self_diffeomorphism_model (self s) = Some model ->
   read filename files = None ->
   load_diffeomorphism_model filename files s =
     (Err FileNotFoundError, s)).
Proof.
  split.
  - intros Hm. unfold save_diffeomorphism_model, load_diffeomorphism_model.
    split; erewrite bind_ok by reflexivity; cbv beta; now rewrite Hm.
  - intros model Hm Hr. unfold load_diffeomorphism_model.
    erewrite bind_ok by reflexivity. cbv beta. now rewrite Hm, Hr.
Qed.

(** *** The round trip *)



Lemma key_eqb_name (a b : Key) : key_eqb a b = true -> fst a = fst b.
Proof.
  unfold key_eqb. intros H. apply andb_prop in H as [H _].
  now apply String.eqb_eq.
Qed.

Lemma lookup_fresh (name : string) (pn : ParamName)
    (ms : list (string * Layer S)) :
  ~ In name (map fst ms) ->
  lookup (name, pn)
    (flat_map (fun kv => layer_parameters (fst kv) (snd kv)) ms) = None.
Proof.
  induction ms as [|[k l] ms IH]; intros Hn; [reflexivity|].
  cbn [flat_map fst snd map] in *.
  assert (Hk : k <> name) by (intros ->; apply Hn; now left).
  assert (Hms : ~ In name (map fst ms)) by (intros H; apply Hn; now right).
  assert (Hkey : forall pn', key_eqb (k, pn') (name, pn) = false).
  { intros pn'. unfold key_eqb. cbn [fst snd].
    destruct (String.eqb_spec k name); [contradiction|reflexivity]. }
  destruct l; cbn [layer_parameters app lookup]; rewrite ?Hkey; auto.
Qed.







End Files.

End Storage.

(** ** Runs on the real numbers: the object in use *)

Module RealBehaviour.
Import Reals Lra.
Import Numpy Torch Koopman RealNumbers.

(** *** The hypotheses hold on concrete objects *)

Section Witnesses.
Import Behaviour.
#[local] Existing Instance Examples.diagonal_linalg.
#[local] Existing Instance Examples.counting_generator.

Definition start : World := RealRuns.start.

(** Three samples of two states, as columns and as a trajectory. *)
Definition samples : ndarray R := RealRuns.samples.

Definition trajectory : ndarray R :=
  mk_ndarray 3 2 [[0%R; 0%R]; [1%R; 3%R]; [2%R; (1 / 2)%R]].

(** Four desired states, one desired state, and a state with three rows. *)
Definition four_desired : ndarray R :=
  mk_ndarray 2 4 [[9%R; 8%R; 7%R; 6%R]; [5%R; 4%R; 3%R; 2%R]].

Definition one_desired : ndarray R := mk_ndarray 2 1 [[9%R]; [5%R]].

Definition three_rows : ndarray R := mk_ndarray 3 1 [[1%R]; [2%R]; [3%R]].

Lemma trajectory_wf : wf trajectory.
Proof. split; [reflexivity|repeat constructor]. Qed.

Lemma four_desired_wf : wf four_desired.
Proof. split; [reflexivity|repeat constructor]. Qed.

Lemma one_desired_wf : wf one_desired.
Proof. split; [reflexivity|repeat constructor]. Qed.

Lemma three_rows_wf : wf three_rows.
Proof. split; [reflexivity|repeat constructor]. Qed.

(** The object of the end-to-end scenario, set up. *)
Definition set_up : M unit :=
  setup 2 50 64 (1 / 10)%R [1%R; 1%R] [(-1)%R; (-1)%R].

Lemma ready_after_setup :
  exists m s,
    set_up start = (Ok tt, s) /\
    ready s (kept_eigenvectors RealRuns.object)
          (map2 ssub [1%R; 1%R] [(-1)%R; (-1)%R]) m /\
    self_n (self s) = 2 /\ self_max_power (self s) = 1 /\
    architecture m = built_architecture 2 2 50 (1 / 10)%R.
Proof.
  destruct (setup_spec 2 50 64 (1 / 10)%R [1%R; 1%R] [(-1)%R; (-1)%R]
              start eq_refl RealRuns.real_tenth_ok eq_refl eq_refl
              eq_refl eq_refl)
    as (m & s & Es & Hr & Hn & Hmp & Harch & _).
  exists m, s. exact (conj Es (conj Hr (conj Hn (conj Hmp Harch)))).
Qed.

Lemma lift_ignores_the_desired_state_witness :
  wf samples /\ wf four_desired /\
  exists s, set_up start = (Ok tt, s) /\
            lift samples samples s = lift samples four_desired s.
Proof.
  split; [exact RealRuns.samples_wf|]. split; [exact four_desired_wf|].
  destruct ready_after_setup as (m & s & Es & Hr & Hn & _).
  exists s. split; [exact Es|].
  apply (lift_ignores_the_desired_state s _ _ m samples samples
           four_desired Hr RealRuns.samples_wf RealRuns.samples_wf
           four_desired_wf);
    rewrite ?Hn; simpl; lia.
Defined.

(** A network of one layer that takes four inputs. *)
Definition other_network : Sequential R :=
  double (nn_Sequential
            [Linear 4 2 (mk_ndarray 2 4 [[1; 2; 3; 4]; [5; 6; 7; 8]]%R)
                    [1%R; 1%R]]).

Lemma lift_ignores_the_network_witness :
  param_dtype other_network = Float64 /\
  exists s, set_up start = (Ok tt, s) /\
    fst (lift samples samples s) =
    fst (lift samples samples
           (mk_World (set_diffeomorphism_model other_network (self s)) 7
                     (cuda_is_available s) (warnings_shown s))).
Proof.
  split; [reflexivity|].
  destruct ready_after_setup as (m & s & Es & Hr & Hn & _).
  exists s. split; [exact Es|].
  apply (lift_ignores_the_network s _ _ m other_network 7 samples samples
           Hr eq_refl);
    try exact RealRuns.samples_wf; rewrite ?Hn; reflexivity.
Defined.

Lemma lift_only_switches_to_evaluation_witness :
  wf samples /\
  exists m s, set_up start = (Ok tt, s) /\
    self_diffeomorphism_model (self s) = Some m /\
    default_generator (snd (lift samples samples s)) = default_generator s /\
    self (snd (lift samples samples s)) =
      set_diffeomorphism_model (eval m) (self s).
Proof.
  split; [exact RealRuns.samples_wf|].
  destruct ready_after_setup as (m & s & Es & Hr & Hn & _).
  exists m, s. split; [exact Es|].
  split; [exact (proj1 (proj2 (proj2 (proj2 Hr))))|].
  pose proof (lift_only_switches_to_evaluation s _ _ m samples samples Hr
                RealRuns.samples_wf RealRuns.samples_wf) as H.
  rewrite Hn in H. specialize (H eq_refl eq_refl (le_n _)).
  destruct H as (Hg & Hs & _).
  split; [exact Hg|exact Hs].
Defined.

Lemma lift_rejects_a_wrong_state_dimension_witness :
  wf three_rows /\ nrows three_rows <> self_n (self start) /\
  lift three_rows three_rows start = (Err ValueError, start).
Proof.
  split; [exact three_rows_wf|]. split; [simpl; lia|].
  apply (lift_rejects_a_wrong_state_dimension start three_rows three_rows
           three_rows_wf); simpl; lia.
Defined.

Lemma lift_needs_a_desired_state_per_sample_witness :
  ncols one_desired < ncols samples /\
  exists m s, set_up start = (Ok tt, s) /\
    lift samples one_desired s = (Err IndexError, in_eval_mode m s).
Proof.
  split; [simpl; lia|].
  destruct ready_after_setup as (m & s & Es & Hr & Hn & _).
  exists m, s. split; [exact Es|].
  apply (lift_needs_a_desired_state_per_sample s _ _ m samples one_desired
           Hr RealRuns.samples_wf one_desired_wf);
    rewrite ?Hn; simpl; lia.
Defined.

(** The object with its network built and no basis constructed. *)
Lemma lift_before_construct_basis_witness :
  exists s,
    build_diffeomorphism_model 2 50 64 (1 / 10)%R start = (Ok tt, s) /\
    self_basis (self s) = None /\
    lift samples samples s = (Err TypeError, s).
Proof.
  destruct (build_spec 2 50 64 (1 / 10)%R start eq_refl
              RealRuns.real_tenth_ok) as (m & g & E & _).
  eexists. split; [exact E|]. split; [reflexivity|].
  apply (lift_before_construct_basis
           (mk_World (set_A_cl_tensor
                        (set_diffeomorphism_model m (self start)))
                     g (cuda_is_available start) (warnings_shown start))
           samples samples eq_refl
           RealRuns.samples_wf RealRuns.samples_wf);
    simpl; lia.
Defined.

Lemma diffeomorphism_checks_its_input_witness :
  ncols samples <> ncols one_desired /\
  nrows three_rows + nrows three_rows <> 2 * 2 /\
  exists m s, set_up start = (Ok tt, s) /\
    diffeomorphism samples one_desired s =
      (Err ValueError, in_eval_mode m s) /\
    diffeomorphism three_rows three_rows s =
      (Err RuntimeError, in_eval_mode m s).
Proof.
  split; [simpl; lia|]. split; [simpl; lia|].
  destruct ready_after_setup as (m & s & Es & Hr & Hn & _ & Harch).
  exists m, s. split; [exact Es|].
  assert (Harch' : architecture m =
                   built_architecture (self_n (self s)) 2 50 (1 / 10)%R)
    by (rewrite Hn; exact Harch).
  pose proof (proj1 (proj2 (proj2 (proj2 Hr)))) as Hm.
  split.
  - apply (proj1 (diffeomorphism_checks_its_input s m 2 50 (1 / 10)%R
                    samples one_desired Hm Harch')).
    simpl. lia.
  - apply (proj2 (diffeomorphism_checks_its_input s m 2 50 (1 / 10)%R
                    three_rows three_rows Hm Harch'));
      [reflexivity|]. rewrite Hn. simpl. lia.
Defined.

Lemma build_cannot_be_repeated_witness :
  exists s1 m' s2,
    build_diffeomorphism_model 2 50 64 (1 / 10)%R start = (Ok tt, s1) /\
    build_diffeomorphism_model 3 20 64 (1 / 10)%R s1 =
      (Err TypeError, s2) /\
    self_diffeomorphism_model (self s2) = Some m' /\
    architecture m' = built_architecture 2 3 20 (1 / 10)%R.
Proof.
  destruct (build_cannot_be_repeated 2 50 64 (1 / 10)%R 3 20 64
              (1 / 10)%R start eq_refl RealRuns.real_tenth_ok
              RealRuns.real_tenth_ok)
    as (s1 & m' & s2 & E1 & E2 & Hm & Harch & _).
  exists s1, m', s2. repeat split; assumption.
Defined.

Lemma construct_basis_needs_bounds_witness :
  exists s',
    construct_basis None None start = (Err TypeError, s') /\
    self_basis (self s') = None /\
    self_Nlift (self s') = Some 4.
Proof.
  destruct (construct_basis_needs_bounds None None start eq_refl eq_refl
              (or_introl eq_refl))
    as (s' & L & E & Hb & _ & _ & HN & _).
  exists s'. split; [exact E|]. split; [exact Hb|exact HN].
Defined.

Lemma scaling_divides_by_the_width_witness :
  length [1%R; 1%R] = length [(-1)%R; (-1)%R] /\
  exists f,
    construct_scaling_function (Some [1%R; 1%R]) (Some [(-1)%R; (-1)%R])
      start = (Ok f, start) /\
    scale_func f (col_array [3%R; 4%R]) =
      Ok (col_array [(3 / (1 - -1))%R; (4 / (1 - -1))%R]).
Proof.
  split; [reflexivity|].
  destruct (proj1 (scaling_divides_by_the_width [1%R; 1%R]
                     [(-1)%R; (-1)%R] start eq_refl) eq_refl)
    as (f & Ef & Hf).
  exists f. split; [exact Ef|]. exact (Hf [3%R; 4%R] eq_refl).
Defined.

(** An object whose matrix is 1 x 1 while n = 2. *)
Definition misfit : World :=
  mk_World (random := Examples.counting_generator)
    (init 2 1 (mk_ndarray 1 1 [[1%R]]) RealRuns.BK) 0%nat false [].

Lemma construct_linear_eigfuncs_needs_n_by_n_witness :
  construct_linear_eigfuncs misfit = (Err ValueError, misfit).
Proof.
  apply (proj2 (construct_linear_eigfuncs_needs_n_by_n misfit));
    [reflexivity|simpl; lia].
Defined.

Lemma powers_row_is_the_index_in_base_witness :
  2 < (1 + 1) ^ 2 /\ nth 2 (Powers.powers 2 1) [] = [1; 0].
Proof.
  split; [simpl; lia|].
  apply (powers_row_is_the_index_in_base 2 1 2). simpl. lia.
Defined.

Lemma real_power_zero : forall x : R, spower x 0 = sone.
Proof. reflexivity. Qed.

Lemma real_one_times_one : smul sone sone = (sone : R).
Proof. apply Rmult_1_r. Qed.

Lemma the_first_eigenfunction_is_constant_witness :
  (forall x : R, spower x 0 = sone) /\ smul sone sone = (sone : R) /\
  exists s res s' Lambda,
    set_up start = (Ok tt, s) /\
    lift samples samples s = (Ok res, s') /\
    nrows res = 3 /\
    Forall (fun r => hd_error r = Some 1%R) (rows res) /\
    self_Lambda (self s) = Some Lambda /\
    hd_error Lambda = Some (ln 1).
Proof.
  split; [exact real_power_zero|]. split; [exact real_one_times_one|].
  exact (the_first_eigenfunction_is_constant
           real_power_zero real_one_times_one
           2 50 64 (1 / 10)%R [1%R; 1%R] [(-1)%R; (-1)%R] start
           samples samples eq_refl RealRuns.real_tenth_ok eq_refl eq_refl
           eq_refl eq_refl RealRuns.samples_wf RealRuns.samples_wf
           eq_refl eq_refl (le_n 3)).
Defined.

Lemma lifted_trajectory_starts_at_z0_witness :
  wf trajectory /\
  exists s evo start',
    set_up start = (Ok tt, s) /\
    fst (eigfunc_evo_tmp trajectory trajectory s) = Ok evo /\
    fst (z0 trajectory trajectory s) = Ok start' /\
    nrows evo = 4 /\ ncols evo = 3 /\
    column evo 0 = Ok start'.
Proof.
  split; [exact trajectory_wf|].
  destruct ready_after_setup as (m & s & Es & Hr & Hn & Hmp & _).
  destruct (lifted_trajectory_starts_at_z0 s _ _ m trajectory trajectory
              Hr trajectory_wf trajectory_wf)
    as (evo & z & He & Hz & Hnr & Hnc & Hc0 & _);
    rewrite ?Hn; try reflexivity; try (simpl; lia).
  exists s, evo, z. rewrite Hn, Hmp in Hnr.
  repeat split; assumption.
Defined.

Lemma lift_is_repeatable_witness :
  wf samples /\
  exists s res,
    set_up start = (Ok tt, s) /\
    fst (lift samples samples s) = Ok res /\
    lift samples samples (snd (lift samples samples s)) =
      (Ok res, snd (lift samples samples s)).
Proof.
  split; [exact RealRuns.samples_wf|].
  destruct ready_after_setup as (m & s & Es & Hr & Hn & _).
  pose proof (lift_is_repeatable s _ _ m samples samples Hr
                RealRuns.samples_wf RealRuns.samples_wf) as H.
  rewrite Hn in H. destruct (H eq_refl eq_refl (le_n _)) as (res & H1 & H2).
  exists s, res. split; [exact Es|]. split; [exact H1|exact H2].
Defined.

End Witnesses.

End RealBehaviour.

(** ** Autograd and Adam for the runs of a fit *)

Module FitExamples.
Import PrimFloat.
Import Numpy Torch Koopman Fit Binary64.

(** [int(x)] of a binary64 number: its integer part, rounded towards zero.
    Python raises on an infinity and on a NaN, which no run below meets;
    they are given 0 here. *)
Definition int_of_float (x : float) : Z :=
  match FloatOps.Prim2SF x with
  | SpecFloat.S754_finite sign m e =>
      let v := if (0 <=? e)%Z then (Z.pos m * 2 ^ e)%Z
               else (Z.pos m / 2 ^ (- e))%Z in
      if sign then (- v)%Z else v
  | _ => 0%Z
  end.

(** [int(train_frac * N)] *)
Definition int_of_product (train_frac : float) (N : nat) : Z :=
  int_of_float (train_frac * of_nat N).

(** The number of outputs of a network: the width of its last linear
    layer. *)
Definition output_width {random : TorchRandom float} (m : Sequential float)
  : nat :=
  fold_left (fun width kv =>
               match snd kv with
               | Linear _ o _ _ => o
               | _ => width
               end) (modules m) 0.

(** The Jacobians of a network whose weights are all zero: for each sample
    of the batch a matrix (outputs x inputs) of zeros. *)
Definition zero_jacobians {random : TorchRandom float}
    (m : Sequential float) (x : ndarray float) : list (ndarray float) :=
  repeat (mk_ndarray (output_width m) (ncols x)
            (repeat (repeat 0%float (ncols x)) (output_width m)))
         (nrows x).

(** Autograd on a network whose weights are all zero, and Adam at a
    learning rate of zero, where a step leaves every parameter as it is.
    The runs below keep to both: the generator they use draws weights of
    zeros, and they pass a learning rate of zero. *)
Definition zero_network_autograd {random : TorchRandom float}
  : Autograd float := {|
  Optimizer := unit;
  Adam := fun _ _ _ => tt;
  set_lr := fun o _ => o;
  compute_jacobian := fun m _ x => zero_jacobians m x;
  backward_step := fun o m _ _ _ _ _ _ _ _ => (m, o);
  int_of_fraction := int_of_product
|}.

End FitExamples.

(** ** Runs on binary64: data, fits and files *)

Module Binary64Behaviour.
Import PrimFloat.
Import Numpy Torch Koopman Fit Binary64 Behaviour Storage.

Section Witnesses.
#[local] Existing Instance Examples.counting_generator.
#[local] Existing Instance Binary64Runs.forward_difference.
#[local] Existing Instance FitExamples.zero_network_autograd.

Definition tenth : float := Binary64Runs.tenth.

(** The object of the end-to-end scenario, new, and with its network
    built. *)
Definition new_object : World := Binary64Runs.fresh0.

Definition built : World :=
  snd (build_diffeomorphism_model 2 50 64 tenth new_object).

(** Two samples of state, desired state and derivative. *)
Definition X : ndarray float := mk_ndarray 2 2 [[1; 2]; [3; 4]]%float.
Definition X_d : ndarray float := mk_ndarray 2 2 [[5; 6]; [7; 8]]%float.
Definition X_dot : ndarray float := mk_ndarray 2 2 [[9; 10]; [11; 12]]%float.

Lemma X_wf : wf X.
Proof. split; [reflexivity|repeat constructor]. Qed.

Lemma X_d_wf : wf X_d.
Proof. split; [reflexivity|repeat constructor]. Qed.

Lemma X_dot_wf : wf X_dot.
Proof. split; [reflexivity|repeat constructor]. Qed.

Lemma training_tensor_splits_back_witness :
  wf X /\
  exists X_tensor,
    training_input (X, X_dot, X_d, []) = Ok X_tensor /\
    columns_from (2 * 2) (take_rows X_tensor [1; 0]) =
      take_rows X_dot [1; 0] /\
    columns_upto (2 * 2) (take_rows X_tensor [1; 0]) =
      mk_ndarray 2 4 [[3; 4; 7; 8]; [1; 2; 5; 6]]%float.
Proof.
  split; [exact X_wf|].
  destruct (training_tensor_splits_back 2 X X_dot X_d [] [1; 0]
              X_wf X_d_wf X_dot_wf eq_refl eq_refl eq_refl eq_refl)
    as (T & xt & ET & Ext & H1 & H2 & _).
  exists T. split; [exact ET|]. split; [exact H2|].
  rewrite H1. vm_compute in Ext. injection Ext as <-. reflexivity.
Defined.

Lemma forward_difference_keeps_the_shape :
  forall (x : ndarray float) (ts : list float),
    nrows (differentiate_vec x ts) = nrows x /\
    ncols (differentiate_vec x ts) = ncols x.
Proof. intros x ts. split; reflexivity. Qed.

Lemma X_val_blocks : Forall (block 3 2) Binary64Runs.X_val.
Proof.
  constructor; [|constructor].
  split; [split; [reflexivity|repeat constructor]|split; reflexivity].
Qed.

Lemma Xd_val_blocks : Forall (block 3 2) Binary64Runs.Xd_val.
Proof.
  constructor; [|constructor].
  split; [split; [reflexivity|repeat constructor]|split; reflexivity].
Qed.

Lemma t_val_wf : wf Binary64Runs.t_val.
Proof. split; [reflexivity|repeat constructor]. Qed.

Lemma process_in_closed_form_witness :
  Forall (block 3 2) Binary64Runs.X_val /\
  process Binary64Runs.X_val Binary64Runs.t_val Binary64Runs.Xd_val =
  Ok (mk_ndarray 3 2 [[1; 2]; [2; 4]; [3; 6]]%float,
      mk_ndarray 3 2 [[1; 2]; [1; 2]; [1; 2]]%float,
      mk_ndarray 3 2 [[5; 5]; [7; 7]; [0; 0]]%float,
      [0; 1; 2]%float).
Proof.
  split; [exact X_val_blocks|].
  rewrite (process_in_closed_form 1 3 2 Binary64Runs.X_val
             Binary64Runs.t_val Binary64Runs.Xd_val
             forward_difference_keeps_the_shape
             (le_n 1) (le_S _ _ (le_S _ _ (le_n 1))) (le_S _ _ (le_n 1))
             eq_refl eq_refl
             X_val_blocks Xd_val_blocks t_val_wf eq_refl eq_refl).
  vm_compute. reflexivity.
Defined.

Lemma fit_needs_the_model_witness :
  self_diffeomorphism_model (self new_object) = None /\
  is_err (fst (fit_diffeomorphism_model Binary64Runs.X_val
                 Binary64Runs.t_val Binary64Runs.Xd_val tenth tenth 5
                 tenth tenth tenth 64 true false (None, None, None)
                 new_object)) = true /\
  self (snd (fit_diffeomorphism_model Binary64Runs.X_val
               Binary64Runs.t_val Binary64Runs.Xd_val tenth tenth 5
               tenth tenth tenth 64 true false (None, None, None)
               new_object)) = self new_object.
Proof.
  split; [reflexivity|].
  exact (fit_needs_the_model Binary64Runs.X_val Binary64Runs.t_val
           Binary64Runs.Xd_val tenth tenth 5 tenth tenth tenth 64 true
           false (None, None, None) new_object eq_refl).
Defined.

(** A fit at a learning rate of zero over the three samples of the
    scenario. *)
Definition fit_with (train_frac : float) (validation : ValidationSet)
  : M float :=
  fit_diffeomorphism_model Binary64Runs.X_val Binary64Runs.t_val
    Binary64Runs.Xd_val 0%float tenth 5 train_frac tenth tenth 64 true false
    validation.

Lemma fit_needs_validation_samples_witness :
  explicit_validation (S := float) (None, None, None) = false /\
  int_of_fraction 1%float 3 = 3%Z /\
  is_err (fst (fit_with 1%float (None, None, None) built)) = true /\
  fst (fit_with 1%float (None, None, None) built) = Err ZeroDivisionError /\
  int_of_fraction 0.5%float 3 = 1%Z /\
  is_err (fst (fit_with 0.5%float (None, None, None) built)) = false /\
  is_err (fst (fit_with 1%float
                 (Some Binary64Runs.X_val, Some Binary64Runs.t_val,
                  Some Binary64Runs.Xd_val) built)) = false.
Proof.
  split; [reflexivity|].
  split; [vm_compute; reflexivity|].
  split.
  { apply (fit_needs_validation_samples Binary64Runs.X_val
             Binary64Runs.t_val Binary64Runs.Xd_val 0%float tenth 5 1%float
             tenth tenth 64 true false (None, None, None) built eq_refl).
    intros processed E. vm_compute in E. injection E as <-.
    vm_compute. reflexivity. }
  split; [vm_compute; reflexivity|].
  split; [vm_compute; reflexivity|].
  split; vm_compute; reflexivity.
Defined.

(** Two networks of one layout with different parameters. *)
Definition saved_network : Sequential float :=
  double (nn_Sequential
            [Linear 1 1 (mk_ndarray 1 1 [[1%float]]) [2%float]; ReLU]).


Definition holding (m : Sequential float) : World :=
  mk_World (set_diffeomorphism_model m (self new_object)) 0%nat false [].


Lemma storage_errors_witness :
  self_diffeomorphism_model (self new_object) = None /\
  save_diffeomorphism_model "model.pt" [] new_object =
    (Err AttributeError, new_object) /\
  load_diffeomorphism_model "model.pt" [] new_object =
    (Err AttributeError, new_object) /\
  read (S := float) "model.pt" [] = None /\
  load_diffeomorphism_model "model.pt" [] (holding saved_network) =
    (Err FileNotFoundError, holding saved_network).
Proof.
  destruct (storage_errors "model.pt" [] new_object) as [Hnone _].
  destruct (Hnone eq_refl) as [Hsave Hload].
  destruct (storage_errors "model.pt" [] (holding saved_network))
    as [_ Hfile].
  split; [reflexivity|]. split; [exact Hsave|]. split; [exact Hload|].
  split; [reflexivity|].
  exact (Hfile saved_network eq_refl eq_refl).
Defined.

End Witnesses.

End Binary64Behaviour.
